(** * Particle Cosmos: the particle / force-field simulation core of [muay.py]

    A shallow embedding of [src/muay.py]: the classes [ForceField] and
    [Particle], the shard factory [create_explosion_at], the colour
    conversion [hsv_to_rgb], the lifetime of [SacredGeometry] and the state
    transition of the main loop with its pruning comprehensions (drawing is
    left out), followed by the properties that are settled on it.

    Conventions of the embedding.
    - Python [float] values are read as exact real numbers ([R]) in the
      embedding of the classes and of the loop; infinities and NaN are
      outside the model.  Where a property depends on rounding (the speed
      limit, the hue of [hsv_to_rgb], the search under a click) the lines
      concerned are given a second time over a signature of float
      operations, [Arith], read exactly, with a rounding after every
      operation, and in binary64 on Rocq's primitive floats.  Python [int]
      values that the code only ever counts with (ages, colour channels,
      energy, charge) are [Z].
    - A method [obj.m(args)] that mutates [self] becomes a function that
      returns the object after the call next to the method's result.
    - Module-level mutable state ([particles], the generator behind
      [random]) is threaded explicitly through a small state-and-exception
      monad; a raised exception keeps the state reached so far, as in Python.
    - [field_type] and the particle kind stay strings, as in the source. *)

From Stdlib Require Import Floats.
From Stdlib Require Import Reals Lra Lia ZArith List String Bool Permutation.
Import ListNotations.

Local Open Scope Z_scope.
Local Open Scope R_scope.

(** ** Numeric helpers *)

(** Python's [a < b], [a > b], [a >= b], [a <= b] on floats, as booleans. *)
Definition Rltb (a b : R) : bool := if Rlt_dec a b then true else false.
Definition Rgtb (a b : R) : bool := Rltb b a.
Definition Rleb (a b : R) : bool := if Rle_dec a b then true else false.
Definition Rgeb (a b : R) : bool := Rleb b a.

(** Python's [int(r)] on a float: truncation toward zero. *)
Definition py_int (r : R) : Z :=
  if Rle_dec 0 r then Int_part r else (- Int_part (- r))%Z.

(** ** Module constants (lines 13, 36-37 of the source) *)

Definition WIDTH : R := 1000.
Definition HEIGHT : R := 700.
Definition turbulence_strength : R := 3 / 10.
Definition turbulence_scale : R := 5 / 1000.

(** ** ForceField (lines 55-73) *)

Module ForceField.

Record t : Type := mk {
  x : R;
  y : R;
  strength : R;
  radius_sq : R;
  field_type : string;
  age : Z;
  max_age : Z;
  active_radius_sq : R
}.

(** [__init__(self, x, y, strength, radius, field_type, duration=120)] *)
Definition init (x0 y0 strength0 radius : R) (field_type0 : string)
           (duration : Z) : t :=
  {| x := x0; y := y0; strength := strength0;
     radius_sq := radius * radius;
     field_type := field_type0;
     age := 0; max_age := duration;
     active_radius_sq := (radius + 20) * (radius + 20) |}.

Definition set_age (self : t) (a : Z) : t :=
  {| x := x self; y := y self; strength := strength self;
     radius_sq := radius_sq self; field_type := field_type self;
     age := a; max_age := max_age self;
     active_radius_sq := active_radius_sq self |}.

(** [update(self)]: [self.age += 1; return self.age < self.max_age].
    Returns the field after the call and the returned flag. *)
Definition update (self : t) : t * bool :=
  let self' := set_age self (age self + 1)%Z in
  (self', (age self' <? max_age self')%Z).

(** [is_near(self, x, y)] *)
Definition is_near (self : t) (px py : R) : bool :=
  let dx := px - x self in
  let dy := py - y self in
  Rltb (dx * dx + dy * dy) (active_radius_sq self).

End ForceField.

(** The field prune of the main loop (line 489):
    [force_fields = [f for f in force_fields if f.update()]]. *)
Fixpoint prune_fields (force_fields : list ForceField.t) : list ForceField.t :=
  match force_fields with
  | [] => []
  | f :: rest =>
      let (f', alive) := ForceField.update f in
      if alive then f' :: prune_fields rest else prune_fields rest
  end.

(** The live field set after [k] steps of the loop. *)
Fixpoint fields_after (k : nat) (force_fields : list ForceField.t)
  : list ForceField.t :=
  match k with
  | O => force_fields
  | S k' => prune_fields (fields_after k' force_fields)
  end.

(** ** Particle kinds (lines 45-50) *)

(** A colour: the three integer channels of a Python list or tuple. *)
Definition RGB : Type := (Z * Z * Z)%type.

(** One entry of [PARTICLE_TYPES]: the dict with keys "mass", "color", "drag". *)
Record TypeData : Type := mkTypeData {
  td_mass : R;
  td_color : RGB;
  td_drag : R
}.

(** The module-level dict [PARTICLE_TYPES], in its source order. *)
Definition PARTICLE_TYPES : list (string * TypeData) :=
  [ ("NORMAL"%string, mkTypeData 1 (100, 200, 255)%Z (98 / 100));
    ("HEAVY"%string,  mkTypeData 2 (255, 150, 50)%Z (99 / 100));
    ("LIGHT"%string,  mkTypeData (5 / 10) (150, 255, 100)%Z (96 / 100));
    ("ENERGY"%string, mkTypeData (3 / 10) (255, 100, 255)%Z (94 / 100)) ].

(** Dict subscription [d[key]]: [None] stands for Python's [KeyError]. *)
Fixpoint dict_get {V : Type} (d : list (string * V)) (key : string) : option V :=
  match d with
  | [] => None
  | (k, v) :: rest => if String.eqb key k then Some v else dict_get rest key
  end.

(** ** Exceptions and outcomes *)

Inductive exn : Type :=
| AttributeError (attr : string)
| KeyError (key : string)
| ZeroDivisionError.

Inductive Outcome (A : Type) : Type :=
| Ok (a : A)
| Raise (e : exn).
Arguments Ok {A} a.
Arguments Raise {A} e.

(** ** Program state and effects *)

(** The module-level state the core reads and writes.  The standard-library
    generator behind [random] is not part of the repository: its [n]-th draw
    is taken from [rnd_unit] when the call is [random.random()] and from
    [rnd_below] when it is the integer draw below [k] that [randint] and
    [choice] are built on. *)
Record World (P : Type) : Type := mkWorld {
  rnd_unit : nat -> R;
  rnd_below : nat -> Z -> Z;
  draws : nat;
  particle_size_multiplier : R;
  particles : list P
}.
Arguments mkWorld {P}.
Arguments rnd_unit {P}.
Arguments rnd_below {P}.
Arguments draws {P}.
Arguments particle_size_multiplier {P}.
Arguments particles {P}.

(** What the generator guarantees about its draws. *)
Definition rng_ok {P : Type} (w : World P) : Prop :=
  (forall n, 0 <= rnd_unit w n < 1) /\
  (forall n k, (0 < k)%Z -> (0 <= rnd_below w n k < k)%Z).

(** A computation over the world that returns or raises; the world reached
    is kept in both cases. *)
Definition M (P A : Type) : Type := World P -> Outcome A * World P.

Definition ret {P A : Type} (a : A) : M P A := fun w => (Ok a, w).

Definition raise {P A : Type} (e : exn) : M P A := fun w => (Raise e, w).

Definition bind {P A B : Type} (c : M P A) (k : A -> M P B) : M P B :=
  fun w =>
    match c w with
    | (Ok a, w') => k a w'
    | (Raise e, w') => (Raise e, w')
    end.

Declare Scope py_scope.
Delimit Scope py_scope with py.
Notation "x <- c ;; k" := (bind c (fun x => k))
  (at level 100, c at next level, right associativity) : py_scope.
Notation "c ;;; k" := (bind c (fun _ => k))
  (at level 100, right associativity) : py_scope.

Definition lift {P A : Type} (o : Outcome A) : M P A := fun w => (o, w).

Definition next_draw {P : Type} (w : World P) : World P :=
  mkWorld (rnd_unit w) (rnd_below w) (S (draws w))
          (particle_size_multiplier w) (particles w).

Definition set_particles {P : Type} (w : World P) (ps : list P) : World P :=
  mkWorld (rnd_unit w) (rnd_below w) (draws w)
          (particle_size_multiplier w) ps.

(** [random.random()] *)
Definition random_random {P : Type} : M P R :=
  fun w => (Ok (rnd_unit w (draws w)), next_draw w).

(** [random.uniform(a, b)], that is [a + (b - a) * random()]. *)
Definition random_uniform {P : Type} (a b : R) : M P R :=
  (r <- random_random ;; ret (a + (b - a) * r))%py.

(** The integer draw below [k]. *)
Definition random_below {P : Type} (k : Z) : M P Z :=
  fun w => (Ok (rnd_below w (draws w) k), next_draw w).

(** [random.randint(a, b)]: [a] plus a draw below [b - a + 1]. *)
Definition random_randint {P : Type} (a b : Z) : M P Z :=
  (k <- random_below (b - a + 1) ;; ret (a + k)%Z)%py.

(** [random.choice(seq)]: the element at a draw below [len(seq)]. *)
Definition random_choice {P A : Type} (seq : list A) (default : A) : M P A :=
  (k <- random_below (Z.of_nat (List.length seq)) ;;
   ret (nth (Z.to_nat k) seq default))%py.

(** Reads of module-level variables. *)
Definition get_particle_size_multiplier {P : Type} : M P R :=
  fun w => (Ok (particle_size_multiplier w), w).

(** [for _ in range(count): body]. *)
Fixpoint for_range {P : Type} (count : nat) (body : M P unit) : M P unit :=
  match count with
  | O => ret tt
  | S n => (body ;;; for_range n body)%py
  end.

(** ** Particle (lines 91-204) *)

Module Particle.

(** [__slots__] (lines 92-94): the only attribute names an instance accepts. *)
Definition slots : list string :=
  [ "x"; "y"; "vx"; "vy"; "type_data"; "mass"; "size"; "target_size"; "color";
    "trail"; "max_trail"; "energy"; "max_energy"; "age"; "max_age"; "glow";
    "merge_cooldown"; "charged"; "charge"; "base_size" ]%string.

(** One record field per slot, in the order of [__slots__]. *)
Record t : Type := mk {
  x : R;
  y : R;
  vx : R;
  vy : R;
  type_data : TypeData;
  mass : R;
  size : R;
  target_size : R;
  color : RGB;
  trail : list (R * R);
  max_trail : Z;
  energy : Z;
  max_energy : Z;
  age : Z;
  max_age : Z;
  glow : R;
  merge_cooldown : Z;
  charged : bool;
  charge : Z;
  base_size : R
}.

(** Stores to a slot: [self.<slot> = v]. *)
Definition set_x (self : t) (v : R) : t :=
  {| x := v; y := y self; vx := vx self; vy := vy self;
     type_data := type_data self; mass := mass self; size := size self;
     target_size := target_size self; color := color self;
     trail := trail self; max_trail := max_trail self;
     energy := energy self; max_energy := max_energy self; age := age self;
     max_age := max_age self; glow := glow self;
     merge_cooldown := merge_cooldown self; charged := charged self;
     charge := charge self; base_size := base_size self |}.

Definition set_y (self : t) (v : R) : t :=
  {| x := x self; y := v; vx := vx self; vy := vy self;
     type_data := type_data self; mass := mass self; size := size self;
     target_size := target_size self; color := color self;
     trail := trail self; max_trail := max_trail self;
     energy := energy self; max_energy := max_energy self; age := age self;
     max_age := max_age self; glow := glow self;
     merge_cooldown := merge_cooldown self; charged := charged self;
     charge := charge self; base_size := base_size self |}.

Definition set_vx (self : t) (v : R) : t :=
  {| x := x self; y := y self; vx := v; vy := vy self;
     type_data := type_data self; mass := mass self; size := size self;
     target_size := target_size self; color := color self;
     trail := trail self; max_trail := max_trail self;
     energy := energy self; max_energy := max_energy self; age := age self;
     max_age := max_age self; glow := glow self;
     merge_cooldown := merge_cooldown self; charged := charged self;
     charge := charge self; base_size := base_size self |}.

Definition set_vy (self : t) (v : R) : t :=
  {| x := x self; y := y self; vx := vx self; vy := v;
     type_data := type_data self; mass := mass self; size := size self;
     target_size := target_size self; color := color self;
     trail := trail self; max_trail := max_trail self;
     energy := energy self; max_energy := max_energy self; age := age self;
     max_age := max_age self; glow := glow self;
     merge_cooldown := merge_cooldown self; charged := charged self;
     charge := charge self; base_size := base_size self |}.

Definition set_size (self : t) (v : R) : t :=
  {| x := x self; y := y self; vx := vx self; vy := vy self;
     type_data := type_data self; mass := mass self; size := v;
     target_size := target_size self; color := color self;
     trail := trail self; max_trail := max_trail self;
     energy := energy self; max_energy := max_energy self; age := age self;
     max_age := max_age self; glow := glow self;
     merge_cooldown := merge_cooldown self; charged := charged self;
     charge := charge self; base_size := base_size self |}.

Definition set_target_size (self : t) (v : R) : t :=
  {| x := x self; y := y self; vx := vx self; vy := vy self;
     type_data := type_data self; mass := mass self; size := size self;
     target_size := v; color := color self; trail := trail self;
     max_trail := max_trail self; energy := energy self;
     max_energy := max_energy self; age := age self;
     max_age := max_age self; glow := glow self;
     merge_cooldown := merge_cooldown self; charged := charged self;
     charge := charge self; base_size := base_size self |}.

Definition set_color (self : t) (v : RGB) : t :=
  {| x := x self; y := y self; vx := vx self; vy := vy self;
     type_data := type_data self; mass := mass self; size := size self;
     target_size := target_size self; color := v; trail := trail self;
     max_trail := max_trail self; energy := energy self;
     max_energy := max_energy self; age := age self;
     max_age := max_age self; glow := glow self;
     merge_cooldown := merge_cooldown self; charged := charged self;
     charge := charge self; base_size := base_size self |}.

Definition set_trail (self : t) (v : list (R * R)) : t :=
  {| x := x self; y := y self; vx := vx self; vy := vy self;
     type_data := type_data self; mass := mass self; size := size self;
     target_size := target_size self; color := color self; trail := v;
     max_trail := max_trail self; energy := energy self;
     max_energy := max_energy self; age := age self;
     max_age := max_age self; glow := glow self;
     merge_cooldown := merge_cooldown self; charged := charged self;
     charge := charge self; base_size := base_size self |}.

Definition set_energy (self : t) (v : Z) : t :=
  {| x := x self; y := y self; vx := vx self; vy := vy self;
     type_data := type_data self; mass := mass self; size := size self;
     target_size := target_size self; color := color self;
     trail := trail self; max_trail := max_trail self; energy := v;
     max_energy := max_energy self; age := age self;
     max_age := max_age self; glow := glow self;
     merge_cooldown := merge_cooldown self; charged := charged self;
     charge := charge self; base_size := base_size self |}.

Definition set_age (self : t) (v : Z) : t :=
  {| x := x self; y := y self; vx := vx self; vy := vy self;
     type_data := type_data self; mass := mass self; size := size self;
     target_size := target_size self; color := color self;
     trail := trail self; max_trail := max_trail self;
     energy := energy self; max_energy := max_energy self; age := v;
     max_age := max_age self; glow := glow self;
     merge_cooldown := merge_cooldown self; charged := charged self;
     charge := charge self; base_size := base_size self |}.

Definition set_max_age (self : t) (v : Z) : t :=
  {| x := x self; y := y self; vx := vx self; vy := vy self;
     type_data := type_data self; mass := mass self; size := size self;
     target_size := target_size self; color := color self;
     trail := trail self; max_trail := max_trail self;
     energy := energy self; max_energy := max_energy self; age := age self;
     max_age := v; glow := glow self;
     merge_cooldown := merge_cooldown self; charged := charged self;
     charge := charge self; base_size := base_size self |}.

Definition set_glow (self : t) (v : R) : t :=
  {| x := x self; y := y self; vx := vx self; vy := vy self;
     type_data := type_data self; mass := mass self; size := size self;
     target_size := target_size self; color := color self;
     trail := trail self; max_trail := max_trail self;
     energy := energy self; max_energy := max_energy self; age := age self;
     max_age := max_age self; glow := v;
     merge_cooldown := merge_cooldown self; charged := charged self;
     charge := charge self; base_size := base_size self |}.

Definition set_merge_cooldown (self : t) (v : Z) : t :=
  {| x := x self; y := y self; vx := vx self; vy := vy self;
     type_data := type_data self; mass := mass self; size := size self;
     target_size := target_size self; color := color self;
     trail := trail self; max_trail := max_trail self;
     energy := energy self; max_energy := max_energy self; age := age self;
     max_age := max_age self; glow := glow self; merge_cooldown := v;
     charged := charged self; charge := charge self;
     base_size := base_size self |}.

(** An attribute store by name, [self.<name> = v]: the class declares
    [__slots__], so its instances have no [__dict__] and a name outside
    [slots] is refused with [AttributeError]. *)
Definition setattr (name : string) (store : t -> t) (self : t) : Outcome t :=
  if existsb (String.eqb name) slots
  then Ok (store self)
  else Raise (AttributeError name).

Section Update.

(** The module-level flag [turbulence_active], read by [update]. *)
Variable turbulence_active : bool.

(** Lines 119-121. *)
Definition step_age (self : t) : t :=
  let self := set_age self (age self + 1)%Z in
  if (merge_cooldown self >? 0)%Z
  then set_merge_cooldown self (merge_cooldown self - 1)%Z
  else self.

(** Lines 124-126: [append], then [pop(0)] when over [max_trail]. *)
Definition step_trail (self : t) : t :=
  let self := set_trail self (trail self ++ [(x self, y self)]) in
  if (Z.of_nat (List.length (trail self)) >? max_trail self)%Z
  then set_trail self (tl (trail self))
  else self.

(** Lines 129-133. *)
Definition step_turbulence (self : t) : t :=
  if turbulence_active then
    let nx := sin (x self * turbulence_scale + IZR (age self) * (2 / 100))
              * turbulence_strength in
    let ny := cos (y self * turbulence_scale + IZR (age self) * (2 / 100))
              * turbulence_strength in
    set_vy (set_vx self (vx self + nx)) (vy self + ny)
  else self.

(** Lines 137-156: the acceleration [(ax, ay)] one field contributes, or
    [None] where the loop body says [continue].  [radius_sq ** 0.5] is
    the square root of the non-negative [radius_sq] that
    [ForceField.__init__] stores. *)
Definition field_accel (self : t) (field : ForceField.t) : option (R * R) :=
  if negb (ForceField.is_near field (x self) (y self)) then None else
  let dx := ForceField.x field - x self in
  let dy := ForceField.y field - y self in
  let dist_sq := dx * dx + dy * dy in
  let dist_sq := if Rltb dist_sq 1 then 1 else dist_sq in
  let distance := sqrt dist_sq in
  if Rgeb distance (sqrt (ForceField.radius_sq field)) then None else
  let force :=
    if String.eqb (ForceField.field_type field) "gravity" then
      ForceField.strength field * mass self / distance
    else if String.eqb (ForceField.field_type field) "repulsion" then
      - ForceField.strength field * mass self / distance
    else
      ForceField.strength field * IZR (charge self) / distance in
  let ax := (dx / distance) * force * (8 / 10) in
  let ay := (dy / distance) * force * (8 / 10) in
  Some (ax, ay).

(** Lines 157-158. *)
Definition apply_field (self : t) (field : ForceField.t) : t :=
  match field_accel self field with
  | None => self
  | Some (ax, ay) => set_vy (set_vx self (vx self + ax)) (vy self + ay)
  end.

(** Lines 136-158: [for field in force_fields: ...]. *)
Definition step_fields (self : t) (force_fields : list ForceField.t) : t :=
  fold_left apply_field force_fields self.

(** Lines 161-163. *)
Definition step_drag (self : t) : t :=
  let drag := td_drag (type_data self) in
  set_vy (set_vx self (vx self * drag)) (vy self * drag).

(** Lines 166-170. *)
Definition step_speed_limit (self : t) : t :=
  let speed_sq := vx self * vx self + vy self * vy self in
  if Rgtb speed_sq 225 then
    let scale := 15 / sqrt speed_sq in
    set_vy (set_vx self (vx self * scale)) (vy self * scale)
  else self.

(** Lines 173-174. *)
Definition step_move (self : t) : t :=
  set_y (set_x self (x self + vx self * 2)) (y self + vy self * 2).

(** Lines 177-182. *)
Definition step_bounds (self : t) : t :=
  let self :=
    if Rltb (x self) 0 || Rgtb (x self) WIDTH
    then set_x (set_vx self (vx self * - (6 / 10)))
               (Rmax 0 (Rmin WIDTH (x self)))
    else self in
  if Rltb (y self) 0 || Rgtb (y self) HEIGHT
  then set_y (set_vy self (vy self * - (6 / 10)))
             (Rmax 0 (Rmin HEIGHT (y self)))
  else self.

(** Line 185. *)
Definition step_size (self : t) : t :=
  set_size self (size self + (target_size self - size self) * (1 / 10)).

(** Lines 189-191. *)
Definition step_color (self : t) (energy_ratio : R) : t :=
  set_color self
    (Z.min 255 (py_int (100 + 155 * energy_ratio)),
     Z.min 255 (py_int (150 + 100 * energy_ratio)),
     Z.min 255 (py_int (100 + 155 * (1 - energy_ratio)))).

(** Line 194. *)
Definition step_glow (self : t) : t :=
  set_glow self
    (if (energy self >? 80)%Z then glow self + 5 / 10
     else Rmax 0 (glow self - 3 / 10)).

(** Lines 197-202. *)
Definition step_target_size (self : t) : t :=
  if (energy self <? 20)%Z then
    set_target_size self (Rmax 1 (base_size self * (7 / 10)))
  else if (energy self >? 80)%Z then
    set_target_size self (Rmin (base_size self * 2) (size self * (101 / 100)))
  else
    set_target_size self (base_size self).

(** [update(self, force_fields, particles, dt)] (lines 118-204): the
    particle after the call, and the returned removal flag or the
    exception raised.  [particles] and [dt] are not used by the body. *)
Definition update (self : t) (force_fields : list ForceField.t)
           (particles : list t) (dt : R) : t * Outcome bool :=
  let self := step_age self in
  let self := step_trail self in
  let self := step_turbulence self in
  let self := step_fields self force_fields in
  let self := step_drag self in
  let self := step_speed_limit self in
  let self := step_move self in
  let self := step_bounds self in
  let self := step_size self in
  if (max_energy self =? 0)%Z then (self, Raise ZeroDivisionError) else
  let energy_ratio := IZR (energy self) / IZR (max_energy self) in
  let self := step_color self energy_ratio in
  let self := step_glow self in
  let self := step_target_size self in
  (self, Ok ((age self >? max_age self)%Z || (energy self <=? 0)%Z)).

End Update.


(** [__init__(self, x, y, particle_type="NORMAL")] (lines 96-116); the
    draws are made in the order of the source. *)
Definition init (x0 y0 : R) (particle_type : string) : M t t :=
  (vx0 <- random_uniform (-1) 1 ;;
   vy0 <- random_uniform (-1) 1 ;;
   type_data0 <- match dict_get PARTICLE_TYPES particle_type with
                 | Some d => ret d
                 | None => raise (KeyError particle_type)
                 end ;;
   u <- random_uniform 2 5 ;;
   m <- get_particle_size_multiplier ;;
   let base_size0 := u * m in
   max_age0 <- random_randint 400 1200 ;;
   r <- random_random ;;
   charge0 <- random_choice [(-1)%Z; 1%Z] 0%Z ;;
   ret {| x := x0; y := y0; vx := vx0; vy := vy0;
          type_data := type_data0;
          mass := td_mass type_data0;
          size := base_size0;
          target_size := base_size0;
          color := td_color type_data0;
          trail := [];
          max_trail := 6;
          energy := 100;
          max_energy := 100;
          age := 0;
          max_age := max_age0;
          glow := 0;
          merge_cooldown := 0;
          charged := Rltb r (3 / 10);
          charge := charge0;
          base_size := base_size0 |})%py.

End Particle.

(** ** Explosion shards (lines 325-345) *)

(** Lines 328-343: the shard as it stands just before the store to [drag]. *)
Definition make_shard (x y : R) (color : RGB) : M Particle.t Particle.t :=
  (angle <- random_uniform 0 (PI * 2) ;;
   speed <- random_uniform 2 6 ;;
   let vx := cos angle * speed in
   let vy := sin angle * speed in
   p <- Particle.init x y "LIGHT" ;;
   p <- lift (Particle.setattr "vx" (fun p => Particle.set_vx p vx) p) ;;
   p <- lift (Particle.setattr "vy" (fun p => Particle.set_vy p vy) p) ;;
   s <- random_uniform 1 2 ;;
   p <- lift (Particle.setattr "size" (fun p => Particle.set_size p s) p) ;;
   p <- lift (Particle.setattr "target_size"
                (fun p => Particle.set_target_size p (Particle.size p)) p) ;;
   let '(c0, c1, c2) := color in
   d0 <- random_randint (-30) 30 ;;
   d1 <- random_randint (-30) 30 ;;
   d2 <- random_randint (-30) 30 ;;
   p <- lift (Particle.setattr "color"
                (fun p => Particle.set_color p
                            (Z.min 255 (c0 + d0), Z.min 255 (c1 + d1),
                             Z.min 255 (c2 + d2))%Z) p) ;;
   a <- random_randint 40 80 ;;
   p <- lift (Particle.setattr "max_age" (fun p => Particle.set_max_age p a) p) ;;
   p <- lift (Particle.setattr "energy" (fun p => Particle.set_energy p 50%Z) p) ;;
   ret p)%py.

(** Lines 328-345, one turn of the loop.  [p.drag = 0.90] names an attribute
    that is not in [__slots__]; the record has no field to store it in. *)
Definition explosion_body (x y : R) (color : RGB) : M Particle.t unit :=
  (p <- make_shard x y color ;;
   p <- lift (Particle.setattr "drag" (fun p => p) p) ;;
   fun w => (Ok tt, set_particles w (particles w ++ [p])))%py.

(** [create_explosion_at(x, y, color, count=15)] *)
Definition create_explosion_at (x y : R) (color : RGB) (count : Z)
  : M Particle.t unit :=
  for_range (Z.to_nat count) (explosion_body x y color).

(** ** The particle prune of the main loop (line 494):
    [particles = [p for p in particles
                  if not p.update(force_fields, particles, dt)]]. *)
Fixpoint prune_particles_from (turbulence_active : bool)
         (force_fields : list ForceField.t) (all : list Particle.t) (dt : R)
         (ps : list Particle.t) : Outcome (list Particle.t) :=
  match ps with
  | [] => Ok []
  | p :: rest =>
      match Particle.update turbulence_active p force_fields all dt with
      | (p', Ok dead) =>
          match prune_particles_from turbulence_active force_fields all dt rest with
          | Ok kept => Ok (if negb dead then p' :: kept else kept)
          | Raise e => Raise e
          end
      | (_, Raise e) => Raise e
      end
  end.

Definition prune_particles (turbulence_active : bool)
           (force_fields : list ForceField.t) (dt : R)
           (particles : list Particle.t) : Outcome (list Particle.t) :=
  prune_particles_from turbulence_active force_fields particles dt particles.

(** The particle after a run of the loop: one call of [update] per element
    of [inputs], each with the turbulence flag and the live fields of its
    step. *)
Definition update_run (inputs : list (bool * list ForceField.t)) (dt : R)
           (p : Particle.t) : Particle.t :=
  fold_left (fun q i => fst (Particle.update (fst i) q (snd i) [] dt)) inputs p.

(** Two views of [update] used in the proofs: the stages that move the
    particle (lines 129-182), and the stages after them (lines 185-204). *)
Definition kinematics (turbulence_active : bool)
           (force_fields : list ForceField.t) (p : Particle.t) : Particle.t :=
  Particle.step_bounds
    (Particle.step_move
       (Particle.step_speed_limit
          (Particle.step_drag
             (Particle.step_fields
                (Particle.step_turbulence turbulence_active p) force_fields)))).

Definition finish (p : Particle.t) : Particle.t * Outcome bool :=
  let p := Particle.step_size p in
  if (Particle.max_energy p =? 0)%Z then (p, Raise ZeroDivisionError) else
  let energy_ratio := IZR (Particle.energy p) / IZR (Particle.max_energy p) in
  let p := Particle.step_color p energy_ratio in
  let p := Particle.step_glow p in
  let p := Particle.step_target_size p in
  (p, Ok ((Particle.age p >? Particle.max_age p)%Z
          || (Particle.energy p <=? 0)%Z)).

(** The particle [p] with another position and velocity. *)
Definition moved (p : Particle.t) (x y vx vy : R) : Particle.t :=
  Particle.mk x y vx vy
    (Particle.type_data p) (Particle.mass p) (Particle.size p)
    (Particle.target_size p) (Particle.color p) (Particle.trail p)
    (Particle.max_trail p) (Particle.energy p) (Particle.max_energy p)
    (Particle.age p) (Particle.max_age p) (Particle.glow p)
    (Particle.merge_cooldown p) (Particle.charged p) (Particle.charge p)
    (Particle.base_size p).

(** The particle [p] with another size, target size, colour and glow. *)
Definition dressed (p : Particle.t) (size target_size : R) (color : RGB)
           (glow : R) : Particle.t :=
  Particle.mk (Particle.x p) (Particle.y p) (Particle.vx p) (Particle.vy p)
    (Particle.type_data p) (Particle.mass p) size target_size color
    (Particle.trail p) (Particle.max_trail p) (Particle.energy p)
    (Particle.max_energy p) (Particle.age p) (Particle.max_age p) glow
    (Particle.merge_cooldown p) (Particle.charged p) (Particle.charge p)
    (Particle.base_size p).

(** The size-and-trail invariant of a particle: the sizes are non-negative,
    the trail capacity is the constructor's 6 and the trail is within it. *)
Definition particle_inv (p : Particle.t) : Prop :=
  0 <= Particle.size p /\
  0 <= Particle.target_size p /\
  0 <= Particle.base_size p /\
  Particle.max_trail p = 6%Z /\
  (List.length (Particle.trail p) <= 6)%nat.

(** The values of [random.uniform(a, b)] and [random.randint(a, b)] when
    they are the [n]-th draw of the world [w]. *)
Definition uniform_at {P : Type} (w : World P) (n : nat) (a b : R) : R :=
  a + (b - a) * rnd_unit w n.

Definition randint_at {P : Type} (w : World P) (n : nat) (a b : Z) : Z :=
  (a + rnd_below w n (b - a + 1))%Z.

(** The world [w] after [n] more draws. *)
Definition after_draws {P : Type} (n : nat) (w : World P) : World P :=
  mkWorld (rnd_unit w) (rnd_below w) (n + draws w)
          (particle_size_multiplier w) (particles w).

(** A concrete world: a generator whose every draw is the least value it
    may return, size multiplier 1, no particle yet. *)
Definition world0 : World Particle.t :=
  mkWorld (fun _ => 0) (fun _ _ => 0%Z) 0 1 [].

(** A concrete particle: a HEAVY one at (10, 20), just constructed. *)
Definition particle0 : Particle.t :=
  Particle.mk 10 20 1 0 (mkTypeData 2 (255, 150, 50)%Z (99 / 100)) 2 3 3
    (255, 150, 50)%Z [] 6 100 100 0 400 0 0 false 1 3.

(** The entry of [PARTICLE_TYPES] for "LIGHT". *)
Definition LIGHT : TypeData := mkTypeData (5 / 10) (150, 255, 100)%Z (96 / 100).

(** Squared speed, [vx*vx + vy*vy]. *)
Definition speed_sq (p : Particle.t) : R :=
  Particle.vx p * Particle.vx p + Particle.vy p * Particle.vy p.


(** * The rest of the module *)

(** ** Colour conversion (lines 310-322) *)

(** [hsv_to_rgb(h, s, v)]; [i %= 6] is Python's modulo on an int, whose
    result has the sign of the divisor, as [Z.modulo]. *)
Definition hsv_to_rgb (h s v : R) : R * R * R :=
  let i := py_int (h * 6) in
  let f := h * 6 - IZR i in
  let p := v * (1 - s) in
  let q := v * (1 - f * s) in
  let t := v * (1 - (1 - f) * s) in
  let i := (i mod 6)%Z in
  if (i =? 0)%Z then (v, t, p)
  else if (i =? 1)%Z then (q, v, p)
  else if (i =? 2)%Z then (p, v, t)
  else if (i =? 3)%Z then (p, q, v)
  else if (i =? 4)%Z then (t, p, v)
  else (v, p, q).

(** ** The main loop (lines 368-504) *)

(** Limits (lines 40-42). *)
Definition MAX_PARTICLES : nat := 400.
Definition MAX_GEOMETRY : nat := 8.
Definition MAX_FORCE_FIELDS : nat := 60.

(** *** SacredGeometry (lines 229-280): its state and lifetime *)

Module SacredGeometry.

Record t : Type := mk {
  x : R;
  y : R;
  age : R;
  max_age : R;
  shape : string;
  color_hue : R;
  pulse : R
}.

(** [__init__(self, x, y)] (lines 230-237): three draws. *)
Definition init {P : Type} (x0 y0 : R) : M P t :=
  (shape0 <- random_choice ["flower"; "spiral"; "mandala"]%string ""%string ;;
   hue <- random_random ;;
   pulse0 <- random_uniform 0 PI ;;
   ret {| x := x0; y := y0; age := 0; max_age := 7000; shape := shape0;
          color_hue := hue; pulse := pulse0 |})%py.

(** [draw(self, surf)] (lines 239-280), as far as the state goes: the age
    advances by 16.6 and the call returns [False] once the age exceeds
    [max_age]; every later [return] of the body is [True], and what lies
    between is drawing, which writes nothing of the object. *)
Definition draw (self : t) : t * bool :=
  let self' := {| x := x self; y := y self; age := age self + 166 / 10;
                  max_age := max_age self; shape := shape self;
                  color_hue := color_hue self; pulse := pulse self |} in
  if Rgtb (age self') (max_age self') then (self', false) else (self', true).

End SacredGeometry.

(** Line 483: [sacred_geometry = [g for g in sacred_geometry if g.draw(screen)]]. *)
Fixpoint prune_geometry (gs : list SacredGeometry.t) : list SacredGeometry.t :=
  match gs with
  | [] => []
  | g :: rest =>
      let (g', alive) := SacredGeometry.draw g in
      if alive then g' :: prune_geometry rest else prune_geometry rest
  end.

Fixpoint geometry_after (k : nat) (gs : list SacredGeometry.t)
  : list SacredGeometry.t :=
  match k with
  | O => gs
  | S k' => prune_geometry (geometry_after k' gs)
  end.

(** *** Input *)

(** The keys the loop looks at, and the events it handles. *)
Inductive key : Type :=
| K_ESCAPE | K_q | K_c | K_r | K_SPACE | K_TAB | K_1 | K_2 | K_3 | K_4
| K_LEFTBRACKET | K_RIGHTBRACKET | K_OTHER.

Inductive event : Type :=
| QUIT
| KEYDOWN (k : key)
| MOUSEBUTTONDOWN (button : Z) (mx my : R)
| MOUSEBUTTONUP (button : Z)
| MOUSEMOTION (mx my : R)
| OTHER_EVENT.

(** What one turn of the loop reads from outside: the clock, the held keys
    ([pygame.key.get_pressed()]) and the queued events. *)
Record Input : Type := mkInput {
  current_time : Z;
  up_held : bool;
  down_held : bool;
  ctrl_held : bool;
  events : list event
}.

(** *** State *)

(** The module-level variables of the loop.  [world] holds [particles],
    [particle_size_multiplier] and the generator; [mouse_left],
    [mouse_right], [mouse_middle] are the three entries of [mouse_pressed];
    [timer_up], [timer_down] are the entries of [key_timers] for the two
    arrow keys, [None] when the key is not in the dict.  [particle_count],
    which only the display reads, is left out. *)
Record Game : Type := mkGame {
  world : World Particle.t;
  force_fields : list ForceField.t;
  sacred_geometry : list SacredGeometry.t;
  global_force_strength : R;
  turbulence_active : bool;
  current_particle_type : string;
  mouse_left : bool;
  mouse_right : bool;
  mouse_middle : bool;
  mouse_pos : R * R;
  timer_up : option Z;
  timer_down : option Z;
  last_time : Z;
  running : bool
}.

(** What ends a step of the loop early: an exception of the core, or the
    [NameError] of a name the module never defines. *)
Inductive loop_exn : Type :=
| Core (e : exn)
| NameError (name : string).

Inductive Step (A : Type) : Type :=
| Done (a : A)
| Crash (e : loop_exn).
Arguments Done {A} a.
Arguments Crash {A} e.

(** A computation over the loop's state; as in [M], the state reached is
    kept when it raises. *)
Definition G (A : Type) : Type := Game -> Step A * Game.

Definition gret {A : Type} (a : A) : G A := fun g => (Done a, g).

Definition gbind {A B : Type} (c : G A) (k : A -> G B) : G B :=
  fun g =>
    match c g with
    | (Done a, g') => k a g'
    | (Crash e, g') => (Crash e, g')
    end.

Declare Scope loop_scope.
Delimit Scope loop_scope with loop.
Notation "x <~ c ;; k" := (gbind c (fun x => k))
  (at level 100, c at next level, right associativity) : loop_scope.
Notation "c ;;> k" := (gbind c (fun _ => k))
  (at level 100, right associativity) : loop_scope.

Definition set_world (g : Game) (w : World Particle.t) : Game :=
  mkGame w (force_fields g) (sacred_geometry g) (global_force_strength g)
    (turbulence_active g) (current_particle_type g) (mouse_left g)
    (mouse_right g) (mouse_middle g) (mouse_pos g) (timer_up g) (timer_down g)
    (last_time g) (running g).

Definition set_force_fields (g : Game) (fs : list ForceField.t) : Game :=
  mkGame (world g) fs (sacred_geometry g) (global_force_strength g)
    (turbulence_active g) (current_particle_type g) (mouse_left g)
    (mouse_right g) (mouse_middle g) (mouse_pos g) (timer_up g) (timer_down g)
    (last_time g) (running g).

Definition set_sacred_geometry (g : Game) (gs : list SacredGeometry.t) : Game :=
  mkGame (world g) (force_fields g) gs (global_force_strength g)
    (turbulence_active g) (current_particle_type g) (mouse_left g)
    (mouse_right g) (mouse_middle g) (mouse_pos g) (timer_up g) (timer_down g)
    (last_time g) (running g).

Definition set_global_force_strength (g : Game) (v : R) : Game :=
  mkGame (world g) (force_fields g) (sacred_geometry g) v
    (turbulence_active g) (current_particle_type g) (mouse_left g)
    (mouse_right g) (mouse_middle g) (mouse_pos g) (timer_up g) (timer_down g)
    (last_time g) (running g).

Definition set_turbulence_active (g : Game) (b : bool) : Game :=
  mkGame (world g) (force_fields g) (sacred_geometry g) (global_force_strength g)
    b (current_particle_type g) (mouse_left g)
    (mouse_right g) (mouse_middle g) (mouse_pos g) (timer_up g) (timer_down g)
    (last_time g) (running g).

Definition set_current_particle_type (g : Game) (s : string) : Game :=
  mkGame (world g) (force_fields g) (sacred_geometry g) (global_force_strength g)
    (turbulence_active g) s (mouse_left g)
    (mouse_right g) (mouse_middle g) (mouse_pos g) (timer_up g) (timer_down g)
    (last_time g) (running g).

Definition set_mouse_pressed (g : Game) (l r m : bool) : Game :=
  mkGame (world g) (force_fields g) (sacred_geometry g) (global_force_strength g)
    (turbulence_active g) (current_particle_type g) l r m
    (mouse_pos g) (timer_up g) (timer_down g) (last_time g) (running g).

Definition set_mouse_pos (g : Game) (pos : R * R) : Game :=
  mkGame (world g) (force_fields g) (sacred_geometry g) (global_force_strength g)
    (turbulence_active g) (current_particle_type g) (mouse_left g)
    (mouse_right g) (mouse_middle g) pos (timer_up g) (timer_down g)
    (last_time g) (running g).

Definition set_timers (g : Game) (up down : option Z) : Game :=
  mkGame (world g) (force_fields g) (sacred_geometry g) (global_force_strength g)
    (turbulence_active g) (current_particle_type g) (mouse_left g)
    (mouse_right g) (mouse_middle g) (mouse_pos g) up down (last_time g)
    (running g).

Definition set_running (g : Game) (b : bool) : Game :=
  mkGame (world g) (force_fields g) (sacred_geometry g) (global_force_strength g)
    (turbulence_active g) (current_particle_type g) (mouse_left g)
    (mouse_right g) (mouse_middle g) (mouse_pos g) (timer_up g) (timer_down g)
    (last_time g) b.

Definition set_particle_size_multiplier (w : World Particle.t) (m : R)
  : World Particle.t :=
  mkWorld (rnd_unit w) (rnd_below w) (draws w) m (particles w).

Definition modify (f : Game -> Game) : G unit := fun g => (Done tt, f g).

(** A computation of the core, run on the loop's [world]. *)
Definition core {A : Type} (c : M Particle.t A) : G A :=
  fun g =>
    match c (world g) with
    | (Ok a, w') => (Done a, set_world g w')
    | (Raise e, w') => (Crash (Core e), set_world g w')
    end.

(** A call of a name that no statement of the module binds. *)
Definition call_undefined {A : Type} (name : string) : G A :=
  fun g => (Crash (NameError name), g).

Definition set_last_time (g : Game) (t : Z) : Game :=
  mkGame (world g) (force_fields g) (sacred_geometry g) (global_force_strength g)
    (turbulence_active g) (current_particle_type g) (mouse_left g)
    (mouse_right g) (mouse_middle g) (mouse_pos g) (timer_up g) (timer_down g)
    t (running g).

(** The names the module binds at top level, by import, assignment, [for],
    [def] or [class]. *)
Definition module_names : list string :=
  [ "pygame"; "random"; "math"; "WIDTH"; "HEIGHT"; "screen"; "clock";
    "BACKGROUND"; "GRID_COLOR"; "TEXT_COLOR"; "ACCENT_COLOR"; "GRAVITY_COLOR";
    "REPULSION_COLOR"; "MAGNETIC_COLOR"; "TURBULENCE_COLOR"; "font_medium";
    "font_small"; "global_force_strength"; "particle_size_multiplier";
    "turbulence_active"; "turbulence_strength"; "turbulence_scale";
    "MAX_PARTICLES"; "MAX_GEOMETRY"; "MAX_FORCE_FIELDS"; "PARTICLE_TYPES";
    "current_particle_type"; "ForceField"; "Particle"; "SacredGeometry";
    "hsv_to_rgb"; "create_explosion_at"; "draw_hud"; "draw_grid"; "particles";
    "force_fields"; "sacred_geometry"; "particle_count"; "key_timers";
    "mouse_pressed"; "mouse_pos"; "running"; "last_time"; "current_time"; "dt";
    "keys"; "ctrl_held"; "key"; "delta"; "event"; "mx"; "my"; "closest";
    "best_dist"; "p"; "d"; "f"; "_" ]%string.

(** A call [name(...)] of a name that is looked up at run time: the lookup
    fails with [NameError] for a name outside [module_names] (neither of the
    two names called this way is a builtin).  No definition exists to run
    for such a name, so the computation has no other case to describe. *)
Definition call_by_name (name : string) : G unit :=
  fun g =>
    if existsb (String.eqb name) module_names
    then (Done tt, g)
    else (Crash (NameError name), g).

(** *** Key repeat (lines 396-405) *)

(** One turn of the loop over [(K_UP, 0.1)] and [(K_DOWN, -0.1)] for one
    key: [held] is [keys[key]], [timer] the key's entry of [key_timers]. *)
Definition handle_arrow (held : bool) (timer : option Z) (now : Z)
  : Step unit * option Z :=
  if held then
    match timer with
    | None =>
        (* key_timers[key] = current_time + 200; adjust_force_strength(delta) *)
        (if existsb (String.eqb "adjust_force_strength") module_names
         then Done tt else Crash (NameError "adjust_force_strength"),
         Some (now + 200)%Z)
    | Some t =>
        if (now >=? t)%Z then
          (* adjust_force_strength(delta); key_timers[key] = current_time + 50 *)
          if existsb (String.eqb "adjust_force_strength") module_names
          then (Done tt, Some (now + 50)%Z)
          else (Crash (NameError "adjust_force_strength"), Some t)
        else (Done tt, Some t)
    end
  else (Done tt, None).

Definition handle_arrows (inp : Input) : G unit :=
  fun g =>
    match handle_arrow (up_held inp) (timer_up g) (current_time inp) with
    | (Crash e, up') => (Crash e, set_timers g up' (timer_down g))
    | (Done _, up') =>
        match handle_arrow (down_held inp) (timer_down g) (current_time inp) with
        | (Crash e, down') => (Crash e, set_timers g up' down')
        | (Done _, down') => (Done tt, set_timers g up' down')
        end
    end.

(** *** The click on a particle (lines 436-445) *)

(** Lines 436-442: the search for the particle to explode.  [i] counts the
    particles passed, so that the result names the object found by its
    place in the list; [d ** 0.5] is the square root of a sum of squares. *)
Fixpoint find_closest_from (ps : list Particle.t) (mx my : R) (i : nat)
         (closest : option (nat * Particle.t)) (best_dist : R)
  : option (nat * Particle.t) :=
  match ps with
  | [] => closest
  | p :: rest =>
      let d := (Particle.x p - mx) * (Particle.x p - mx)
               + (Particle.y p - my) * (Particle.y p - my) in
      if Rltb d (best_dist * best_dist)
         && Rltb d ((Particle.size p + 10) * (Particle.size p + 10))
      then find_closest_from rest mx my (S i) (Some (i, p)) (sqrt d)
      else find_closest_from rest mx my (S i) closest best_dist
  end.

Definition find_closest (ps : list Particle.t) (mx my : R)
  : option (nat * Particle.t) :=
  find_closest_from ps mx my 0 None 60.

(** [particles.remove(closest)], for the object at place [i]. *)
Fixpoint remove_at {A : Type} (i : nat) (l : list A) : list A :=
  match l, i with
  | [], _ => []
  | _ :: rest, O => rest
  | a :: rest, S i' => a :: remove_at i' rest
  end.

Definition explode_closest (mx my : R) : G unit :=
  (fun g =>
     match find_closest (particles (world g)) mx my with
     | Some (i, closest) =>
         (core (create_explosion_at (Particle.x closest) (Particle.y closest)
                  (Particle.color closest) 15) ;;>
          modify (fun g => set_world g
                    (set_particles (world g)
                       (remove_at i (particles (world g))))))%loop g
     | None => (Done tt, g)
     end).

(** *** Fields and patterns added by the mouse *)

(** [if len(force_fields) < MAX_FORCE_FIELDS: force_fields.append(ForceField(...))] *)
Definition add_field (x y strength radius : R) (field_type : string)
           (duration : Z) : G unit :=
  modify (fun g =>
    if (List.length (force_fields g) <? MAX_FORCE_FIELDS)%nat
    then set_force_fields g
           (force_fields g
            ++ [ForceField.init x y strength radius field_type duration])
    else g).

(** [if len(sacred_geometry) < MAX_GEOMETRY: sacred_geometry.append(SacredGeometry(mx, my))] *)
Definition add_geometry (mx my : R) : G unit :=
  fun g =>
    if (List.length (sacred_geometry g) <? MAX_GEOMETRY)%nat
    then (sg <~ core (SacredGeometry.init mx my) ;;
          modify (fun g => set_sacred_geometry g (sacred_geometry g ++ [sg])))%loop g
    else (Done tt, g).

(** *** One event (lines 408-465) *)

Definition handle_keydown (k : key) : G unit :=
  match k with
  | K_ESCAPE | K_q => modify (fun g => set_running g false)
  | K_c =>
      modify (fun g =>
        set_force_fields
          (set_sacred_geometry
             (set_world g (set_particles (world g) [])) []) [])
  | K_r =>
      modify (fun g =>
        set_turbulence_active
          (set_world (set_global_force_strength g 1)
             (set_particle_size_multiplier (world g) 1)) false)
  | K_SPACE => call_by_name "spawn_particle_burst"
  | K_TAB => modify (fun g => set_turbulence_active g (negb (turbulence_active g)))
  | K_1 => modify (fun g => set_current_particle_type g "NORMAL")
  | K_2 => modify (fun g => set_current_particle_type g "HEAVY")
  | K_3 => modify (fun g => set_current_particle_type g "LIGHT")
  | K_4 => modify (fun g => set_current_particle_type g "ENERGY")
  | K_LEFTBRACKET =>
      modify (fun g =>
        set_world g
          (set_particle_size_multiplier (world g)
             (Rmax (2 / 10) (particle_size_multiplier (world g) - 1 / 10))))
  | K_RIGHTBRACKET =>
      modify (fun g =>
        set_world g
          (set_particle_size_multiplier (world g)
             (Rmin 3 (particle_size_multiplier (world g) + 1 / 10))))
  | K_OTHER => gret tt
  end.

Definition handle_event (ctrl : bool) (e : event) : G unit :=
  match e with
  | QUIT => modify (fun g => set_running g false)
  | KEYDOWN k => handle_keydown k
  | MOUSEBUTTONDOWN button mx my =>
      (modify (fun g => set_mouse_pos g (mx, my)) ;;>
       if (button =? 1)%Z && ctrl then explode_closest mx my
       else if (button =? 1)%Z then
         (modify (fun g => set_mouse_pressed g true (mouse_right g) (mouse_middle g)) ;;>
          fun g => add_field mx my (2 * global_force_strength g) 120 "gravity" 120 g)
       else if (button =? 3)%Z then
         (modify (fun g => set_mouse_pressed g (mouse_left g) true (mouse_middle g)) ;;>
          fun g => add_field mx my (3 * global_force_strength g) 100 "repulsion" 120 g)
       else if (button =? 2)%Z then
         (modify (fun g => set_mouse_pressed g (mouse_left g) (mouse_right g) true) ;;>
          (fun g => add_field mx my (4 * global_force_strength g) 90 "magnetic" 120 g) ;;>
          add_geometry mx my)
       else gret tt)%loop
  | MOUSEBUTTONUP button =>
      modify (fun g =>
        if (button =? 1)%Z then set_mouse_pressed g false (mouse_right g) (mouse_middle g)
        else if (button =? 3)%Z then set_mouse_pressed g (mouse_left g) false (mouse_middle g)
        else set_mouse_pressed g (mouse_left g) (mouse_right g) false)
  | MOUSEMOTION mx my => modify (fun g => set_mouse_pos g (mx, my))
  | OTHER_EVENT => gret tt
  end.

(** [for event in pygame.event.get(): ...] *)
Fixpoint handle_events (ctrl : bool) (es : list event) : G unit :=
  match es with
  | [] => gret tt
  | e :: rest => (handle_event ctrl e ;;> handle_events ctrl rest)%loop
  end.

(** *** The rest of the turn (lines 467-494) *)

(** Lines 468-473. *)
Definition continuous_fields : G unit :=
  ((fun g => if mouse_left g
             then add_field (fst (mouse_pos g)) (snd (mouse_pos g))
                    (12 / 10 * global_force_strength g) 80 "gravity" 10 g
             else (Done tt, g)) ;;>
   (fun g => if mouse_right g
             then add_field (fst (mouse_pos g)) (snd (mouse_pos g))
                    (18 / 10 * global_force_strength g) 70 "repulsion" 10 g
             else (Done tt, g)) ;;>
   (fun g => if mouse_middle g
             then add_field (fst (mouse_pos g)) (snd (mouse_pos g))
                    (22 / 10 * global_force_strength g) 80 "magnetic" 10 g
             else (Done tt, g)))%loop.

(** Lines 476-477; [random.random()] is drawn only below the cap. *)
Definition spawn : G unit :=
  fun g =>
    if (List.length (particles (world g)) <? MAX_PARTICLES)%nat then
      (r <~ core random_random ;;
       if Rltb r (2 / 10) then
         (px <~ core (random_randint 50 (1000 - 50)) ;;
          py <~ core (random_randint 50 (700 - 50)) ;;
          kind <~ (fun g => (Done (current_particle_type g), g)) ;;
          p <~ core (Particle.init (IZR px) (IZR py) kind) ;;
          modify (fun g => set_world g
                    (set_particles (world g) (particles (world g) ++ [p]))))
       else gret tt)%loop g
    else (Done tt, g).

(** The list [particles] as line 494 leaves it when a call of [update]
    raises: the comprehension has mutated in place the particles it has
    reached, the one that raised included, and the assignment has not
    happened, so that no particle has left the list. *)
Fixpoint mutated_particles_from (turbulence_active : bool)
         (force_fields : list ForceField.t) (all : list Particle.t) (dt : R)
         (ps : list Particle.t) : list Particle.t :=
  match ps with
  | [] => []
  | p :: rest =>
      match Particle.update turbulence_active p force_fields all dt with
      | (p', Ok _) =>
          p' :: mutated_particles_from turbulence_active force_fields all dt rest
      | (p', Raise _) => p' :: rest
      end
  end.

(** Lines 483, 489 and 494; the drawing between them writes no state. *)
Definition advance (dt : R) : G unit :=
  (modify (fun g => set_sacred_geometry g (prune_geometry (sacred_geometry g))) ;;>
   modify (fun g => set_force_fields g (prune_fields (force_fields g))) ;;>
   fun g =>
     match prune_particles (turbulence_active g) (force_fields g) dt
             (particles (world g)) with
     | Ok kept => (Done tt, set_world g (set_particles (world g) kept))
     | Raise e =>
         (Crash (Core e),
          set_world g
            (set_particles (world g)
               (mutated_particles_from (turbulence_active g) (force_fields g)
                  (particles (world g)) dt (particles (world g)))))
     end)%loop.

(** One turn of [while running:] (lines 386-504). *)
Definition frame (inp : Input) : G unit :=
  (dt <~ (fun g => (Done (IZR (current_time inp - last_time g) / 1000),
                    set_last_time g (current_time inp))) ;;
   handle_arrows inp ;;>
   handle_events (ctrl_held inp) (events inp) ;;>
   continuous_fields ;;>
   spawn ;;>
   advance dt)%loop.


(** ** The initial population (lines 375-376) *)

(** One turn of [for _ in range(120): particles.append(Particle(
    random.randint(0, WIDTH), random.randint(0, HEIGHT)))]. *)
Definition seed_body : M Particle.t unit :=
  (px <- random_randint 0 1000 ;;
   py <- random_randint 0 700 ;;
   p <- Particle.init (IZR px) (IZR py) "NORMAL" ;;
   fun w => (Ok tt, set_particles w (particles w ++ [p])))%py.

Definition seed_particles : M Particle.t unit := for_range 120 seed_body.

(** What holds of a particle of the initial population. *)
Definition seeded (p : Particle.t) : Prop :=
  particle_inv p /\
  0 <= Particle.x p <= WIDTH /\ 0 <= Particle.y p <= HEIGHT /\
  Particle.type_data p = mkTypeData 1 (100, 200, 255)%Z (98 / 100) /\
  Particle.energy p = 100%Z /\ Particle.max_energy p = 100%Z /\
  Particle.age p = 0%Z.

(** ** Notions used in the further properties *)

Definition size_growing (p : Particle.t) : Prop :=
  0 <= Particle.size p /\
  Particle.size p <= Particle.target_size p /\
  Particle.target_size p <= Particle.base_size p * 2.

(** The acceleration a field contributes, (0, 0) where it is skipped. *)
Definition accel_or_zero (p : Particle.t) (f : ForceField.t) : R * R :=
  match Particle.field_accel p f with
  | Some a => a
  | None => (0, 0)
  end.

Definition sum_accel (p : Particle.t) (fs : list ForceField.t) : R * R :=
  fold_right (fun f s => (fst (accel_or_zero p f) + fst s,
                          snd (accel_or_zero p f) + snd s)) (0, 0) fs.

Definition geometry_aged (g : SacredGeometry.t) (a : R) : SacredGeometry.t :=
  SacredGeometry.mk (SacredGeometry.x g) (SacredGeometry.y g) a
    (SacredGeometry.max_age g) (SacredGeometry.shape g)
    (SacredGeometry.color_hue g) (SacredGeometry.pulse g).

(** Squared distance of a particle from the click, and whether the click
    is within the particle's size plus 10. *)
Definition click_dist_sq (mx my : R) (p : Particle.t) : R :=
  (Particle.x p - mx) * (Particle.x p - mx)
  + (Particle.y p - my) * (Particle.y p - my).

Definition clickable (mx my : R) (p : Particle.t) : Prop :=
  click_dist_sq mx my p < (Particle.size p + 10) * (Particle.size p + 10).

(** The caps on the three collections, the range of the size multiplier,
    the selected kind being a key of [PARTICLE_TYPES], and no particle with
    a zero [max_energy]. *)
Definition game_inv (g : Game) : Prop :=
  (List.length (force_fields g) <= MAX_FORCE_FIELDS)%nat /\
  (List.length (particles (world g)) <= MAX_PARTICLES)%nat /\
  (List.length (sacred_geometry g) <= MAX_GEOMETRY)%nat /\
  2 / 10 <= particle_size_multiplier (world g) <= 3 /\
  In (current_particle_type g) ["NORMAL"; "HEAVY"; "LIGHT"; "ENERGY"]%string /\
  Forall (fun p => Particle.max_energy p <> 0%Z) (particles (world g)).

Definition keeps {A : Type} (c : G A) : Prop :=
  forall g, game_inv g -> game_inv (snd (c g)).

(** A computation of the core that only draws from the generator. *)
Definition only_draws {A : Type} (c : M Particle.t A) : Prop :=
  forall w, exists n, snd (c w) = after_draws n w.

Definition game0 : Game :=
  mkGame (set_particles world0 [particle0]) [] [] 1 false "NORMAL"
    false false false (0, 0) None None 0 true.

(** ** Float arithmetic: exact, rounded and binary64 *)

(** The operations on Python's [float] that the code modelled below uses:
    the conversion of an [int] operand, the four operations, unary minus,
    [math.sqrt], [a < b] and [int(a)]. *)
Record Arith (F : Type) : Type := mkArith {
  of_int : Z -> F;
  fadd : F -> F -> F;
  fsub : F -> F -> F;
  fmul : F -> F -> F;
  fdiv : F -> F -> F;
  fneg : F -> F;
  fsqrt : F -> F;
  flt : F -> F -> bool;
  fint : F -> Z
}.

Arguments of_int {F}.
Arguments fadd {F}.
Arguments fsub {F}.
Arguments fmul {F}.
Arguments fdiv {F}.
Arguments fneg {F}.
Arguments fsqrt {F}.
Arguments flt {F}.
Arguments fint {F}.

(** Exact arithmetic: the reading of the embedding above. *)
Definition exact : Arith R :=
  mkArith R IZR Rplus Rminus Rmult Rdiv Ropp sqrt Rltb py_int.

(** Rounded arithmetic: every operation that binary64 rounds is the exact
    one followed by [rnd]; negation and comparison are exact, and so is the
    conversion of an [int] below 2^53, as are all that the lines below
    convert (the constants 0, 1, 2, 6, 10, 15, 60, 225, 700 and 1000). *)
Definition rounded (rnd : R -> R) : Arith R :=
  mkArith R IZR
    (fun a b => rnd (a + b)) (fun a b => rnd (a - b))
    (fun a b => rnd (a * b)) (fun a b => rnd (a / b))
    Ropp (fun a => rnd (sqrt a)) Rltb py_int.

(** [float(n)] for an [int] below 2^63 in absolute value. *)
Definition float_of_int (n : Z) : float :=
  if (n <? 0)%Z then PrimFloat.opp (PrimFloat.of_uint63 (Uint63.of_Z (- n)))
  else PrimFloat.of_uint63 (Uint63.of_Z n).

(** [int(a)] for a finite [a]: truncation toward zero.  On an infinity or
    a NaN Python raises; 0 stands in for them here, and no property below
    meets one. *)
Definition float_int (a : float) : Z :=
  match Prim2SF a with
  | S754_finite s m e =>
      let n := if (0 <=? e)%Z then (Zpos m * 2 ^ e)%Z
               else (Zpos m / 2 ^ (- e))%Z in
      if s then (- n)%Z else n
  | _ => 0%Z
  end.

(** The real number a finite binary64 value stands for (0 for an infinity
    or a NaN, which no property below meets). *)
Definition float_value (a : float) : R :=
  match Prim2SF a with
  | S754_finite s m e =>
      let n := if s then IZR (Zneg m) else IZR (Zpos m) in
      if (0 <=? e)%Z then n * IZR (2 ^ e) else n / IZR (2 ^ (- e))
  | _ => 0
  end.

(** Binary64, as CPython computes: the operations of IEEE 754, each
    correctly rounded to nearest, ties to even. *)
Definition binary64 : Arith float :=
  mkArith float float_of_int PrimFloat.add PrimFloat.sub PrimFloat.mul
    PrimFloat.div PrimFloat.opp PrimFloat.sqrt PrimFloat.ltb float_int.

Module Generic.
Section Generic.

Context {F : Type} (A : Arith F).

(** Python's [min(a, b)] and [max(a, b)]: the first argument, unless the
    second is smaller (larger). *)
Definition py_min (a b : F) : F := if flt A b a then b else a.
Definition py_max (a b : F) : F := if flt A a b then b else a.

(** Lines 161-170 of [Particle.update]: drag and the speed limit, on the
    velocity the field loop leaves. *)
Definition drag_and_limit (drag vx vy : F) : F * F :=
  let vx := fmul A vx drag in
  let vy := fmul A vy drag in
  let speed_sq := fadd A (fmul A vx vx) (fmul A vy vy) in
  if flt A (of_int A 225) speed_sq then
    let scale := fdiv A (of_int A 15) (fsqrt A speed_sq) in
    (fmul A vx scale, fmul A vy scale)
  else (vx, vy).

(** Lines 173-182: the move and the bounds; [-0.6] is the literal 0.6,
    the quotient of 6 and 10 correctly rounded, negated. *)
Definition move_and_bounce (x y vx vy : F) : F * F * F * F :=
  let x := fadd A x (fmul A vx (of_int A 2)) in
  let y := fadd A y (fmul A vy (of_int A 2)) in
  let k := fneg A (fdiv A (of_int A 6) (of_int A 10)) in
  let '(x, vx) :=
    if flt A x (of_int A 0) || flt A (of_int A 1000) x
    then (py_max (of_int A 0) (py_min (of_int A 1000) x), fmul A vx k)
    else (x, vx) in
  let '(y, vy) :=
    if flt A y (of_int A 0) || flt A (of_int A 700) y
    then (py_max (of_int A 0) (py_min (of_int A 700) y), fmul A vy k)
    else (y, vy) in
  (x, y, vx, vy).

(** Lines 161-182. *)
Definition kinematics_tail (drag x y vx vy : F) : F * F * F * F :=
  let '(vx, vy) := drag_and_limit drag vx vy in
  move_and_bounce x y vx vy.

(** [hsv_to_rgb(h, s, v)] (lines 310-322). *)
Definition hsv_to_rgb (h s v : F) : F * F * F :=
  let i := fint A (fmul A h (of_int A 6)) in
  let f := fsub A (fmul A h (of_int A 6)) (of_int A i) in
  let p := fmul A v (fsub A (of_int A 1) s) in
  let q := fmul A v (fsub A (of_int A 1) (fmul A f s)) in
  let t := fmul A v (fsub A (of_int A 1)
                       (fmul A (fsub A (of_int A 1) f) s)) in
  let i := (i mod 6)%Z in
  if (i =? 0)%Z then (v, t, p)
  else if (i =? 1)%Z then (q, v, p)
  else if (i =? 2)%Z then (p, v, t)
  else if (i =? 3)%Z then (p, q, v)
  else if (i =? 4)%Z then (t, p, v)
  else (v, p, q).

(** The squared distance of line 439 and the two tests of line 440, for a
    particle given by its [x], [y] and [size]; [a ** 2] is read as the
    product [a * a]. *)
Definition click_d (mx my : F) (p : F * F * F) : F :=
  let '(px, py, _) := p in
  fadd A (fmul A (fsub A px mx) (fsub A px mx))
         (fmul A (fsub A py my) (fsub A py my)).

Definition clickable (mx my : F) (p : F * F * F) : bool :=
  let '(_, _, size) := p in
  flt A (click_d mx my p)
    (fmul A (fadd A size (of_int A 10)) (fadd A size (of_int A 10))).

Definition click_hit (mx my best_dist : F) (p : F * F * F) : bool :=
  flt A (click_d mx my p) (fmul A best_dist best_dist)
  && clickable mx my p.

(** Lines 436-442: the place in the list of the particle found;
    [d ** 0.5] is read as the square root. *)
Fixpoint find_closest_from (ps : list (F * F * F)) (mx my : F) (i : nat)
         (closest : option nat) (best_dist : F) : option nat :=
  match ps with
  | [] => closest
  | p :: rest =>
      if click_hit mx my best_dist p
      then find_closest_from rest mx my (S i) (Some i)
             (fsqrt A (click_d mx my p))
      else find_closest_from rest mx my (S i) closest best_dist
  end.

Definition find_closest (ps : list (F * F * F)) (mx my : F) : option nat :=
  find_closest_from ps mx my 0 None (of_int A 60).

End Generic.
End Generic.


(** The unit roundoff of binary64, half its least positive value, and a
    power of two below its largest finite value. *)
Definition u64 : R := / 2 ^ 53.
Definition eta64 : R := / 2 ^ 1075.
Definition Omega64 : R := 2 ^ 1023.

(** The usual error model of a rounding: on arguments up to [Omega] the
    result is within the relative error [u] of its argument, or within the
    absolute error [eta] where it underflows.  Round-to-nearest of binary64
    meets it with [u64], [eta64] and [Omega64]. *)
Definition rounds_within (rnd : R -> R) (u eta Omega : R) : Prop :=
  forall x, Rabs x <= Omega -> Rabs (rnd x - x) <= u * Rabs x + eta.

(** A rounding that always errs upward by the whole of both errors. *)
Definition round_up64 (x : R) : R := x + (u64 * Rabs x + eta64).

(** The state of a particle that the click search reads. *)
Definition click_view (p : Particle.t) : R * R * R :=
  (Particle.x p, Particle.y p, Particle.size p).

(** * Properties *)

(** ** Comparisons *)

Lemma Rltb_true (a b : R) : Rltb a b = true <-> a < b.
Proof. unfold Rltb; destruct (Rlt_dec a b); split; intros; try easy. Qed.

Lemma Rltb_false (a b : R) : Rltb a b = false <-> b <= a.
Proof.
  unfold Rltb; destruct (Rlt_dec a b); split; intros; try easy; lra.
Qed.

Lemma Rleb_true (a b : R) : Rleb a b = true <-> a <= b.
Proof. unfold Rleb; destruct (Rle_dec a b); split; intros; try easy. Qed.

Lemma Rleb_false (a b : R) : Rleb a b = false <-> b < a.
Proof.
  unfold Rleb; destruct (Rle_dec a b); split; intros; try easy; lra.
Qed.

(** ** Properties of ForceField *)

Lemma prune_fields_filter (fs : list ForceField.t) :
  prune_fields fs =
  map fst (filter snd (map ForceField.update fs)).
Proof.
  induction fs as [|f fs IH]; simpl; [reflexivity|].
  destruct ((ForceField.age f + 1 <? ForceField.max_age f)%Z); simpl;
    now rewrite IH.
Qed.

Lemma fields_after_single (f : ForceField.t) (k : nat) :
  fields_after k [f] =
  if ((Z.of_nat k =? 0) || (ForceField.age f + Z.of_nat k <? ForceField.max_age f))%Z
  then [ForceField.set_age f (ForceField.age f + Z.of_nat k)%Z]
  else [].
Proof.
  induction k as [|k IH].
  - destruct f; simpl. unfold ForceField.set_age; simpl.
    now rewrite Z.add_0_r.
  - cbn [fields_after]. rewrite IH. clear IH.
    replace (Z.of_nat (S k) =? 0)%Z with false by (symmetry; apply Z.eqb_neq; lia).
    rewrite orb_false_l.
    destruct (Z.of_nat k =? 0)%Z eqn:Hk0; cbn [orb].
    + apply Z.eqb_eq in Hk0.
      cbn [prune_fields ForceField.update ForceField.set_age ForceField.age
           ForceField.max_age].
      replace (ForceField.age f + Z.of_nat k + 1)%Z
        with (ForceField.age f + Z.of_nat (S k))%Z by lia.
      destruct (ForceField.age f + Z.of_nat (S k) <? ForceField.max_age f)%Z;
        reflexivity.
    + destruct (ForceField.age f + Z.of_nat k <? ForceField.max_age f)%Z eqn:Hlt.
      * cbn [prune_fields ForceField.update ForceField.set_age ForceField.age
             ForceField.max_age].
        replace (ForceField.age f + Z.of_nat k + 1)%Z
          with (ForceField.age f + Z.of_nat (S k))%Z by lia.
        destruct (ForceField.age f + Z.of_nat (S k) <? ForceField.max_age f)%Z;
          reflexivity.
      * cbn [prune_fields].
        apply Z.ltb_ge in Hlt.
        replace (ForceField.age f + Z.of_nat (S k) <? ForceField.max_age f)%Z
          with false by (symmetry; apply Z.ltb_ge; lia).
        reflexivity.
Qed.

(** C5. A field created with max age [N] is in the live set, with age [k],
    after each of the steps [k = 0 .. N-1], and is absent after step [N]:
    [ForceField.update] adds exactly one to the age and changes nothing
    else, it returns true exactly when the new age is below the max age, and
    the prune keeps exactly the fields whose [update] returned true. *)
Theorem C5_field_lifetime :
  forall (x y strength radius : R) (field_type : string) (N : Z),
    (0 < N)%Z ->
    let f0 := ForceField.init x y strength radius field_type N in
    (forall f : ForceField.t,
        fst (ForceField.update f) = ForceField.set_age f (ForceField.age f + 1)%Z /\
        (snd (ForceField.update f) = true <->
         (ForceField.age (fst (ForceField.update f)) < ForceField.max_age f)%Z)) /\
    (forall fs : list ForceField.t,
        prune_fields fs = map fst (filter snd (map ForceField.update fs))) /\
    (forall k : nat, (Z.of_nat k < N)%Z ->
        fields_after k [f0] = [ForceField.set_age f0 (Z.of_nat k)]) /\
    fields_after (Z.to_nat N) [f0] = [].
Proof.
  intros x y strength radius field_type N HN f0.
  split; [|split; [|split]].
  - intros f. split; [reflexivity|]. cbn. apply Z.ltb_lt.
  - apply prune_fields_filter.
  - intros k Hk. rewrite fields_after_single.
    replace (ForceField.age f0) with 0%Z by reflexivity.
    replace (ForceField.max_age f0) with N by reflexivity.
    rewrite Z.add_0_l.
    replace (Z.of_nat k <? N)%Z with true by (symmetry; apply Z.ltb_lt; lia).
    now rewrite orb_true_r.
  - rewrite fields_after_single.
    replace (ForceField.age f0) with 0%Z by reflexivity.
    replace (ForceField.max_age f0) with N by reflexivity.
    rewrite Z2Nat.id by lia. rewrite Z.add_0_l.
    replace (N =? 0)%Z with false by (symmetry; apply Z.eqb_neq; lia).
    now rewrite Z.ltb_irrefl.
Qed.

Lemma C5_field_lifetime_witness :
  (0 < 10)%Z /\
  fields_after 9 [ForceField.init 0 0 2 120 "gravity" 10]
  = [ForceField.set_age (ForceField.init 0 0 2 120 "gravity" 10) 9] /\
  fields_after 10 [ForceField.init 0 0 2 120 "gravity" 10] = [].
Proof.
  assert (H : (0 < 10)%Z) by lia.
  destruct (C5_field_lifetime 0 0 2 120 "gravity" 10 H) as (_ & _ & Hlive & Hdead).
  split; [exact H|]. split.
  - apply (Hlive 9%nat). simpl. lia.
  - exact Hdead.
Defined.

(** ** The shape of [update] *)

Ltac case_ifs :=
  repeat match goal with
         | |- context [if ?c then _ else _] => destruct c
         end.

Lemma update_split (turb : bool) (p : Particle.t) (fs : list ForceField.t)
      (ps : list Particle.t) (dt : R) :
  Particle.update turb p fs ps dt =
  finish (kinematics turb fs (Particle.step_trail (Particle.step_age p))).
Proof. reflexivity. Qed.

Lemma moved_id (p : Particle.t) :
  moved p (Particle.x p) (Particle.y p) (Particle.vx p) (Particle.vy p) = p.
Proof. destruct p; reflexivity. Qed.

(** The stages of [kinematics] write only [x], [y], [vx] and [vy]. *)
Ltac solve_moved p :=
  destruct p;
  cbv beta delta [Particle.step_turbulence Particle.step_drag
                  Particle.step_speed_limit Particle.step_move
                  Particle.step_bounds];
  unfold moved; case_ifs; do 4 eexists; reflexivity.

Lemma step_turbulence_moved turb p :
  exists x' y' vx' vy', Particle.step_turbulence turb p = moved p x' y' vx' vy'.
Proof. solve_moved p. Qed.

Lemma apply_field_moved p f :
  exists x' y' vx' vy', Particle.apply_field p f = moved p x' y' vx' vy'.
Proof.
  unfold Particle.apply_field.
  destruct (Particle.field_accel p f) as [[ax ay]|].
  - destruct p; unfold moved; do 4 eexists; reflexivity.
  - destruct p; unfold moved; do 4 eexists; reflexivity.
Qed.

Lemma step_fields_moved fs p :
  exists x' y' vx' vy', Particle.step_fields p fs = moved p x' y' vx' vy'.
Proof.
  unfold Particle.step_fields. revert p.
  induction fs as [|f fs IH]; intros p; cbn [fold_left].
  - destruct p; unfold moved; do 4 eexists; reflexivity.
  - destruct (apply_field_moved p f) as (a & b & c & d & E). rewrite E.
    destruct (IH (moved p a b c d)) as (a' & b' & c' & d' & E'). rewrite E'.
    do 4 eexists; reflexivity.
Qed.

Lemma step_drag_moved p :
  exists x' y' vx' vy', Particle.step_drag p = moved p x' y' vx' vy'.
Proof. solve_moved p. Qed.

Lemma step_speed_limit_moved p :
  exists x' y' vx' vy', Particle.step_speed_limit p = moved p x' y' vx' vy'.
Proof. solve_moved p. Qed.

Lemma step_move_moved p :
  exists x' y' vx' vy', Particle.step_move p = moved p x' y' vx' vy'.
Proof. solve_moved p. Qed.

Lemma step_bounds_moved p :
  exists x' y' vx' vy', Particle.step_bounds p = moved p x' y' vx' vy'.
Proof. solve_moved p. Qed.

Lemma kinematics_moved turb fs p :
  exists x' y' vx' vy', kinematics turb fs p = moved p x' y' vx' vy'.
Proof.
  unfold kinematics.
  destruct (step_turbulence_moved turb p) as (a1 & b1 & c1 & d1 & E1). rewrite E1.
  destruct (step_fields_moved fs (moved p a1 b1 c1 d1)) as (a2 & b2 & c2 & d2 & E2).
  rewrite E2.
  destruct (step_drag_moved (moved (moved p a1 b1 c1 d1) a2 b2 c2 d2))
    as (a3 & b3 & c3 & d3 & E3). rewrite E3.
  match goal with |- context [Particle.step_speed_limit ?q] =>
    destruct (step_speed_limit_moved q) as (a4 & b4 & c4 & d4 & E4); rewrite E4 end.
  match goal with |- context [Particle.step_move ?q] =>
    destruct (step_move_moved q) as (a5 & b5 & c5 & d5 & E5); rewrite E5 end.
  match goal with |- context [Particle.step_bounds ?q] =>
    destruct (step_bounds_moved q) as (a6 & b6 & c6 & d6 & E6); rewrite E6 end.
  do 4 eexists; reflexivity.
Qed.

Lemma update_shape (turb : bool) (p : Particle.t) (fs : list ForceField.t)
      (ps : list Particle.t) (dt : R) :
  exists x' y' vx' vy',
    Particle.update turb p fs ps dt =
    finish (moved (Particle.step_trail (Particle.step_age p)) x' y' vx' vy').
Proof.
  rewrite update_split.
  destruct (kinematics_moved turb fs (Particle.step_trail (Particle.step_age p)))
    as (a & b & c & d & E).
  rewrite E. now exists a, b, c, d.
Qed.

(** What the first two stages leave alone. *)
Lemma step_age_frame (p : Particle.t) :
  exists age' cooldown',
    Particle.step_age p =
    Particle.set_merge_cooldown (Particle.set_age p age') cooldown' /\
    age' = (Particle.age p + 1)%Z.
Proof.
  exists (Particle.age p + 1)%Z,
         (if (Particle.merge_cooldown p >? 0)%Z
          then Particle.merge_cooldown p - 1 else Particle.merge_cooldown p)%Z.
  split; [|reflexivity].
  destruct p. unfold Particle.step_age.
  cbn -[Z.add Z.sub Z.gtb].
  case_ifs; reflexivity.
Qed.

Lemma step_trail_trail (p : Particle.t) (age' cooldown' : Z) :
  Particle.trail
    (Particle.step_trail
       (Particle.set_merge_cooldown (Particle.set_age p age') cooldown')) =
  Particle.trail (Particle.step_trail p).
Proof.
  destruct p. unfold Particle.step_trail.
  cbn -[Z.of_nat List.length Z.gtb].
  case_ifs; reflexivity.
Qed.

Lemma pre_frame (p : Particle.t) :
  let q := Particle.step_trail (Particle.step_age p) in
  Particle.energy q = Particle.energy p /\
  Particle.max_energy q = Particle.max_energy p /\
  Particle.age q = (Particle.age p + 1)%Z /\
  Particle.max_age q = Particle.max_age p /\
  Particle.size q = Particle.size p /\
  Particle.target_size q = Particle.target_size p /\
  Particle.base_size q = Particle.base_size p /\
  Particle.max_trail q = Particle.max_trail p /\
  Particle.trail q = Particle.trail (Particle.step_trail p).
Proof.
  destruct (step_age_frame p) as (age' & cd' & E & Hage).
  cbv zeta. rewrite E, step_trail_trail. subst age'.
  destruct p. unfold Particle.step_trail.
  cbn -[Z.add Z.of_nat List.length Z.gtb].
  case_ifs; cbn -[Z.add Z.of_nat List.length Z.gtb]; repeat split; reflexivity.
Qed.

(** The stages after [kinematics] write only [size], [target_size], [color]
    and [glow]. *)
Lemma step_size_dressed (q : Particle.t) :
  Particle.step_size q =
  dressed q (Particle.size q
             + (Particle.target_size q - Particle.size q) * (1 / 10))
    (Particle.target_size q) (Particle.color q) (Particle.glow q).
Proof. destruct q; reflexivity. Qed.

Lemma step_color_dressed (q : Particle.t) (r : R) :
  exists c, Particle.step_color q r =
            dressed q (Particle.size q) (Particle.target_size q) c
              (Particle.glow q).
Proof. destruct q; eexists; reflexivity. Qed.

Lemma step_glow_dressed (q : Particle.t) :
  exists g, Particle.step_glow q =
            dressed q (Particle.size q) (Particle.target_size q)
              (Particle.color q) g.
Proof. destruct q; eexists; reflexivity. Qed.

Lemma step_target_size_dressed (q : Particle.t) :
  exists t, Particle.step_target_size q =
            dressed q (Particle.size q) t (Particle.color q) (Particle.glow q) /\
            (0 <= Particle.size q -> 0 <= Particle.base_size q -> 0 <= t).
Proof.
  destruct q. unfold Particle.step_target_size.
  cbn -[Rmax Rmin Z.ltb Z.gtb].
  case_ifs; eexists; (split; [reflexivity|]); intros Hs Hb.
  - apply Rle_trans with 1; [lra | apply Rmax_l].
  - apply Rmin_glb; nra.
  - exact Hb.
Qed.

Lemma finish_dressed (q : Particle.t) :
  exists t c g,
    fst (finish q) =
    dressed q (Particle.size q
               + (Particle.target_size q - Particle.size q) * (1 / 10)) t c g /\
    (0 <= Particle.size q -> 0 <= Particle.target_size q ->
     0 <= Particle.base_size q -> 0 <= t).
Proof.
  unfold finish. rewrite step_size_dressed.
  set (s := Particle.size q + (Particle.target_size q - Particle.size q) * (1 / 10)).
  cbn [dressed Particle.max_energy Particle.energy].
  destruct (Particle.max_energy q =? 0)%Z.
  - exists (Particle.target_size q), (Particle.color q), (Particle.glow q).
    split; [reflexivity|]. intros; assumption.
  - cbv zeta.
    match goal with |- context [Particle.step_color ?a ?r] =>
      destruct (step_color_dressed a r) as (c & Ec); rewrite Ec end.
    match goal with |- context [Particle.step_glow ?a] =>
      destruct (step_glow_dressed a) as (g & Eg); rewrite Eg end.
    match goal with |- context [Particle.step_target_size ?a] =>
      destruct (step_target_size_dressed a) as (t & Et & Ht); rewrite Et end.
    exists t, c, g. split; [reflexivity|].
    intros Hs Ht' Hb. apply Ht; cbn; [|exact Hb].
    unfold s. lra.
Qed.

Lemma finish_result (q : Particle.t) :
  snd (finish q) =
  if (Particle.max_energy q =? 0)%Z then Raise ZeroDivisionError
  else Ok ((Particle.age q >? Particle.max_age q)%Z || (Particle.energy q <=? 0)%Z).
Proof.
  unfold finish. rewrite step_size_dressed.
  cbn [dressed Particle.max_energy Particle.energy].
  destruct (Particle.max_energy q =? 0)%Z; [reflexivity|].
  cbv zeta.
  match goal with |- context [Particle.step_color ?a ?r] =>
    destruct (step_color_dressed a r) as (c & Ec); rewrite Ec end.
  match goal with |- context [Particle.step_glow ?a] =>
    destruct (step_glow_dressed a) as (g & Eg); rewrite Eg end.
  match goal with |- context [Particle.step_target_size ?a] =>
    destruct (step_target_size_dressed a) as (t & Et & Ht); rewrite Et end.
  reflexivity.
Qed.

(** The value [update] returns: it raises exactly when [max_energy] is 0. *)
Lemma update_result (turb : bool) (p : Particle.t) (fs : list ForceField.t)
      (ps : list Particle.t) (dt : R) :
  snd (Particle.update turb p fs ps dt) =
  if (Particle.max_energy p =? 0)%Z then Raise ZeroDivisionError
  else Ok ((Particle.age p + 1 >? Particle.max_age p)%Z
           || (Particle.energy p <=? 0)%Z).
Proof.
  destruct (update_shape turb p fs ps dt) as (a & b & c & d & E).
  rewrite E, finish_result.
  cbn [moved Particle.max_energy Particle.energy Particle.age Particle.max_age].
  destruct (pre_frame p) as (He & Hm & Ha & Hma & _).
  now rewrite He, Hm, Ha, Hma.
Qed.

(** The particle [update] leaves behind, field by field. *)
Lemma update_frame (turb : bool) (p : Particle.t) (fs : list ForceField.t)
      (ps : list Particle.t) (dt : R) :
  let p' := fst (Particle.update turb p fs ps dt) in
  Particle.energy p' = Particle.energy p /\
  Particle.max_energy p' = Particle.max_energy p /\
  Particle.age p' = (Particle.age p + 1)%Z /\
  Particle.max_age p' = Particle.max_age p /\
  Particle.base_size p' = Particle.base_size p /\
  Particle.max_trail p' = Particle.max_trail p /\
  Particle.trail p' = Particle.trail (Particle.step_trail p) /\
  Particle.size p' =
    Particle.size p + (Particle.target_size p - Particle.size p) * (1 / 10) /\
  (0 <= Particle.size p -> 0 <= Particle.target_size p ->
   0 <= Particle.base_size p -> 0 <= Particle.target_size p').
Proof.
  destruct (update_shape turb p fs ps dt) as (a & b & c & d & E).
  cbv zeta. rewrite E.
  destruct (finish_dressed (moved (Particle.step_trail (Particle.step_age p)) a b c d))
    as (t & col & g & Ef & Ht).
  rewrite Ef.
  cbn [dressed moved Particle.energy Particle.max_energy Particle.age
       Particle.max_age Particle.base_size Particle.max_trail Particle.trail
       Particle.size Particle.target_size] in *.
  destruct (pre_frame p) as (G1 & G2 & G3 & G4 & G5 & G6 & G7 & G8 & G9).
  rewrite G1, G2, G3, G4, G5, G6, G7, G8, G9 in *.
  repeat split; try reflexivity. exact Ht.
Qed.

(** The velocity [update] leaves behind is the one [kinematics] computed. *)
Lemma update_velocity (turb : bool) (p : Particle.t) (fs : list ForceField.t)
      (ps : list Particle.t) (dt : R) :
  let q := kinematics turb fs (Particle.step_trail (Particle.step_age p)) in
  Particle.vx (fst (Particle.update turb p fs ps dt)) = Particle.vx q /\
  Particle.vy (fst (Particle.update turb p fs ps dt)) = Particle.vy q.
Proof.
  intros q. rewrite update_split. fold q.
  destruct (finish_dressed q) as (t & col & g & Ef & _).
  rewrite Ef. split; reflexivity.
Qed.

(** ** The speed cap *)

Lemma step_speed_limit_bound (p : Particle.t) :
  speed_sq (Particle.step_speed_limit p) <= 225.
Proof.
  unfold Particle.step_speed_limit, Rgtb.
  destruct (Rltb 225 (Particle.vx p * Particle.vx p + Particle.vy p * Particle.vy p))
    eqn:Hcmp.
  - apply Rltb_true in Hcmp.
    remember (Particle.vx p * Particle.vx p + Particle.vy p * Particle.vy p)
      as s eqn:Es.
    assert (Hs : 0 < s) by lra.
    assert (Hr : sqrt s * sqrt s = s) by (apply sqrt_sqrt; lra).
    assert (Hpos : 0 < sqrt s) by (apply sqrt_lt_R0; exact Hs).
    unfold speed_sq; cbn.
    replace (Particle.vx p * (15 / sqrt s) * (Particle.vx p * (15 / sqrt s)) +
             Particle.vy p * (15 / sqrt s) * (Particle.vy p * (15 / sqrt s)))
      with (225 * ((Particle.vx p * Particle.vx p + Particle.vy p * Particle.vy p)
                   / (sqrt s * sqrt s))) by (field; lra).
    rewrite <- Es, Hr. right. field. lra.
  - apply Rltb_false in Hcmp. unfold speed_sq. exact Hcmp.
Qed.

Lemma step_bounds_speed (p : Particle.t) :
  speed_sq (Particle.step_bounds p) <= speed_sq p.
Proof.
  unfold Particle.step_bounds, speed_sq.
  destruct (Rltb (Particle.x p) 0 || Rgtb (Particle.x p) WIDTH);
    cbn -[Rmax Rmin];
    match goal with
    | |- context [if ?c then _ else _] => destruct c
    end; cbn -[Rmax Rmin]; nra.
Qed.

(** In exact arithmetic the squared speed is at most 225 after a call of
    [Particle.update]: the speed limit caps it, and the reflections at the
    bounds only shrink it. *)
Lemma update_speed_cap_exact :
  forall (turbulence_active : bool) (p : Particle.t)
         (force_fields : list ForceField.t) (particles : list Particle.t) (dt : R),
    speed_sq (fst (Particle.update turbulence_active p force_fields particles dt))
    <= 225.
Proof.
  intros turb p fs ps dt.
  destruct (update_velocity turb p fs ps dt) as [Hx Hy].
  unfold speed_sq at 1. rewrite Hx, Hy. unfold kinematics.
  eapply Rle_trans; [apply step_bounds_speed|].
  match goal with
  | |- speed_sq (Particle.step_move ?r) <= _ =>
      replace (speed_sq (Particle.step_move r)) with (speed_sq r) by reflexivity
  end.
  apply step_speed_limit_bound.
Qed.

(** ** Opposite fields *)

(** C8. A gravity field and a repulsion field with the same position,
    strength and radii contribute exactly opposite accelerations to the same
    particle: where one is skipped so is the other, and where they act the
    two [(ax, ay)] are each other's negation, so the velocity changes they
    cause are equal in size and opposite in direction. *)
Theorem C8_gravity_repulsion_opposite :
  forall (p : Particle.t) (x y strength radius_sq active_radius_sq : R)
         (age_g max_age_g age_r max_age_r : Z),
    let g := ForceField.mk x y strength radius_sq "gravity" age_g max_age_g
               active_radius_sq in
    let r := ForceField.mk x y strength radius_sq "repulsion" age_r max_age_r
               active_radius_sq in
    Particle.field_accel p r =
      option_map (fun a => (- fst a, - snd a)) (Particle.field_accel p g) /\
    Particle.vx (Particle.apply_field p r) - Particle.vx p =
      - (Particle.vx (Particle.apply_field p g) - Particle.vx p) /\
    Particle.vy (Particle.apply_field p r) - Particle.vy p =
      - (Particle.vy (Particle.apply_field p g) - Particle.vy p).
Proof.
  intros p x y s rsq arsq ag mg ar mr g r.
  assert (H : Particle.field_accel p r =
              option_map (fun a => (- fst a, - snd a)) (Particle.field_accel p g)).
  { unfold Particle.field_accel, g, r.
    cbn [ForceField.x ForceField.y ForceField.strength ForceField.radius_sq
         ForceField.field_type ForceField.active_radius_sq ForceField.is_near].
    destruct (negb _); [reflexivity|].
    cbv zeta.
    destruct (Rgeb _ _); [reflexivity|].
    cbn [String.eqb Ascii.eqb Bool.eqb option_map fst snd].
    f_equal. f_equal; unfold Rdiv; ring. }
  split; [exact H|].
  unfold Particle.apply_field. rewrite H.
  destruct (Particle.field_accel p g) as [[ax ay]|]; cbn; split; ring.
Qed.

(** The two fields do act: at offset (10, 0) inside the radius, gravity of
    strength 2 pulls [particle0] (mass 2) by 0.32 and repulsion pushes it by
    the same amount. *)
Lemma C8_gravity_repulsion_opposite_witness :
  Particle.field_accel particle0 (ForceField.init 20 20 2 120 "gravity" 120)
    = Some (32 / 100, 0) /\
  Particle.field_accel particle0 (ForceField.init 20 20 2 120 "repulsion" 120)
    = Some (- (32 / 100), - 0).
Proof.
  assert (Hs100 : sqrt 100 = 10).
  { replace 100 with (10 * 10) by lra. apply sqrt_square. lra. }
  assert (Hrad : sqrt (120 * 120) = 120) by (apply sqrt_square; lra).
  assert (Hg : Particle.field_accel particle0
                 (ForceField.init 20 20 2 120 "gravity" 120) = Some (32 / 100, 0)).
  { unfold Particle.field_accel, ForceField.is_near, ForceField.init, particle0.
    cbn [ForceField.x ForceField.y ForceField.strength ForceField.radius_sq
         ForceField.field_type ForceField.active_radius_sq
         Particle.x Particle.y Particle.mass Particle.charge].
    replace (Rltb _ ((120 + 20) * (120 + 20))) with true
      by (symmetry; apply Rltb_true; lra).
    cbn [negb]. cbv zeta.
    replace (Rltb ((20 - 10) * (20 - 10) + (20 - 20) * (20 - 20)) 1) with false
      by (symmetry; apply Rltb_false; lra).
    replace ((20 - 10) * (20 - 10) + (20 - 20) * (20 - 20)) with 100 by lra.
    rewrite Hs100, Hrad.
    replace (Rgeb 10 120) with false
      by (symmetry; unfold Rgeb; apply Rleb_false; lra).
    cbn [String.eqb Ascii.eqb Bool.eqb].
    f_equal. f_equal; field. }
  split; [exact Hg|].
  destruct (C8_gravity_repulsion_opposite particle0 20 20 2 (120 * 120)
              ((120 + 20) * (120 + 20)) 0 120 0 120) as (H & _).
  unfold ForceField.init. rewrite H.
  unfold ForceField.init in Hg. rewrite Hg. reflexivity.
Defined.

(** ** Energy *)

Lemma update_run_snoc (inputs : list (bool * list ForceField.t)) (dt : R)
      (i : bool * list ForceField.t) (p : Particle.t) :
  update_run (inputs ++ [i]) dt p =
  fst (Particle.update (fst i) (update_run inputs dt p) (snd i) [] dt).
Proof. unfold update_run. now rewrite fold_left_app. Qed.

Lemma update_run_energy (inputs : list (bool * list ForceField.t)) (dt : R)
      (p : Particle.t) :
  Particle.energy (update_run inputs dt p) = Particle.energy p.
Proof.
  induction inputs as [|i inputs IH] using rev_ind; [reflexivity|].
  rewrite update_run_snoc.
  destruct (update_frame (fst i) (update_run inputs dt p) (snd i) [] dt) as (He & _).
  now rewrite He.
Qed.

(** C9. [Particle.update] never changes [energy], in one step or over a
    run; so for a particle whose energy is positive the removal flag of
    every later step is exactly "the new age exceeds [max_age]". *)
Theorem C9_energy_unchanged :
  forall (turbulence_active : bool) (p : Particle.t)
         (force_fields : list ForceField.t) (particles : list Particle.t) (dt : R),
    Particle.energy
      (fst (Particle.update turbulence_active p force_fields particles dt))
    = Particle.energy p /\
    (forall inputs dt', Particle.energy (update_run inputs dt' p) = Particle.energy p) /\
    ((0 < Particle.energy p)%Z ->
     forall inputs dt' dead,
       let q := update_run inputs dt' p in
       snd (Particle.update turbulence_active q force_fields particles dt) = Ok dead ->
       dead = (Particle.age q + 1 >? Particle.max_age q)%Z).
Proof.
  intros turb p fs ps dt. split; [|split].
  - apply update_frame.
  - intros; apply update_run_energy.
  - intros Hpos inputs dt' dead q Hres.
    rewrite update_result in Hres.
    destruct (Particle.max_energy q =? 0)%Z; [discriminate|].
    injection Hres as <-.
    assert (Hq : Particle.energy q = Particle.energy p)
      by apply update_run_energy.
    rewrite Hq.
    replace (Particle.energy p <=? 0)%Z with false
      by (symmetry; apply Z.leb_gt; exact Hpos).
    now rewrite orb_false_r.
Qed.

(** ** Size and trail *)

Lemma step_trail_suffix (p : Particle.t) :
  exists dropped,
    dropped ++ Particle.trail (Particle.step_trail p) =
      Particle.trail p ++ [(Particle.x p, Particle.y p)] /\
    (List.length dropped <= 1)%nat /\
    (Particle.max_trail p = 6%Z ->
     (List.length (Particle.trail p) <= 6)%nat ->
     (List.length (Particle.trail (Particle.step_trail p)) <= 6)%nat).
Proof.
  unfold Particle.step_trail.
  cbn [Particle.set_trail Particle.trail Particle.max_trail Particle.x Particle.y].
  set (l := Particle.trail p ++ [(Particle.x p, Particle.y p)]).
  assert (Hl : List.length l = S (List.length (Particle.trail p))).
  { unfold l. rewrite length_app. cbn. lia. }
  destruct (Z.of_nat (List.length l) >? Particle.max_trail p)%Z eqn:Hcmp;
    cbn [Particle.set_trail Particle.trail].
  - destruct l as [|e l']; [discriminate|].
    exists [e]. cbn. split; [reflexivity|]. split; [lia|].
    intros _ Hlen. cbn in Hl. lia.
  - exists []. cbn. split; [reflexivity|]. split; [lia|].
    intros Hmax Hlen. rewrite Hmax in Hcmp.
    rewrite Z.gtb_ltb in Hcmp. apply Z.ltb_ge in Hcmp. lia.
Qed.

Lemma update_inv (turb : bool) (p : Particle.t) (fs : list ForceField.t)
      (ps : list Particle.t) (dt : R) :
  particle_inv p -> particle_inv (fst (Particle.update turb p fs ps dt)).
Proof.
  intros (Hs & Ht & Hb & Hm & Hl).
  destruct (update_frame turb p fs ps dt)
    as (_ & _ & _ & _ & Eb & Em & Etr & Es & Htt).
  unfold particle_inv. rewrite Eb, Em, Etr, Es.
  split; [lra|]. split; [now apply Htt|]. split; [exact Hb|]. split; [exact Hm|].
  destruct (step_trail_suffix p) as (d & _ & _ & Hlen). now apply Hlen.
Qed.

Lemma update_run_inv (inputs : list (bool * list ForceField.t)) (dt : R)
      (p : Particle.t) :
  particle_inv p -> particle_inv (update_run inputs dt p).
Proof.
  intros Hp. induction inputs as [|i inputs IH] using rev_ind; [exact Hp|].
  rewrite update_run_snoc. now apply update_inv.
Qed.
(** ** The constructor and the shard factory *)

Ltac run_monad :=
  unfold make_shard, Particle.init, random_uniform, random_randint,
    random_choice, random_random, random_below, get_particle_size_multiplier,
    bind, ret, raise, lift, next_draw;
  cbn -[PI cos sin Rmult Rplus Rminus Ropp Rdiv IZR Z.min Z.add Z.sub Rltb nth
        Nat.add dict_get].

Lemma Ok_pair_inj {A S : Type} (a b : A) (s t : S) :
  (Ok a, s) = (Ok b, t) -> a = b.
Proof. intros E. now injection E. Qed.

(** [Particle.__init__] returns for each of the four kinds, after six draws. *)
Lemma init_spec (x y : R) (kind : string) (d : TypeData) (w : World Particle.t) :
  dict_get PARTICLE_TYPES kind = Some d ->
  let n := draws w in
  let base := uniform_at w (2 + n) 2 5 * particle_size_multiplier w in
  Particle.init x y kind w =
  (Ok (Particle.mk x y (uniform_at w n (-1) 1) (uniform_at w (1 + n) (-1) 1)
         d (td_mass d) base base (td_color d) [] 6 100 100 0
         (randint_at w (3 + n) 400 1200) 0 0
         (Rltb (rnd_unit w (4 + n)) (3 / 10))
         (nth (Z.to_nat (rnd_below w (5 + n) 2)) [(-1)%Z; 1%Z] 0%Z)
         base),
   after_draws 6 w).
Proof.
  intros Hd n base. run_monad. rewrite Hd. reflexivity.
Qed.

(** An unknown kind is refused with [KeyError], after the two velocity draws. *)
Lemma init_unknown_kind (x y : R) (kind : string) (w : World Particle.t) :
  dict_get PARTICLE_TYPES kind = None ->
  Particle.init x y kind w = (Raise (KeyError kind), after_draws 2 w).
Proof.
  intros Hd. run_monad. rewrite Hd. reflexivity.
Qed.

Lemma uniform_at_range {P : Type} (w : World P) (n : nat) (a b : R) :
  rng_ok w -> a <= b -> a <= uniform_at w n a b <= b.
Proof.
  intros [Hu _] Hab. unfold uniform_at. specialize (Hu n). nra.
Qed.

Lemma randint_at_range {P : Type} (w : World P) (n : nat) (a b : Z) :
  rng_ok w -> (a <= b)%Z -> (a <= randint_at w n a b <= b)%Z.
Proof.
  intros [_ Hb] Hab. unfold randint_at.
  specialize (Hb n (b - a + 1)%Z ltac:(lia)). lia.
Qed.

(** The shard built by lines 328-343, field by field; thirteen draws. *)
Lemma make_shard_spec (x y : R) (color : RGB) (w : World Particle.t) :
  let n := draws w in
  let angle := uniform_at w n 0 (PI * 2) in
  let speed := uniform_at w (1 + n) 2 6 in
  let base := uniform_at w (4 + n) 2 5 * particle_size_multiplier w in
  let size := uniform_at w (8 + n) 1 2 in
  make_shard x y color w =
  (Ok (Particle.mk x y (cos angle * speed) (sin angle * speed)
         LIGHT (td_mass LIGHT) size size
         (Z.min 255 (fst (fst color) + randint_at w (9 + n) (-30) 30),
          Z.min 255 (snd (fst color) + randint_at w (10 + n) (-30) 30),
          Z.min 255 (snd color + randint_at w (11 + n) (-30) 30))%Z
         [] 6 50 100 0
         (randint_at w (12 + n) 40 80) 0 0
         (Rltb (rnd_unit w (6 + n)) (3 / 10))
         (nth (Z.to_nat (rnd_below w (7 + n) 2)) [(-1)%Z; 1%Z] 0%Z)
         base),
   after_draws 13 w).
Proof.
  destruct color as [[c0 c1] c2]. run_monad.
  change (dict_get PARTICLE_TYPES "LIGHT") with (Some LIGHT).
  reflexivity.
Qed.

(** The store [p.drag = 0.90] is refused: "drag" is not a slot. *)
Lemma setattr_drag_refused (store : Particle.t -> Particle.t) (p : Particle.t) :
  Particle.setattr "drag" store p = Raise (AttributeError "drag").
Proof. reflexivity. Qed.

(** One turn of the explosion loop raises before it appends. *)
Lemma explosion_body_raises (x y : R) (color : RGB) (w : World Particle.t) :
  explosion_body x y color w = (Raise (AttributeError "drag"), after_draws 13 w).
Proof.
  unfold explosion_body, bind. rewrite make_shard_spec.
  unfold lift. now rewrite setattr_drag_refused.
Qed.

Lemma explosion_stops_at_first_shard (x y : R) (color : RGB) (n : nat)
      (w : World Particle.t) :
  for_range (S n) (explosion_body x y color) w =
  (Raise (AttributeError "drag"), after_draws 13 w).
Proof.
  cbn [for_range]. unfold bind. now rewrite explosion_body_raises.
Qed.

(** C1. The claim that no core operation raises fails on the shard factory:
    for every position, colour, world and every count of at least one,
    [create_explosion_at] raises [AttributeError] at the store to [drag] of
    its first shard, after thirteen draws, and leaves [particles] as they
    were. *)
Theorem C1_explosion_raises :
  forall (x y : R) (color : RGB) (count : positive) (w : World Particle.t),
    create_explosion_at x y color (Z.pos count) w =
    (Raise (AttributeError "drag"), after_draws 13 w).
Proof.
  intros x y color count w. unfold create_explosion_at.
  destruct (Pos2Nat.is_succ count) as [n Hn].
  rewrite Z2Nat.inj_pos, Hn. apply explosion_stops_at_first_shard.
Qed.

(** C2. With [count = 15] the factory appends no particle at all: the call
    raises at its first shard and the live particle set is the one it
    started from. *)
Theorem C2_explosion_15_appends_nothing :
  forall (x y : R) (color : RGB) (w : World Particle.t),
    let r := create_explosion_at x y color 15 w in
    fst r = Raise (AttributeError "drag") /\
    particles (snd r) = particles w /\
    List.length (particles (snd r)) <> (List.length (particles w) + 15)%nat.
Proof.
  intros x y color w r.
  assert (E : r = (Raise (AttributeError "drag"), after_draws 13 w)).
  { unfold r, create_explosion_at.
    change (Z.to_nat 15) with 15%nat. apply explosion_stops_at_first_shard. }
  rewrite E. cbn. repeat split; try reflexivity. lia.
Qed.

(** ** Drag *)

Lemma pre_kinematic (p : Particle.t) :
  let q := Particle.step_trail (Particle.step_age p) in
  Particle.x q = Particle.x p /\ Particle.y q = Particle.y p /\
  Particle.vx q = Particle.vx p /\ Particle.vy q = Particle.vy p /\
  Particle.type_data q = Particle.type_data p.
Proof.
  destruct (step_age_frame p) as (a' & c' & Ea & _).
  cbv zeta. rewrite Ea. clear Ea.
  destruct p. unfold Particle.step_trail.
  cbn -[Z.of_nat List.length Z.gtb].
  case_ifs; repeat split; reflexivity.
Qed.

Lemma step_drag_eq (q : Particle.t) :
  Particle.step_drag q =
  moved q (Particle.x q) (Particle.y q)
    (Particle.vx q * td_drag (Particle.type_data q))
    (Particle.vy q * td_drag (Particle.type_data q)).
Proof. destruct q; reflexivity. Qed.

Lemma step_move_eq (q : Particle.t) :
  Particle.step_move q =
  moved q (Particle.x q + Particle.vx q * 2) (Particle.y q + Particle.vy q * 2)
    (Particle.vx q) (Particle.vy q).
Proof. destruct q; reflexivity. Qed.

Lemma step_speed_limit_id (q : Particle.t) :
  speed_sq q <= 225 -> Particle.step_speed_limit q = q.
Proof.
  unfold speed_sq, Particle.step_speed_limit, Rgtb. intros H.
  apply Rltb_false in H. now rewrite H.
Qed.

Lemma step_bounds_id (q : Particle.t) :
  0 <= Particle.x q <= WIDTH -> 0 <= Particle.y q <= HEIGHT ->
  Particle.step_bounds q = q.
Proof.
  intros Hx Hy. unfold Particle.step_bounds, Rgtb.
  replace (Rltb (Particle.x q) 0) with false by (symmetry; apply Rltb_false; lra).
  replace (Rltb WIDTH (Particle.x q)) with false
    by (symmetry; apply Rltb_false; lra).
  cbn [orb].
  replace (Rltb (Particle.y q) 0) with false by (symmetry; apply Rltb_false; lra).
  replace (Rltb HEIGHT (Particle.y q)) with false
    by (symmetry; apply Rltb_false; lra).
  reflexivity.
Qed.

(** With no field in reach, turbulence off, and a velocity that neither
    reaches the speed limit nor carries the particle out of bounds, the
    velocity after [update] is the old one times the drag of the particle's
    kind. *)
Lemma update_free_flight (p : Particle.t) (ps : list Particle.t) (dt : R) :
  let d := td_drag (Particle.type_data p) in
  Particle.vx p * d * (Particle.vx p * d) + Particle.vy p * d * (Particle.vy p * d)
    <= 225 ->
  0 <= Particle.x p + Particle.vx p * d * 2 <= WIDTH ->
  0 <= Particle.y p + Particle.vy p * d * 2 <= HEIGHT ->
  Particle.vx (fst (Particle.update false p [] ps dt)) = Particle.vx p * d /\
  Particle.vy (fst (Particle.update false p [] ps dt)) = Particle.vy p * d.
Proof.
  intros d Hs Hx Hy.
  destruct (update_velocity false p [] ps dt) as [Ex Ey]. rewrite Ex, Ey.
  clear Ex Ey.
  destruct (pre_kinematic p) as (Qx & Qy & Qvx & Qvy & Qt).
  set (q := Particle.step_trail (Particle.step_age p)) in *. clearbody q.
  unfold kinematics.
  change (Particle.step_fields (Particle.step_turbulence false q) []) with q.
  rewrite step_drag_eq, Qx, Qy, Qvx, Qvy, Qt. fold d.
  rewrite step_speed_limit_id by exact Hs.
  rewrite step_move_eq.
  rewrite step_bounds_id by (cbn; assumption).
  split; reflexivity.
Qed.

(** Every shard is of kind LIGHT, so the drag [update] reads for it is 0.96. *)
Lemma shard_kind_drag (x y : R) (color : RGB) (w w' : World Particle.t)
      (p : Particle.t) :
  make_shard x y color w = (Ok p, w') ->
  Particle.type_data p = LIGHT /\ td_drag (Particle.type_data p) = 96 / 100.
Proof.
  rewrite make_shard_spec. intros E. apply Ok_pair_inj in E; subst p. split; reflexivity.
Qed.

(** C3. The drag applied to a shard is the LIGHT kind's 0.96, not the 0.90
    of the override: the shard that lines 328-343 build at (500, 350) with
    the least draws leaves with velocity (2, 0), and one [update] with no
    field and no turbulence turns its [vx] into 2 * 0.96. *)
Theorem C3_shard_update_uses_kind_drag :
  exists (p : Particle.t) (w' : World Particle.t),
    make_shard 500 350 (255, 250, 100)%Z world0 = (Ok p, w') /\
    Particle.vx p = 2 /\ Particle.vy p = 0 /\
    td_drag (Particle.type_data p) = 96 / 100 /\
    Particle.vx (fst (Particle.update false p [] [] 0)) = 2 * (96 / 100) /\
    Particle.vx (fst (Particle.update false p [] [] 0)) <> 2 * (90 / 100).
Proof.
  rewrite make_shard_spec. cbv zeta.
  eexists. eexists. split; [reflexivity|].
  match goal with |- Particle.vx ?q = _ /\ _ => set (p := q) end.
  assert (Hang : uniform_at world0 (draws world0) 0 (PI * 2) = 0)
    by (unfold uniform_at; cbn [rnd_unit world0]; ring).
  assert (Hspd : uniform_at world0 (1 + draws world0) 2 6 = 2)
    by (unfold uniform_at; cbn [rnd_unit world0]; ring).
  assert (Hvx : Particle.vx p = 2).
  { unfold p; cbn [Particle.vx]. rewrite Hang, Hspd, cos_0. ring. }
  assert (Hvy : Particle.vy p = 0).
  { unfold p; cbn [Particle.vy]. rewrite Hang, Hspd, sin_0. ring. }
  assert (Hd : td_drag (Particle.type_data p) = 96 / 100) by reflexivity.
  assert (Hx : Particle.x p = 500) by reflexivity.
  assert (Hy : Particle.y p = 350) by reflexivity.
  clearbody p.
  destruct (update_free_flight p [] 0) as [Ex _].
  - rewrite Hvx, Hvy, Hd. lra.
  - rewrite Hvx, Hx, Hd. unfold WIDTH. lra.
  - rewrite Hvy, Hy, Hd. unfold HEIGHT. lra.
  - rewrite Ex, Hvx, Hd. repeat split; try assumption; try reflexivity; lra.
Qed.

(** ** Shard colour *)

(** Each channel of a shard's colour is the source channel plus a draw in
    [-30, 30], capped at 255 and not bounded below. *)
Lemma shard_color_channels (x y : R) (c0 c1 c2 : Z) (w w' : World Particle.t)
      (p : Particle.t) :
  rng_ok w ->
  make_shard x y (c0, c1, c2) w = (Ok p, w') ->
  exists d0 d1 d2 : Z,
    (-30 <= d0 <= 30)%Z /\ (-30 <= d1 <= 30)%Z /\ (-30 <= d2 <= 30)%Z /\
    Particle.color p =
      (Z.min 255 (c0 + d0), Z.min 255 (c1 + d1), Z.min 255 (c2 + d2))%Z.
Proof.
  intros Hw. rewrite make_shard_spec. intros E. apply Ok_pair_inj in E; subst p.
  exists (randint_at w (9 + draws w) (-30) 30),
         (randint_at w (10 + draws w) (-30) 30),
         (randint_at w (11 + draws w) (-30) 30).
  repeat split; try (apply randint_at_range; [exact Hw | lia]).
Qed.

(** C4. The shard colour is capped at 255 but not at 0: for the source
    colour (0, 0, 0) and the least draws, every channel of the shard is
    -30, outside the valid range. *)
Theorem C4_shard_color_below_zero :
  exists (p : Particle.t) (w' : World Particle.t),
    make_shard 0 0 (0, 0, 0)%Z world0 = (Ok p, w') /\
    rng_ok world0 /\
    Particle.color p = (-30, -30, -30)%Z.
Proof.
  rewrite make_shard_spec. cbv zeta.
  eexists. eexists. split; [reflexivity|]. split.
  - split; intros; cbn; [lra | lia].
  - reflexivity.
Qed.

(** ** The charged flag *)




























(** ** The size-and-trail invariant *)

(** The constructor establishes the invariant when the size multiplier is
    not negative (the main loop keeps it in [0.2, 3.0]). *)
Lemma init_inv (x y : R) (kind : string) (w w' : World Particle.t)
      (p : Particle.t) :
  rng_ok w -> 0 <= particle_size_multiplier w ->
  Particle.init x y kind w = (Ok p, w') -> particle_inv p.
Proof.
  intros Hw Hm E.
  destruct (dict_get PARTICLE_TYPES kind) as [d|] eqn:Hd.
  - rewrite (init_spec x y kind d w Hd) in E. apply Ok_pair_inj in E; subst p.
    unfold particle_inv.
    cbn [Particle.size Particle.target_size Particle.base_size
         Particle.max_trail Particle.trail List.length].
    assert (Hu : forall n, 0 <= uniform_at w n 2 5 * particle_size_multiplier w).
    { intros n. apply Rmult_le_pos; [|exact Hm].
      pose proof (uniform_at_range w n 2 5 Hw ltac:(lra)). lra. }
    repeat split; try apply Hu; try reflexivity. lia.
  - rewrite (init_unknown_kind x y kind w Hd) in E. discriminate.
Qed.

(** So do lines 328-343 for a shard, and the shard has the kind, energy,
    lifetime, speed and size the factory is meant to give it. *)
Lemma make_shard_properties (x y : R) (color : RGB) (w w' : World Particle.t)
      (p : Particle.t) :
  rng_ok w -> 0 <= particle_size_multiplier w ->
  make_shard x y color w = (Ok p, w') ->
  particle_inv p /\
  Particle.type_data p = LIGHT /\
  Particle.energy p = 50%Z /\
  (40 <= Particle.max_age p <= 80)%Z /\
  (exists speed, 2 <= speed <= 6 /\ speed_sq p = speed * speed) /\
  1 <= Particle.size p <= 2 /\
  Particle.target_size p = Particle.size p.
Proof.
  intros Hw Hm. rewrite make_shard_spec. intros E. apply Ok_pair_inj in E; subst p.
  unfold particle_inv, speed_sq.
  cbn [Particle.size Particle.target_size Particle.base_size Particle.max_trail
       Particle.trail Particle.type_data Particle.energy Particle.max_age
       Particle.vx Particle.vy List.length].
  assert (Hsz : forall n, 1 <= uniform_at w n 1 2 <= 2)
    by (intros n; apply uniform_at_range; [exact Hw | lra]).
  assert (Hbs : forall n, 0 <= uniform_at w n 2 5 * particle_size_multiplier w).
  { intros n. apply Rmult_le_pos; [|exact Hm].
    pose proof (uniform_at_range w n 2 5 Hw ltac:(lra)). lra. }
  split.
  { repeat split; try apply Hbs; try reflexivity;
      try (match goal with |- 0 <= uniform_at w ?n 1 2 =>
             specialize (Hsz n); lra end).
    lia. }
  split; [reflexivity|]. split; [reflexivity|].
  split; [apply randint_at_range; [exact Hw | lia]|].
  split; [|split; [apply Hsz | reflexivity]].
  exists (uniform_at w (1 + draws w) 2 6).
  split; [apply uniform_at_range; [exact Hw | lra]|].
  set (a := uniform_at w (draws w) 0 (PI * 2)).
  set (s := uniform_at w (1 + draws w) 2 6).
  pose proof (sin2_cos2 a) as Hsc. unfold Rsqr in Hsc.
  replace (cos a * s * (cos a * s) + sin a * s * (sin a * s))
    with ((sin a * sin a + cos a * cos a) * (s * s)) by ring.
  rewrite Hsc. ring.
Qed.

(** ** What does return *)

(** [update] returns unless [max_energy] is 0, which no constructed particle
    has; the particle prune then returns as well. *)
Lemma update_returns (turb : bool) (p : Particle.t) (fs : list ForceField.t)
      (ps : list Particle.t) (dt : R) :
  Particle.max_energy p <> 0%Z ->
  exists dead, snd (Particle.update turb p fs ps dt) = Ok dead.
Proof.
  intros Hm. rewrite update_result.
  destruct (Particle.max_energy p =? 0)%Z eqn:E.
  - apply Z.eqb_eq in E. contradiction.
  - eexists; reflexivity.
Qed.

Lemma prune_particles_returns (turb : bool) (fs : list ForceField.t) (dt : R)
      (ps : list Particle.t) :
  Forall (fun p => Particle.max_energy p <> 0%Z) ps ->
  exists kept, prune_particles turb fs dt ps = Ok kept.
Proof.
  unfold prune_particles. generalize ps at 2 as all.
  induction ps as [|p ps IH]; intros all Hall; cbn [prune_particles_from].
  - eexists; reflexivity.
  - inversion Hall as [|? ? Hp Hps]; subst.
    destruct (update_returns turb p fs all dt Hp) as (dead & Hd).
    destruct (Particle.update turb p fs all dt) as [p' o]. cbn in Hd. subst o.
    destruct (IH all Hps) as (kept & Hk). rewrite Hk.
    eexists; reflexivity.
Qed.

(** ** The invariant, settled *)

(** C7, as stated, fails: non-negative size and a trail within 6 are not
    preserved on their own.  A particle of size 0 whose target size is -1
    leaves [update] with size -0.1. *)
Lemma C7_size_alone_not_preserved :
  ~ (forall (turb : bool) (p : Particle.t) (fs : list ForceField.t)
            (ps : list Particle.t) (dt : R),
        0 <= Particle.size p /\ (List.length (Particle.trail p) <= 6)%nat ->
        0 <= Particle.size (fst (Particle.update turb p fs ps dt)) /\
        (List.length (Particle.trail (fst (Particle.update turb p fs ps dt)))
         <= 6)%nat).
Proof.
  intros H.
  set (p := Particle.mk 0 0 0 0 LIGHT (5 / 10) 0 (-1) (150, 255, 100)%Z []
              6 100 100 0 100 0 0 false 1 1).
  destruct (H false p [] [] 0) as [Hsize _].
  { cbn. split; [lra | lia]. }
  destruct (update_frame false p [] [] 0) as (_ & _ & _ & _ & _ & _ & _ & Es & _).
  rewrite Es in Hsize. cbn in Hsize. lra.
Qed.

(** Both constructors start the trail empty. *)
Lemma init_trail (x y : R) (kind : string) (w w' : World Particle.t)
      (p : Particle.t) :
  Particle.init x y kind w = (Ok p, w') -> Particle.trail p = [].
Proof.
  intros E.
  destruct (dict_get PARTICLE_TYPES kind) as [d|] eqn:Hd.
  - rewrite (init_spec x y kind d w Hd) in E. apply Ok_pair_inj in E; subst p.
    reflexivity.
  - rewrite (init_unknown_kind x y kind w Hd) in E. discriminate.
Qed.

Lemma make_shard_trail (x y : R) (color : RGB) (w w' : World Particle.t)
      (p : Particle.t) :
  make_shard x y color w = (Ok p, w') -> Particle.trail p = [].
Proof.
  rewrite make_shard_spec. intros E. apply Ok_pair_inj in E; subst p.
  reflexivity.
Qed.

(** C7, amended. [Particle.__init__] and the shard lines 328-343 build
    particles whose size, target size and base size are non-negative, whose
    trail capacity is 6 and whose trail is empty, provided the size
    multiplier is not negative.  From any state in which size, target size
    and base size are non-negative, the trail capacity is 6 and the trail
    holds at most 6 positions, every [update] step leads to such a state
    again; so after any number of steps the size is non-negative and the
    trail holds at most 6 positions; and each step's trail is the old trail
    followed by the position before the step, less at most one position
    dropped from the front (the oldest). *)
Theorem C7_size_trail_invariant :
  (forall x y kind (w w' : World Particle.t) p,
      rng_ok w -> 0 <= particle_size_multiplier w ->
      Particle.init x y kind w = (Ok p, w') ->
      particle_inv p /\ Particle.trail p = []) /\
  (forall x y color (w w' : World Particle.t) p,
      rng_ok w -> 0 <= particle_size_multiplier w ->
      make_shard x y color w = (Ok p, w') ->
      particle_inv p /\ Particle.trail p = []) /\
  (forall p : Particle.t,
      particle_inv p ->
      (forall turb fs ps dt,
          particle_inv (fst (Particle.update turb p fs ps dt))) /\
      (forall inputs dt,
          let q := update_run inputs dt p in
          0 <= Particle.size q /\ (List.length (Particle.trail q) <= 6)%nat) /\
      (forall turb fs ps dt,
          exists dropped,
            dropped ++ Particle.trail (fst (Particle.update turb p fs ps dt)) =
              Particle.trail p ++ [(Particle.x p, Particle.y p)] /\
            (List.length dropped <= 1)%nat)).
Proof.
  split.
  { intros x y kind w w' p Hw Hm E.
    split; [exact (init_inv x y kind w w' p Hw Hm E) | exact (init_trail _ _ _ _ _ _ E)]. }
  split.
  { intros x y color w w' p Hw Hm E.
    split; [exact (proj1 (make_shard_properties x y color w w' p Hw Hm E))
           | exact (make_shard_trail _ _ _ _ _ _ E)]. }
  intros p Hp. split; [|split].
  - intros. now apply update_inv.
  - intros inputs dt q.
    destruct (update_run_inv inputs dt p Hp) as (Hs & _ & _ & _ & Hl).
    split; assumption.
  - intros turb fs ps dt.
    destruct (update_frame turb p fs ps dt) as (_ & _ & _ & _ & _ & _ & Etr & _).
    rewrite Etr.
    destruct (step_trail_suffix p) as (d & Hd & Hlen & _).
    exists d. split; assumption.
Qed.

Lemma C7_size_trail_invariant_witness :
  particle_inv particle0 /\
  particle_inv (fst (Particle.update true particle0 [] [] 0)) /\
  0 <= Particle.size (update_run [(true, []); (false, [])] 0 particle0).
Proof.
  assert (Hp : particle_inv particle0).
  { unfold particle_inv, particle0. cbn. repeat split; try lra; lia. }
  destruct C7_size_trail_invariant as (_ & _ & Hstep).
  destruct (Hstep particle0 Hp) as (H1 & Hrun & _).
  split; [exact Hp|]. split; [apply H1|].
  exact (proj1 (Hrun [(true, []); (false, [])] 0)).
Defined.

Lemma C9_energy_unchanged_witness :
  (0 < Particle.energy particle0)%Z /\
  Particle.energy (fst (Particle.update false particle0 [] [] 0)) = 100%Z /\
  snd (Particle.update false particle0 [] [] 0) = Ok false.
Proof.
  assert (Hpos : (0 < Particle.energy particle0)%Z) by (cbn; lia).
  destruct (C9_energy_unchanged false particle0 [] [] 0) as (He & _ & Hflag).
  split; [exact Hpos|]. split; [rewrite He; reflexivity|].
  destruct (update_returns false particle0 [] [] 0) as (dead & Hd);
    [cbn; lia|].
  rewrite Hd. f_equal.
  exact (Hflag Hpos [] 0 dead Hd).
Defined.

(** * Further properties *)

(** ** Position *)

Lemma step_bounds_eq (q : Particle.t) :
  Particle.step_bounds q =
  moved q
    (Rmax 0 (Rmin WIDTH (Particle.x q)))
    (Rmax 0 (Rmin HEIGHT (Particle.y q)))
    (if Rltb (Particle.x q) 0 || Rgtb (Particle.x q) WIDTH
     then Particle.vx q * - (6 / 10) else Particle.vx q)
    (if Rltb (Particle.y q) 0 || Rgtb (Particle.y q) HEIGHT
     then Particle.vy q * - (6 / 10) else Particle.vy q).
Proof.
  assert (Hclamp : forall b v, 0 <= b ->
             Rltb v 0 || Rgtb v b = false -> Rmax 0 (Rmin b v) = v).
  { intros b v Hb H. apply orb_false_elim in H. destruct H as [H1 H2].
    apply Rltb_false in H1. unfold Rgtb in H2. apply Rltb_false in H2.
    rewrite Rmin_right by exact H2. apply Rmax_right. exact H1. }
  destruct q as [x y vx vy td m sz ts c tr mt e me a ma g mc ch cg bs].
  unfold Particle.step_bounds, moved.
  cbn [Particle.x Particle.y Particle.vx Particle.vy Particle.set_x
       Particle.set_vx].
  destruct (Rltb x 0 || Rgtb x WIDTH) eqn:Hx;
    cbn [Particle.x Particle.y Particle.vx Particle.vy Particle.set_x
         Particle.set_vx Particle.set_y Particle.set_vy Particle.type_data
         Particle.mass Particle.size Particle.target_size Particle.color
         Particle.trail Particle.max_trail Particle.energy Particle.max_energy
         Particle.age Particle.max_age Particle.glow Particle.merge_cooldown
         Particle.charged Particle.charge Particle.base_size];
    destruct (Rltb y 0 || Rgtb y HEIGHT) eqn:Hy;
    cbn [Particle.x Particle.y Particle.vx Particle.vy Particle.set_x
         Particle.set_vx Particle.set_y Particle.set_vy Particle.type_data
         Particle.mass Particle.size Particle.target_size Particle.color
         Particle.trail Particle.max_trail Particle.energy Particle.max_energy
         Particle.age Particle.max_age Particle.glow Particle.merge_cooldown
         Particle.charged Particle.charge Particle.base_size];
    rewrite ?(Hclamp WIDTH x) by (try exact Hx; unfold WIDTH; lra);
    rewrite ?(Hclamp HEIGHT y) by (try exact Hy; unfold HEIGHT; lra);
    reflexivity.
Qed.

Lemma clamp_range (b v : R) : 0 <= b -> 0 <= Rmax 0 (Rmin b v) <= b.
Proof.
  intros Hb. split; [apply Rmax_l|].
  apply Rmax_lub; [exact Hb | apply Rmin_l].
Qed.

(** The position [update] leaves behind is the one [kinematics] computed. *)
Lemma update_position (turb : bool) (p : Particle.t) (fs : list ForceField.t)
      (ps : list Particle.t) (dt : R) :
  let q := kinematics turb fs (Particle.step_trail (Particle.step_age p)) in
  Particle.x (fst (Particle.update turb p fs ps dt)) = Particle.x q /\
  Particle.y (fst (Particle.update turb p fs ps dt)) = Particle.y q.
Proof.
  intros q. rewrite update_split. fold q.
  destruct (finish_dressed q) as (t & col & g & Ef & _).
  rewrite Ef. split; reflexivity.
Qed.

(** After every call of [update] the particle is inside the window,
    wherever it was before and whatever pushed it. *)
Theorem update_stays_in_window :
  forall (turbulence_active : bool) (p : Particle.t)
         (force_fields : list ForceField.t) (particles : list Particle.t) (dt : R),
    let p' := fst (Particle.update turbulence_active p force_fields particles dt) in
    0 <= Particle.x p' <= WIDTH /\ 0 <= Particle.y p' <= HEIGHT.
Proof.
  intros turb p fs ps dt p'.
  destruct (update_position turb p fs ps dt) as [Ex Ey].
  unfold p'. rewrite Ex, Ey. unfold kinematics. rewrite step_bounds_eq.
  cbn [moved Particle.x Particle.y].
  split; apply clamp_range; [unfold WIDTH | unfold HEIGHT]; lra.
Qed.

(** ** Free flight and the walls *)

(** What [kinematics] does to a particle no field reaches, with turbulence
    off and a speed under the limit after drag. *)
Lemma kinematics_free_flight (q : Particle.t) :
  let d := td_drag (Particle.type_data q) in
  let ux := Particle.vx q * d in
  let uy := Particle.vy q * d in
  ux * ux + uy * uy <= 225 ->
  kinematics false [] q =
  Particle.step_bounds
    (moved q (Particle.x q + ux * 2) (Particle.y q + uy * 2) ux uy).
Proof.
  intros d ux uy Hs. unfold kinematics.
  change (Particle.step_fields (Particle.step_turbulence false q) []) with q.
  rewrite step_drag_eq. fold d. fold ux. fold uy.
  rewrite step_speed_limit_id by exact Hs.
  rewrite step_move_eq. reflexivity.
Qed.

(** A particle in free flight (no field, no turbulence, under the speed
    limit) moves by twice its dragged velocity; where that carries it past a
    wall it is put on the wall and the velocity component across the wall
    is reversed and scaled by 0.6, and otherwise the velocity is just the
    dragged one. *)
Theorem free_flight_wall_bounce :
  forall (p : Particle.t) (particles : list Particle.t) (dt : R),
    let d := td_drag (Particle.type_data p) in
    let ux := Particle.vx p * d in
    let uy := Particle.vy p * d in
    let nx := Particle.x p + ux * 2 in
    let ny := Particle.y p + uy * 2 in
    ux * ux + uy * uy <= 225 ->
    let p' := fst (Particle.update false p [] particles dt) in
    (nx < 0 -> Particle.x p' = 0 /\ Particle.vx p' = ux * - (6 / 10)) /\
    (WIDTH < nx -> Particle.x p' = WIDTH /\ Particle.vx p' = ux * - (6 / 10)) /\
    (0 <= nx <= WIDTH -> Particle.x p' = nx /\ Particle.vx p' = ux) /\
    (ny < 0 -> Particle.y p' = 0 /\ Particle.vy p' = uy * - (6 / 10)) /\
    (HEIGHT < ny -> Particle.y p' = HEIGHT /\ Particle.vy p' = uy * - (6 / 10)) /\
    (0 <= ny <= HEIGHT -> Particle.y p' = ny /\ Particle.vy p' = uy).
Proof.
  intros p ps dt d ux uy nx ny Hs p'.
  destruct (update_velocity false p [] ps dt) as [Evx Evy].
  destruct (update_position false p [] ps dt) as [Ex Ey].
  fold p' in Evx, Evy, Ex, Ey. rewrite Evx, Evy, Ex, Ey. clear Evx Evy Ex Ey.
  destruct (pre_kinematic p) as (Qx & Qy & Qvx & Qvy & Qt).
  set (q := Particle.step_trail (Particle.step_age p)) in *. clearbody q.
  rewrite kinematics_free_flight by (rewrite Qvx, Qvy, Qt; exact Hs).
  rewrite Qx, Qy, Qvx, Qvy, Qt. fold d. fold ux. fold uy. fold nx. fold ny.
  rewrite step_bounds_eq.
  cbn [moved Particle.x Particle.y Particle.vx Particle.vy].
  assert (HW : 0 <= WIDTH) by (unfold WIDTH; lra).
  assert (HH : 0 <= HEIGHT) by (unfold HEIGHT; lra).
  assert (Hlow : forall b v, 0 <= b -> v < 0 ->
            Rmax 0 (Rmin b v) = 0 /\ Rltb v 0 || Rgtb v b = true).
  { intros b v Hb Hv. split.
    - rewrite Rmin_right by lra. apply Rmax_left. lra.
    - apply orb_true_intro. left. apply Rltb_true. exact Hv. }
  assert (Hhigh : forall b v, 0 <= b -> b < v ->
            Rmax 0 (Rmin b v) = b /\ Rltb v 0 || Rgtb v b = true).
  { intros b v Hb Hv. split.
    - rewrite Rmin_left by lra. apply Rmax_right. exact Hb.
    - apply orb_true_intro. right. unfold Rgtb. apply Rltb_true. exact Hv. }
  assert (Hin : forall b v, 0 <= v <= b ->
            Rmax 0 (Rmin b v) = v /\ Rltb v 0 || Rgtb v b = false).
  { intros b v Hv. split.
    - rewrite Rmin_right by lra. apply Rmax_right. lra.
    - apply orb_false_intro; [|unfold Rgtb]; apply Rltb_false; lra. }
  split; [|split; [|split; [|split; [|split]]]]; intros Hcase.
  - destruct (Hlow _ _ HW Hcase) as [E1 E2]. now rewrite E1, E2.
  - destruct (Hhigh _ _ HW Hcase) as [E1 E2]. now rewrite E1, E2.
  - destruct (Hin _ _ Hcase) as [E1 E2]. now rewrite E1, E2.
  - destruct (Hlow _ _ HH Hcase) as [E1 E2]. now rewrite E1, E2.
  - destruct (Hhigh _ _ HH Hcase) as [E1 E2]. now rewrite E1, E2.
  - destruct (Hin _ _ Hcase) as [E1 E2]. now rewrite E1, E2.
Qed.

Lemma free_flight_wall_bounce_witness :
  let p := Particle.mk 999 20 10 0 (mkTypeData 2 (255, 150, 50)%Z (99 / 100)) 2
             3 3 (255, 150, 50)%Z [] 6 100 100 0 400 0 0 false 1 3 in
  let p' := fst (Particle.update false p [] [] 0) in
  Particle.x p' = WIDTH /\ Particle.vx p' = 10 * (99 / 100) * - (6 / 10).
Proof.
  intros p p'.
  assert (Hs : Particle.vx p * td_drag (Particle.type_data p)
               * (Particle.vx p * td_drag (Particle.type_data p))
               + Particle.vy p * td_drag (Particle.type_data p)
                 * (Particle.vy p * td_drag (Particle.type_data p)) <= 225)
    by (cbn; lra).
  destruct (free_flight_wall_bounce p [] 0 Hs) as (_ & Hright & _).
  apply Hright. cbn. unfold WIDTH. lra.
Defined.

(** ** The stages after the move, in full *)

Lemma step_color_eq (q : Particle.t) (r : R) :
  Particle.step_color q r =
  dressed q (Particle.size q) (Particle.target_size q)
    (Z.min 255 (py_int (100 + 155 * r)),
     Z.min 255 (py_int (150 + 100 * r)),
     Z.min 255 (py_int (100 + 155 * (1 - r))))
    (Particle.glow q).
Proof. destruct q; reflexivity. Qed.

Lemma step_glow_eq (q : Particle.t) :
  Particle.step_glow q =
  dressed q (Particle.size q) (Particle.target_size q) (Particle.color q)
    (if (Particle.energy q >? 80)%Z then Particle.glow q + 5 / 10
     else Rmax 0 (Particle.glow q - 3 / 10)).
Proof. destruct q; reflexivity. Qed.

Lemma step_target_size_eq (q : Particle.t) :
  Particle.step_target_size q =
  dressed q (Particle.size q)
    (if (Particle.energy q <? 20)%Z
     then Rmax 1 (Particle.base_size q * (7 / 10))
     else if (Particle.energy q >? 80)%Z
          then Rmin (Particle.base_size q * 2) (Particle.size q * (101 / 100))
          else Particle.base_size q)
    (Particle.color q) (Particle.glow q).
Proof.
  destruct q. unfold Particle.step_target_size, dressed.
  cbn [Particle.energy Particle.base_size Particle.size Particle.set_target_size
       Particle.x Particle.y Particle.vx Particle.vy Particle.type_data
       Particle.mass Particle.target_size Particle.color Particle.trail
       Particle.max_trail Particle.max_energy Particle.age Particle.max_age
       Particle.glow Particle.merge_cooldown Particle.charged Particle.charge].
  case_ifs; reflexivity.
Qed.

(** The particle [finish] leaves behind when it returns. *)
Lemma finish_values (q : Particle.t) :
  Particle.max_energy q <> 0%Z ->
  let r := IZR (Particle.energy q) / IZR (Particle.max_energy q) in
  let s := Particle.size q
           + (Particle.target_size q - Particle.size q) * (1 / 10) in
  fst (finish q) =
  dressed q s
    (if (Particle.energy q <? 20)%Z
     then Rmax 1 (Particle.base_size q * (7 / 10))
     else if (Particle.energy q >? 80)%Z
          then Rmin (Particle.base_size q * 2) (s * (101 / 100))
          else Particle.base_size q)
    (Z.min 255 (py_int (100 + 155 * r)),
     Z.min 255 (py_int (150 + 100 * r)),
     Z.min 255 (py_int (100 + 155 * (1 - r))))
    (if (Particle.energy q >? 80)%Z then Particle.glow q + 5 / 10
     else Rmax 0 (Particle.glow q - 3 / 10)).
Proof.
  intros Hm r s. unfold finish. rewrite step_size_dressed. fold s.
  cbn [dressed Particle.max_energy Particle.energy].
  replace (Particle.max_energy q =? 0)%Z with false
    by (symmetry; apply Z.eqb_neq; exact Hm).
  cbv zeta. fold r.
  rewrite step_color_eq, step_glow_eq, step_target_size_eq.
  reflexivity.
Qed.

(** What the first two stages leave alone, continued. *)
Lemma pre_look (p : Particle.t) :
  let q := Particle.step_trail (Particle.step_age p) in
  Particle.glow q = Particle.glow p /\
  Particle.color q = Particle.color p /\
  Particle.mass q = Particle.mass p /\
  Particle.charge q = Particle.charge p /\
  Particle.charged q = Particle.charged p.
Proof.
  destruct (step_age_frame p) as (a' & c' & Ea & _).
  cbv zeta. rewrite Ea. clear Ea.
  destruct p. unfold Particle.step_trail.
  cbn -[Z.of_nat List.length Z.gtb].
  case_ifs; repeat split; reflexivity.
Qed.

(** The glow, colour and target size [update] leaves behind when it returns. *)
Lemma update_look (turb : bool) (p : Particle.t) (fs : list ForceField.t)
      (ps : list Particle.t) (dt : R) :
  Particle.max_energy p <> 0%Z ->
  let p' := fst (Particle.update turb p fs ps dt) in
  let r := IZR (Particle.energy p) / IZR (Particle.max_energy p) in
  Particle.glow p' =
    (if (Particle.energy p >? 80)%Z then Particle.glow p + 5 / 10
     else Rmax 0 (Particle.glow p - 3 / 10)) /\
  Particle.color p' =
    (Z.min 255 (py_int (100 + 155 * r)),
     Z.min 255 (py_int (150 + 100 * r)),
     Z.min 255 (py_int (100 + 155 * (1 - r)))) /\
  Particle.target_size p' =
    (if (Particle.energy p <? 20)%Z
     then Rmax 1 (Particle.base_size p * (7 / 10))
     else if (Particle.energy p >? 80)%Z
          then Rmin (Particle.base_size p * 2) (Particle.size p' * (101 / 100))
          else Particle.base_size p).
Proof.
  intros Hm p' r.
  destruct (update_frame turb p fs ps dt) as (_ & _ & _ & _ & _ & _ & _ & Es & _).
  fold p' in Es. rewrite Es. unfold p'. clear Es p'.
  destruct (update_shape turb p fs ps dt) as (a & b & c & d & E).
  rewrite E. clear E.
  destruct (pre_frame p) as (G1 & G2 & _ & _ & G5 & G6 & G7 & _).
  destruct (pre_look p) as (L1 & L2 & _).
  set (q := Particle.step_trail (Particle.step_age p)) in *. clearbody q.
  rewrite finish_values by (cbn [moved Particle.max_energy]; rewrite G2; exact Hm).
  cbn [dressed moved Particle.glow Particle.color Particle.target_size
       Particle.energy Particle.max_energy Particle.size Particle.base_size].
  rewrite G1, G2, G5, G6, G7, L1. fold r.
  repeat split; reflexivity.
Qed.

(** ** Truncation *)

Lemma py_int_bounds (a b : Z) (r : R) :
  0 <= r -> IZR a <= r <= IZR b -> (a <= py_int r <= b)%Z.
Proof.
  intros H0 [Ha Hb]. unfold py_int.
  destruct (Rle_dec 0 r) as [_|Hn]; [|contradiction].
  destruct (base_Int_part r) as [Hlo Hhi].
  split.
  - assert (H : (a - 1 < Int_part r)%Z).
    { apply lt_IZR. rewrite minus_IZR. lra. }
    lia.
  - apply le_IZR. lra.
Qed.

Lemma py_int_IZR (n : Z) : (0 <= n)%Z -> py_int (IZR n) = n.
Proof.
  intros Hn.
  assert (H : (n <= py_int (IZR n) <= n)%Z).
  { apply py_int_bounds; [apply IZR_le in Hn; exact Hn | lra]. }
  lia.
Qed.

(** ** Runs of [update] *)

Lemma update_run_frame (inputs : list (bool * list ForceField.t)) (dt : R)
      (p : Particle.t) :
  let q := update_run inputs dt p in
  Particle.energy q = Particle.energy p /\
  Particle.max_energy q = Particle.max_energy p /\
  Particle.age q = (Particle.age p + Z.of_nat (List.length inputs))%Z /\
  Particle.max_age q = Particle.max_age p /\
  Particle.base_size q = Particle.base_size p.
Proof.
  induction inputs as [|i inputs IH] using rev_ind.
  - cbn. repeat split; try reflexivity. lia.
  - cbv zeta in *. rewrite update_run_snoc.
    destruct (update_frame (fst i) (update_run inputs dt p) (snd i) [] dt)
      as (H1 & H2 & H3 & H4 & H5 & _).
    destruct IH as (I1 & I2 & I3 & I4 & I5).
    rewrite H1, H2, H3, H4, H5, I1, I2, I3, I4, I5.
    rewrite length_app. cbn [List.length].
    repeat split; try reflexivity. lia.
Qed.

(** ** Lifetime *)

(** A particle the constructor built is kept by the prune for at least its
    first 400 updates and is dropped at the latest by update number 1201:
    update number [n + 1] returns the removal flag [n + 1 > max_age], and
    the constructor drew [max_age] between 400 and 1200. *)
Theorem constructed_particle_lifetime :
  forall (x y : R) (kind : string) (w w' : World Particle.t) (p : Particle.t)
         (inputs : list (bool * list ForceField.t)) (dt : R)
         (turb : bool) (fs : list ForceField.t) (ps : list Particle.t),
    rng_ok w ->
    Particle.init x y kind w = (Ok p, w') ->
    let n := Z.of_nat (List.length inputs) in
    (400 <= Particle.max_age p <= 1200)%Z /\
    snd (Particle.update turb (update_run inputs dt p) fs ps dt) =
      Ok (n + 1 >? Particle.max_age p)%Z /\
    ((n < 400)%Z ->
     snd (Particle.update turb (update_run inputs dt p) fs ps dt) = Ok false) /\
    ((1200 <= n)%Z ->
     snd (Particle.update turb (update_run inputs dt p) fs ps dt) = Ok true).
Proof.
  intros x y kind w w' p inputs dt turb fs ps Hw E n.
  assert (Hp : Particle.energy p = 100%Z /\ Particle.max_energy p = 100%Z /\
               Particle.age p = 0%Z /\ (400 <= Particle.max_age p <= 1200)%Z).
  { destruct (dict_get PARTICLE_TYPES kind) as [d|] eqn:Hd.
    - rewrite (init_spec x y kind d w Hd) in E.
      apply Ok_pair_inj in E; subst p.
      cbn [Particle.energy Particle.max_energy Particle.age Particle.max_age].
      repeat split; try reflexivity; apply randint_at_range; try exact Hw; lia.
    - rewrite (init_unknown_kind x y kind w Hd) in E. discriminate. }
  destruct Hp as (He & Hm & Ha & Hma).
  assert (Hres : snd (Particle.update turb (update_run inputs dt p) fs ps dt) =
                 Ok (n + 1 >? Particle.max_age p)%Z).
  { rewrite update_result.
    destruct (update_run_frame inputs dt p) as (R1 & R2 & R3 & R4 & _).
    rewrite R1, R2, R3, R4, He, Hm, Ha. cbn [Z.eqb Z.leb Z.compare].
    fold n. now rewrite orb_false_r. }
  split; [exact Hma|]. split; [exact Hres|]. split; intros Hn; rewrite Hres; f_equal.
  - rewrite Z.gtb_ltb. apply Z.ltb_ge. lia.
  - rewrite Z.gtb_ltb. apply Z.ltb_lt. lia.
Qed.

Lemma constructed_particle_lifetime_witness :
  rng_ok world0 /\
  exists p w',
    Particle.init 0 0 "NORMAL" world0 = (Ok p, w') /\
    Particle.max_age p = 400%Z /\
    snd (Particle.update false p [] [] 0) = Ok false.
Proof.
  assert (Hw : rng_ok world0) by (split; intros; cbn; [lra | lia]).
  split; [exact Hw|].
  pose proof (init_spec 0 0 "NORMAL"
                (mkTypeData 1 (100, 200, 255)%Z (98 / 100)) world0 eq_refl) as E.
  cbv zeta in E.
  eexists. eexists. split; [exact E|]. split; [reflexivity|].
  destruct (constructed_particle_lifetime 0 0 "NORMAL" world0 _ _ [] 0 false []
              [] Hw E) as (_ & _ & Hyoung & _).
  apply Hyoung. cbn. lia.
Defined.

(** ** Glow *)

(** The glow is never negative once it is not, and while the energy is
    above 80 (as it is for every particle the constructor builds, whose
    energy stays 100) each update adds exactly 0.5 to it: after a run of [n]
    updates it has grown by [n / 2]. *)
Theorem glow_grows_with_high_energy :
  forall (p : Particle.t) (inputs : list (bool * list ForceField.t)) (dt : R),
    Particle.max_energy p <> 0%Z ->
    (80 < Particle.energy p)%Z ->
    Particle.glow (update_run inputs dt p) =
    Particle.glow p + INR (List.length inputs) * (5 / 10).
Proof.
  intros p inputs dt Hm He.
  induction inputs as [|i inputs IH] using rev_ind.
  - cbn. lra.
  - rewrite update_run_snoc.
    destruct (update_run_frame inputs dt p) as (R1 & R2 & _).
    destruct (update_look (fst i) (update_run inputs dt p) (snd i) [] dt)
      as (Hg & _); [rewrite R2; exact Hm|].
    rewrite Hg, R1.
    replace (Particle.energy p >? 80)%Z with true
      by (symmetry; rewrite Z.gtb_ltb; apply Z.ltb_lt; exact He).
    rewrite IH, length_app, plus_INR. cbn [List.length INR]. lra.
Qed.

Lemma glow_grows_with_high_energy_witness :
  Particle.glow (update_run [(false, []); (true, [])] 0 particle0) = 0 + 2 * (5 / 10).
Proof.
  assert (Hm : Particle.max_energy particle0 <> 0%Z) by (cbn; lia).
  assert (He : (80 < Particle.energy particle0)%Z) by (cbn; lia).
  rewrite (glow_grows_with_high_energy particle0 [(false, []); (true, [])] 0 Hm He).
  cbn [particle0 Particle.glow List.length INR]. lra.
Defined.

(** With energy at most 80 the glow decays by 0.3 per update and stops at 0. *)
Theorem glow_decays_with_low_energy :
  forall (turb : bool) (p : Particle.t) (fs : list ForceField.t)
         (ps : list Particle.t) (dt : R),
    Particle.max_energy p <> 0%Z ->
    (Particle.energy p <= 80)%Z ->
    let g' := Particle.glow (fst (Particle.update turb p fs ps dt)) in
    0 <= g' /\
    (3 / 10 <= Particle.glow p -> g' = Particle.glow p - 3 / 10) /\
    (Particle.glow p <= 3 / 10 -> g' = 0).
Proof.
  intros turb p fs ps dt Hm He g'.
  destruct (update_look turb p fs ps dt Hm) as (Hg & _).
  unfold g'. rewrite Hg.
  replace (Particle.energy p >? 80)%Z with false
    by (symmetry; rewrite Z.gtb_ltb; apply Z.ltb_ge; exact He).
  split; [apply Rmax_l|]. split; intros H.
  - apply Rmax_right. lra.
  - apply Rmax_left. lra.
Qed.

Lemma glow_decays_with_low_energy_witness :
  let p := Particle.mk 10 20 1 0 LIGHT (5 / 10) 2 2 (150, 255, 100)%Z [] 6
             50 100 0 60 1 0 false 1 3 in
  Particle.glow (fst (Particle.update false p [] [] 0)) = 1 - 3 / 10.
Proof.
  intros p.
  assert (Hm : Particle.max_energy p <> 0%Z) by (cbn; lia).
  assert (He : (Particle.energy p <= 80)%Z) by (cbn; lia).
  destruct (glow_decays_with_low_energy false p [] [] 0 Hm He) as (_ & Hdec & _).
  apply Hdec. cbn. lra.
Defined.

(** ** Colour *)

(** [update] overwrites the colour with one computed from the energy ratio
    alone: whatever the colour was, the channels end in [100, 255],
    [150, 250] and [100, 255], and at full energy the colour is
    (255, 250, 100) for every kind. *)
Theorem update_color_from_energy :
  forall (turb : bool) (p : Particle.t) (fs : list ForceField.t)
         (ps : list Particle.t) (dt : R),
    (0 < Particle.max_energy p)%Z ->
    (0 <= Particle.energy p <= Particle.max_energy p)%Z ->
    let p' := fst (Particle.update turb p fs ps dt) in
    (exists c0 c1 c2 : Z,
        Particle.color p' = (c0, c1, c2) /\
        (100 <= c0 <= 255)%Z /\ (150 <= c1 <= 250)%Z /\ (100 <= c2 <= 255)%Z) /\
    (Particle.energy p = Particle.max_energy p ->
     Particle.color p' = (255, 250, 100)%Z).
Proof.
  intros turb p fs ps dt Hm He p'.
  destruct (update_look turb p fs ps dt) as (_ & Hc & _); [lia|].
  fold p' in Hc. rewrite Hc. clear Hc.
  set (r := IZR (Particle.energy p) / IZR (Particle.max_energy p)).
  assert (Hmpos : 0 < IZR (Particle.max_energy p)) by (apply IZR_lt; exact Hm).
  assert (Hr : 0 <= r <= 1).
  { unfold r. split.
    - apply Rmult_le_pos; [apply IZR_le; lia|].
      left. apply Rinv_0_lt_compat. exact Hmpos.
    - apply Rmult_le_reg_r with (IZR (Particle.max_energy p)); [exact Hmpos|].
      unfold Rdiv. rewrite Rmult_assoc, Rinv_l by lra.
      rewrite Rmult_1_r, Rmult_1_l. apply IZR_le. lia. }
  split.
  - do 3 eexists. split; [reflexivity|].
    assert (B0 : (100 <= py_int (100 + 155 * r) <= 255)%Z)
      by (apply py_int_bounds; [nra | split; nra]).
    assert (B1 : (150 <= py_int (150 + 100 * r) <= 250)%Z)
      by (apply py_int_bounds; [nra | split; nra]).
    assert (B2 : (100 <= py_int (100 + 155 * (1 - r)) <= 255)%Z)
      by (apply py_int_bounds; [nra | split; nra]).
    lia.
  - intros Hfull.
    assert (Hr1 : r = 1) by (unfold r; rewrite Hfull; field; lra).
    rewrite Hr1.
    replace (100 + 155 * 1) with (IZR 255) by lra.
    replace (150 + 100 * 1) with (IZR 250) by lra.
    replace (100 + 155 * (1 - 1)) with (IZR 100) by lra.
    rewrite !py_int_IZR by lia. reflexivity.
Qed.

Lemma update_color_from_energy_witness :
  Particle.color (fst (Particle.update false particle0 [] [] 0))
  = (255, 250, 100)%Z.
Proof.
  assert (Hm : (0 < Particle.max_energy particle0)%Z) by (cbn; lia).
  assert (He : (0 <= Particle.energy particle0 <= Particle.max_energy particle0)%Z)
    by (cbn; lia).
  destruct (update_color_from_energy false particle0 [] [] 0 Hm He) as (_ & Hfull).
  apply Hfull. reflexivity.
Defined.

(** ** Size at high energy *)

Lemma update_size_growing (turb : bool) (p : Particle.t)
      (fs : list ForceField.t) (ps : list Particle.t) (dt : R) :
  Particle.max_energy p <> 0%Z -> (80 < Particle.energy p)%Z ->
  size_growing p ->
  size_growing (fst (Particle.update turb p fs ps dt)) /\
  Particle.size p <= Particle.size (fst (Particle.update turb p fs ps dt)).
Proof.
  intros Hm He (H0 & H1 & H2).
  destruct (update_frame turb p fs ps dt)
    as (_ & _ & _ & _ & Eb & _ & _ & Es & _).
  destruct (update_look turb p fs ps dt Hm) as (_ & _ & Et).
  unfold size_growing. rewrite Et, Eb.
  replace (Particle.energy p <? 20)%Z with false
    by (symmetry; apply Z.ltb_ge; lia).
  replace (Particle.energy p >? 80)%Z with true
    by (symmetry; rewrite Z.gtb_ltb; apply Z.ltb_lt; exact He).
  set (s' := Particle.size (fst (Particle.update turb p fs ps dt))) in *.
  assert (Hs' : Particle.size p <= s' <= Particle.target_size p) by lra.
  repeat split; try lra.
  - apply Rmin_glb; lra.
  - apply Rmin_l.
Qed.

(** While the energy is above 80, a particle whose size is non-negative and
    not above its target size, with the target not above twice the base
    size, never shrinks and never grows beyond twice its base size. *)
Theorem size_grows_to_at_most_twice_base :
  forall (p : Particle.t) (inputs : list (bool * list ForceField.t)) (dt : R),
    Particle.max_energy p <> 0%Z ->
    (80 < Particle.energy p)%Z ->
    size_growing p ->
    let q := update_run inputs dt p in
    Particle.size p <= Particle.size q /\
    Particle.size q <= Particle.base_size p * 2 /\
    size_growing q.
Proof.
  intros p inputs dt Hm He Hg.
  induction inputs as [|i inputs IH] using rev_ind.
  - cbn. destruct Hg as (H0 & H1 & H2). repeat split; lra.
  - cbv zeta in *. rewrite update_run_snoc.
    destruct IH as (I1 & I2 & I3).
    destruct (update_run_frame inputs dt p) as (R1 & R2 & _ & _ & R5).
    destruct (update_size_growing (fst i) (update_run inputs dt p) (snd i) [] dt)
      as (J1 & J2); [rewrite R2; exact Hm | rewrite R1; exact He | exact I3 |].
    destruct (update_frame (fst i) (update_run inputs dt p) (snd i) [] dt)
      as (_ & _ & _ & _ & Eb & _).
    split; [lra|]. split; [|exact J1].
    destruct J1 as (K0 & K1 & K2). rewrite Eb, R5 in K2. lra.
Qed.

Lemma size_grows_to_at_most_twice_base_witness :
  size_growing particle0 /\
  Particle.size (update_run [(false, []); (true, [])] 0 particle0) <= 3 * 2.
Proof.
  assert (Hm : Particle.max_energy particle0 <> 0%Z) by (cbn; lia).
  assert (He : (80 < Particle.energy particle0)%Z) by (cbn; lia).
  assert (Hg : size_growing particle0) by (unfold size_growing; cbn; lra).
  split; [exact Hg|].
  exact (proj1 (proj2 (size_grows_to_at_most_twice_base particle0
                         [(false, []); (true, [])] 0 Hm He Hg))).
Defined.

(** ** Fields *)

(** The cheap pre-test never discards a point that the exact radius test
    would accept: for a field built by the constructor with a radius that
    is not negative, a point that is not near lies at squared distance at
    least [radius_sq] from the centre. *)
Theorem is_near_is_conservative :
  forall (x y strength radius : R) (field_type : string) (duration : Z)
         (px py : R),
    0 <= radius ->
    let f := ForceField.init x y strength radius field_type duration in
    ForceField.is_near f px py = false ->
    ForceField.radius_sq f <= (x - px) * (x - px) + (y - py) * (y - py).
Proof.
  intros x y s radius ft d px py Hr f Hnear.
  unfold ForceField.is_near in Hnear. apply Rltb_false in Hnear.
  cbn [f ForceField.init ForceField.x ForceField.y ForceField.active_radius_sq
       ForceField.radius_sq] in *.
  nra.
Qed.

Lemma is_near_is_conservative_witness :
  ForceField.is_near (ForceField.init 0 0 2 120 "gravity" 120) 200 0 = false /\
  ForceField.radius_sq (ForceField.init 0 0 2 120 "gravity" 120)
  <= (0 - 200) * (0 - 200) + (0 - 0) * (0 - 0).
Proof.
  assert (Hr : 0 <= 120) by lra.
  assert (Hn : ForceField.is_near (ForceField.init 0 0 2 120 "gravity" 120) 200 0
               = false).
  { unfold ForceField.is_near. apply Rltb_false. cbn. lra. }
  split; [exact Hn|].
  exact (is_near_is_conservative 0 0 2 120 "gravity" 120 200 0 Hr Hn).
Defined.





(** ** Several fields *)

Lemma apply_field_eq (p : Particle.t) (f : ForceField.t) :
  Particle.apply_field p f =
  moved p (Particle.x p) (Particle.y p)
    (Particle.vx p + fst (accel_or_zero p f))
    (Particle.vy p + snd (accel_or_zero p f)).
Proof.
  unfold Particle.apply_field, accel_or_zero.
  destruct (Particle.field_accel p f) as [[ax ay]|]; cbn [fst snd].
  - destruct p; reflexivity.
  - rewrite !Rplus_0_r. symmetry. apply moved_id.
Qed.

(** The loop over the fields adds up the accelerations of the fields, each
    computed from the position, mass and charge the particle had on entry. *)
Lemma step_fields_sum (fs : list ForceField.t) (p : Particle.t) :
  Particle.step_fields p fs =
  moved p (Particle.x p) (Particle.y p)
    (Particle.vx p + fst (sum_accel p fs))
    (Particle.vy p + snd (sum_accel p fs)).
Proof.
  unfold Particle.step_fields. revert p.
  induction fs as [|f fs IH]; intros p; cbn [fold_left sum_accel fold_right fst snd].
  - rewrite !Rplus_0_r. symmetry. apply moved_id.
  - rewrite apply_field_eq, IH.
    cbn [moved Particle.x Particle.y Particle.vx Particle.vy].
    change (sum_accel (moved p (Particle.x p) (Particle.y p)
                         (Particle.vx p + fst (accel_or_zero p f))
                         (Particle.vy p + snd (accel_or_zero p f))) fs)
      with (sum_accel p fs).
    unfold moved. cbn [Particle.type_data Particle.mass Particle.size
      Particle.target_size Particle.color Particle.trail Particle.max_trail
      Particle.energy Particle.max_energy Particle.age Particle.max_age
      Particle.glow Particle.merge_cooldown Particle.charged Particle.charge
      Particle.base_size].
    now rewrite !Rplus_assoc.
Qed.

Lemma sum_accel_perm (p : Particle.t) (fs fs' : list ForceField.t) :
  Permutation fs fs' -> sum_accel p fs = sum_accel p fs'.
Proof.
  induction 1 as [|f l l' _ IH|f g l|l l' l'' _ IH1 _ IH2];
    cbn [sum_accel fold_right fst snd].
  - reflexivity.
  - fold (sum_accel p l). fold (sum_accel p l'). now rewrite IH.
  - fold (sum_accel p l). f_equal; ring.
  - now rewrite IH1.
Qed.

(** In exact arithmetic the order of the live fields does not matter: two
    lists holding the same fields in any order give the same particle and
    the same result, and the velocity change of a list is the sum of the
    changes of its parts. *)
Theorem update_ignores_field_order :
  forall (turb : bool) (p : Particle.t) (fs fs' : list ForceField.t)
         (ps : list Particle.t) (dt : R),
    Permutation fs fs' ->
    Particle.update turb p fs ps dt = Particle.update turb p fs' ps dt /\
    (forall fs1 fs2,
        Particle.vx (Particle.step_fields p (fs1 ++ fs2)) - Particle.vx p =
        (Particle.vx (Particle.step_fields p fs1) - Particle.vx p)
        + (Particle.vx (Particle.step_fields p fs2) - Particle.vx p) /\
        Particle.vy (Particle.step_fields p (fs1 ++ fs2)) - Particle.vy p =
        (Particle.vy (Particle.step_fields p fs1) - Particle.vy p)
        + (Particle.vy (Particle.step_fields p fs2) - Particle.vy p)).
Proof.
  intros turb p fs fs' ps dt Hperm. split.
  - rewrite !update_split. unfold kinematics.
    rewrite (step_fields_sum fs), (step_fields_sum fs').
    now rewrite (sum_accel_perm _ fs fs' Hperm).
  - intros fs1 fs2. rewrite !step_fields_sum.
    cbn [moved Particle.vx Particle.vy].
    assert (Happ : sum_accel p (fs1 ++ fs2) =
                   (fst (sum_accel p fs1) + fst (sum_accel p fs2),
                    snd (sum_accel p fs1) + snd (sum_accel p fs2))).
    { induction fs1 as [|f fs1 IH]; cbn [app sum_accel fold_right fst snd].
      - fold (sum_accel p fs2). destruct (sum_accel p fs2). cbn. f_equal; ring.
      - fold (sum_accel p (fs1 ++ fs2)). fold (sum_accel p fs1).
        rewrite IH. cbn [fst snd]. f_equal; ring. }
    rewrite Happ. cbn [fst snd]. split; ring.
Qed.

Lemma update_ignores_field_order_witness :
  let g := ForceField.init 20 20 2 120 "gravity" 120 in
  let m := ForceField.init 0 0 4 90 "magnetic" 120 in
  Particle.update true particle0 [g; m] [] 0 =
  Particle.update true particle0 [m; g] [] 0.
Proof.
  intros g m.
  exact (proj1 (update_ignores_field_order true particle0 [g; m] [m; g] [] 0
                  (perm_swap m g []))).
Defined.

(** ** The field prune *)

(** Every field that survives the prune is younger than its max age, is one
    of the old fields with its age raised by one and nothing else changed,
    and the survivors keep their order: the prune is the old list with the
    expired fields taken out. *)
Theorem prune_fields_survivors :
  forall fs : list ForceField.t,
    Forall (fun g => (ForceField.age g < ForceField.max_age g)%Z)
           (prune_fields fs) /\
    prune_fields fs =
      map (fun f => ForceField.set_age f (ForceField.age f + 1)%Z)
          (filter (fun f => (ForceField.age f + 1 <? ForceField.max_age f)%Z) fs) /\
    (List.length (prune_fields fs) <= List.length fs)%nat.
Proof.
  induction fs as [|f fs (IH1 & IH2 & IH3)]; cbn [prune_fields].
  - split; [constructor | split; [reflexivity | cbn; lia]].
  - cbn [ForceField.update ForceField.set_age ForceField.age ForceField.max_age
         filter map].
    destruct (ForceField.age f + 1 <? ForceField.max_age f)%Z eqn:E.
    + split; [|split].
      * constructor; [apply Z.ltb_lt in E; exact E | exact IH1].
      * cbn [map]. now rewrite IH2.
      * cbn [List.length]. lia.
    + split; [exact IH1 | split; [exact IH2 | cbn [List.length]; lia]].
Qed.

(** ** When the factory and the constructor return *)

(** [create_explosion_at] returns exactly when [count] is zero or negative,
    and then it has drawn nothing and added nothing. *)
Theorem explosion_returns_iff_count_not_positive :
  forall (x y : R) (color : RGB) (count : Z) (w : World Particle.t),
    (fst (create_explosion_at x y color count w) = Ok tt <-> (count <= 0)%Z) /\
    ((count <= 0)%Z -> create_explosion_at x y color count w = (Ok tt, w)).
Proof.
  intros x y color count w.
  assert (Hle : (count <= 0)%Z -> create_explosion_at x y color count w = (Ok tt, w)).
  { intros Hc. unfold create_explosion_at.
    replace (Z.to_nat count) with 0%nat by lia. reflexivity. }
  split; [|exact Hle]. split.
  - intros H. destruct (Z.le_gt_cases count 0) as [Hc|Hc]; [exact Hc|].
    unfold create_explosion_at in H.
    destruct (Z.to_nat count) as [|n] eqn:En; [lia|].
    rewrite explosion_stops_at_first_shard in H. discriminate.
  - intros Hc. now rewrite Hle.
Qed.

(** [Particle.__init__] raises exactly for a kind that is not a key of
    [PARTICLE_TYPES]; the exception is [KeyError] of that kind, raised after
    the two velocity draws, with the particles untouched. *)
Theorem init_raises_iff_unknown_kind :
  forall (x y : R) (kind : string) (w : World Particle.t),
    ((exists e, fst (Particle.init x y kind w) = Raise e) <->
     ~ In kind ["NORMAL"; "HEAVY"; "LIGHT"; "ENERGY"]%string) /\
    (~ In kind ["NORMAL"; "HEAVY"; "LIGHT"; "ENERGY"]%string ->
     Particle.init x y kind w = (Raise (KeyError kind), after_draws 2 w)).
Proof.
  intros x y kind w.
  assert (Hget : dict_get PARTICLE_TYPES kind = None <->
                 ~ In kind ["NORMAL"; "HEAVY"; "LIGHT"; "ENERGY"]%string).
  { unfold PARTICLE_TYPES. cbn [dict_get In].
    destruct (String.eqb_spec kind "NORMAL");
      [subst; split; [discriminate | intros H; exfalso; apply H; auto]|].
    destruct (String.eqb_spec kind "HEAVY");
      [subst; split; [discriminate | intros H; exfalso; apply H; auto]|].
    destruct (String.eqb_spec kind "LIGHT");
      [subst; split; [discriminate | intros H; exfalso; apply H; auto]|].
    destruct (String.eqb_spec kind "ENERGY");
      [subst; split; [discriminate | intros H; exfalso; apply H; auto 6]|].
    split; [|reflexivity]. intros _ H.
    repeat (destruct H as [H|H]; [congruence|]). exact H. }
  split; [split|].
  - intros [e He]. apply Hget.
    destruct (dict_get PARTICLE_TYPES kind) as [d|] eqn:Hd; [|reflexivity].
    rewrite (init_spec x y kind d w Hd) in He. discriminate.
  - intros Hk. apply Hget in Hk. rewrite (init_unknown_kind x y kind w Hk).
    eexists; reflexivity.
  - intros Hk. apply Hget in Hk. apply init_unknown_kind. exact Hk.
Qed.

(** What the constructor guarantees of the particle it returns: the
    position asked for, each velocity component in [-1, 1], mass and colour
    of the kind, size and target size equal to the base size, which is
    between 2 and 5 times the size multiplier, an empty trail, energy 100,
    age 0, a lifetime between 400 and 1200, no glow; six draws are used and
    the particle list is not touched. *)
Theorem init_postconditions :
  forall (x y : R) (kind : string) (w w' : World Particle.t) (p : Particle.t),
    rng_ok w -> 0 <= particle_size_multiplier w ->
    Particle.init x y kind w = (Ok p, w') ->
    Particle.x p = x /\ Particle.y p = y /\
    -1 <= Particle.vx p <= 1 /\ -1 <= Particle.vy p <= 1 /\
    dict_get PARTICLE_TYPES kind = Some (Particle.type_data p) /\
    Particle.mass p = td_mass (Particle.type_data p) /\
    Particle.color p = td_color (Particle.type_data p) /\
    Particle.size p = Particle.base_size p /\
    Particle.target_size p = Particle.base_size p /\
    2 * particle_size_multiplier w <= Particle.base_size p
      <= 5 * particle_size_multiplier w /\
    Particle.trail p = [] /\
    Particle.energy p = 100%Z /\ Particle.max_energy p = 100%Z /\
    Particle.age p = 0%Z /\ (400 <= Particle.max_age p <= 1200)%Z /\
    Particle.glow p = 0 /\ Particle.merge_cooldown p = 0%Z /\
    w' = after_draws 6 w.
Proof.
  intros x y kind w w' p Hw Hm E.
  destruct (dict_get PARTICLE_TYPES kind) as [d|] eqn:Hd.
  - rewrite (init_spec x y kind d w Hd) in E.
    assert (Ew : after_draws 6 w = w') by (injection E; auto).
    apply Ok_pair_inj in E; subst p.
    cbn [Particle.x Particle.y Particle.vx Particle.vy Particle.type_data
         Particle.mass Particle.color Particle.size Particle.target_size
         Particle.base_size Particle.trail Particle.energy Particle.max_energy
         Particle.age Particle.max_age Particle.glow Particle.merge_cooldown].
    assert (Hu : forall n, 2 <= uniform_at w n 2 5 <= 5)
      by (intros n; apply uniform_at_range; [exact Hw | lra]).
    assert (Hv : forall n, -1 <= uniform_at w n (-1) 1 <= 1)
      by (intros n; apply uniform_at_range; [exact Hw | lra]).
    repeat split; try reflexivity; try apply Hv;
      try (apply randint_at_range; [exact Hw | lia]);
      try (symmetry; exact Ew).
    + apply Rmult_le_compat_r; [exact Hm | apply Hu].
    + apply Rmult_le_compat_r; [exact Hm | apply Hu].
  - rewrite (init_unknown_kind x y kind w Hd) in E. discriminate.
Qed.

Lemma init_postconditions_witness :
  exists p w',
    Particle.init 3 4 "ENERGY" world0 = (Ok p, w') /\
    Particle.x p = 3 /\ Particle.energy p = 100%Z /\ w' = after_draws 6 world0.
Proof.
  assert (Hw : rng_ok world0) by (split; intros; cbn; [lra | lia]).
  assert (Hm : 0 <= particle_size_multiplier world0) by (cbn; lra).
  pose proof (init_spec 3 4 "ENERGY"
                (mkTypeData (3 / 10) (255, 100, 255)%Z (94 / 100)) world0 eq_refl)
    as E.
  cbv zeta in E.
  eexists. eexists. split; [exact E|].
  destruct (init_postconditions 3 4 "ENERGY" world0 _ _ Hw Hm E)
    as (Hx & _ & _ & _ & _ & _ & _ & _ & _ & _ & _ & He & _ & _ & _ & _ & _ & Hw').
  repeat split; assumption.
Defined.


(** ** Colour conversion *)

Lemma py_int_floor (r : R) : 0 <= r -> IZR (py_int r) <= r < IZR (py_int r) + 1.
Proof.
  intros H0. unfold py_int.
  destruct (Rle_dec 0 r) as [_|Hn]; [|contradiction].
  destruct (base_Int_part r) as [Hlo Hhi]. lra.
Qed.

Lemma py_int_unique (r : R) (n : Z) :
  0 <= r -> IZR n <= r < IZR n + 1 -> py_int r = n.
Proof.
  intros H0 [Hlo Hhi].
  destruct (py_int_floor r H0) as [Flo Fhi].
  assert (H1 : (n - 1 < py_int r)%Z) by (apply lt_IZR; rewrite minus_IZR; lra).
  assert (H2 : (py_int r < n + 1)%Z) by (apply lt_IZR; rewrite plus_IZR; lra).
  lia.
Qed.

Lemma max3_is (a b c v : R) :
  a <= v -> b <= v -> c <= v -> a = v \/ b = v \/ c = v ->
  Rmax a (Rmax b c) = v.
Proof.
  intros Ha Hb Hc H. apply Rle_antisym.
  - apply Rmax_lub; [exact Ha | apply Rmax_lub; assumption].
  - pose proof (Rmax_l a (Rmax b c)). pose proof (Rmax_r a (Rmax b c)).
    pose proof (Rmax_l b c). pose proof (Rmax_r b c).
    destruct H as [H|[H|H]]; lra.
Qed.

Lemma min3_is (a b c v : R) :
  v <= a -> v <= b -> v <= c -> a = v \/ b = v \/ c = v ->
  Rmin a (Rmin b c) = v.
Proof.
  intros Ha Hb Hc H. apply Rle_antisym.
  - pose proof (Rmin_l a (Rmin b c)). pose proof (Rmin_r a (Rmin b c)).
    pose proof (Rmin_l b c). pose proof (Rmin_r b c).
    destruct H as [H|[H|H]]; lra.
  - apply Rmin_glb; [exact Ha | apply Rmin_glb; assumption].
Qed.

(** For a hue that is not negative, a saturation in [0, 1] and a value
    that is not negative, the largest of the three channels is [v], the
    smallest is [v * (1 - s)], and the third lies between them. *)
Theorem hsv_to_rgb_range :
  forall h s v : R,
    0 <= h -> 0 <= s <= 1 -> 0 <= v ->
    let '(r, g, b) := hsv_to_rgb h s v in
    Rmax r (Rmax g b) = v /\
    Rmin r (Rmin g b) = v * (1 - s) /\
    v * (1 - s) <= r <= v /\ v * (1 - s) <= g <= v /\ v * (1 - s) <= b <= v.
Proof.
  intros h s v Hh Hs Hv. unfold hsv_to_rgb. cbv zeta.
  destruct (py_int_floor (h * 6)) as [Hlo Hhi]; [lra|].
  set (i := py_int (h * 6)) in *.
  set (f := h * 6 - IZR i).
  assert (Hf : 0 <= f < 1) by (unfold f; lra).
  clearbody f. clear Hlo Hhi.
  generalize (i mod 6)%Z. intros k.
  assert (Hp : v * (1 - s) <= v) by nra.
  assert (Hfs : 0 <= f * s <= s) by (split; nra).
  assert (Hgs : 0 <= (1 - f) * s <= s) by (split; nra).
  assert (Hq : v * (1 - s) <= v * (1 - f * s) <= v).
  { split; [apply Rmult_le_compat_l; lra|].
    rewrite <- (Rmult_1_r v) at 2. apply Rmult_le_compat_l; lra. }
  assert (Ht : v * (1 - s) <= v * (1 - (1 - f) * s) <= v).
  { split; [apply Rmult_le_compat_l; lra|].
    rewrite <- (Rmult_1_r v) at 2. apply Rmult_le_compat_l; lra. }
  set (p := v * (1 - s)) in *.
  set (q := v * (1 - f * s)) in *.
  set (t := v * (1 - (1 - f) * s)) in *.
  clearbody p q t.
  repeat match goal with
         | |- context [if ?c then _ else _] => destruct c
         end;
    cbv beta iota;
    (split; [apply max3_is; lra | split; [apply min3_is; lra | repeat split; lra]]).
Qed.

Lemma hsv_to_rgb_range_witness :
  let '(r, g, b) := hsv_to_rgb 0 (8 / 10) 1 in
  Rmax r (Rmax g b) = 1 /\ Rmin r (Rmin g b) = 1 * (1 - 8 / 10).
Proof.
  pose proof (hsv_to_rgb_range 0 (8 / 10) 1 ltac:(lra) ltac:(lra) ltac:(lra)) as H.
  destruct (hsv_to_rgb 0 (8 / 10) 1) as [[r g] b].
  destruct H as (H1 & H2 & _). split; assumption.
Defined.

(** In exact arithmetic the conversion has period 1 in the hue, for hues
    that are not negative. *)
Lemma hsv_to_rgb_periodic_exact :
  forall h s v : R, 0 <= h -> hsv_to_rgb (h + 1) s v = hsv_to_rgb h s v.
Proof.
  intros h s v Hh. unfold hsv_to_rgb.
  assert (Hi : py_int ((h + 1) * 6) = (py_int (h * 6) + 6)%Z).
  { destruct (py_int_floor (h * 6)) as [Hlo Hhi]; [lra|].
    apply py_int_unique; [lra|]. rewrite plus_IZR. lra. }
  rewrite Hi. cbv zeta.
  replace ((h + 1) * 6 - IZR (py_int (h * 6) + 6)) with (h * 6 - IZR (py_int (h * 6)))
    by (rewrite plus_IZR; lra).
  replace ((py_int (h * 6) + 6) mod 6)%Z with (py_int (h * 6) mod 6)%Z.
  - reflexivity.
  - replace (py_int (h * 6) + 6)%Z with (py_int (h * 6) + 1 * 6)%Z by lia.
    now rewrite Z.mod_add by lia.
Qed.



(** ** Patterns *)

Lemma geometry_after_single (g : SacredGeometry.t) (k : nat) :
  SacredGeometry.max_age g = 7000 ->
  SacredGeometry.age g = 0 ->
  geometry_after k [g] =
  if (k <=? 421)%nat then [geometry_aged g (INR k * (166 / 10))] else [].
Proof.
  intros Hmax Hage. induction k as [|k IH].
  - cbn [geometry_after Nat.leb INR]. rewrite Rmult_0_l, <- Hage.
    destruct g; reflexivity.
  - cbn [geometry_after]. rewrite IH. clear IH.
    destruct (k <=? 421)%nat eqn:Hk.
    + apply Nat.leb_le in Hk.
      cbn [prune_geometry]. unfold SacredGeometry.draw, geometry_aged.
      cbn [SacredGeometry.age SacredGeometry.max_age SacredGeometry.x
           SacredGeometry.y SacredGeometry.shape SacredGeometry.color_hue
           SacredGeometry.pulse].
      rewrite Hmax.
      replace (INR k * (166 / 10) + 166 / 10) with (INR (S k) * (166 / 10))
        by (rewrite S_INR; lra).
      assert (HS : INR (S k) = INR k + 1) by apply S_INR.
      destruct (S k <=? 421)%nat eqn:Hk'.
      * apply Nat.leb_le in Hk'.
        assert (Hle : INR (S k) <= 421).
        { replace 421 with (INR 421) by (simpl; lra). apply le_INR. exact Hk'. }
        replace (Rgtb (INR (S k) * (166 / 10)) 7000) with false
          by (symmetry; unfold Rgtb; apply Rltb_false; lra).
        reflexivity.
      * apply Nat.leb_gt in Hk'.
        assert (Hge : 422 <= INR (S k)).
        { replace 422 with (INR 422) by (simpl; lra). apply le_INR. lia. }
        replace (Rgtb (INR (S k) * (166 / 10)) 7000) with true
          by (symmetry; unfold Rgtb; apply Rltb_true; lra).
        reflexivity.
    + apply Nat.leb_gt in Hk.
      replace (S k <=? 421)%nat with false by (symmetry; apply Nat.leb_gt; lia).
      reflexivity.
Qed.

(** A pattern lasts 421 turns of the loop: built with age 0, it is still in
    the list, aged by 16.6 per turn, after each of its first 421 draws and is
    dropped by the 422nd. *)
Theorem sacred_geometry_lifetime :
  forall (P : Type) (mx my : R) (w w' : World P) (g : SacredGeometry.t) (k : nat),
    SacredGeometry.init mx my w = (Ok g, w') ->
    ((k <= 421)%nat ->
     geometry_after k [g] = [geometry_aged g (INR k * (166 / 10))]) /\
    ((422 <= k)%nat -> geometry_after k [g] = []).
Proof.
  intros P mx my w w' g k E.
  assert (Hg : SacredGeometry.max_age g = 7000 /\ SacredGeometry.age g = 0).
  { unfold SacredGeometry.init, bind, random_choice, random_random,
      random_uniform, random_below, bind, ret in E.
    cbn -[nth PI Rmult Rplus Rminus] in E.
    apply Ok_pair_inj in E. subst g. split; reflexivity. }
  destruct Hg as [Hmax Hage].
  rewrite (geometry_after_single g k Hmax Hage).
  split; intros Hk.
  - replace (k <=? 421)%nat with true by (symmetry; apply Nat.leb_le; exact Hk).
    reflexivity.
  - replace (k <=? 421)%nat with false by (symmetry; apply Nat.leb_gt; lia).
    reflexivity.
Qed.

Lemma sacred_geometry_lifetime_witness :
  exists g w',
    SacredGeometry.init 5 6 world0 = (Ok g, w') /\
    geometry_after 422 [g] = [].
Proof.
  assert (E : exists g w', SacredGeometry.init 5 6 world0 = (Ok g, w')).
  { unfold SacredGeometry.init, bind, random_choice, random_random,
      random_uniform, random_below, bind, ret.
    cbn -[nth PI Rmult Rplus Rminus]. eexists. eexists. reflexivity. }
  destruct E as (g & w' & E).
  exists g, w'. split; [exact E|].
  apply (proj2 (sacred_geometry_lifetime _ 5 6 world0 w' g 422 E)). lia.
Defined.

(** ** The particle under the click *)

Lemma find_closest_from_spec (mx my : R) (ps : list Particle.t) :
  forall (i : nat) (closest : option (nat * Particle.t)) (best : R),
    0 <= best ->
    match find_closest_from ps mx my i closest best with
    | Some (j, c) =>
        (closest = Some (j, c) /\
         forall q, In q ps -> clickable mx my q ->
                   best * best <= click_dist_sq mx my q) \/
        ((i <= j)%nat /\ nth_error ps (j - i) = Some c /\
         clickable mx my c /\ click_dist_sq mx my c < best * best /\
         forall q, In q ps -> clickable mx my q ->
                   click_dist_sq mx my c <= click_dist_sq mx my q)
    | None =>
        closest = None /\
        forall q, In q ps -> clickable mx my q ->
                  best * best <= click_dist_sq mx my q
    end.
Proof.
  induction ps as [|p rest IH]; intros i closest best Hb;
    cbn [find_closest_from].
  - destruct closest as [[j c]|].
    + left. split; [reflexivity|]. intros q [].
    + split; [reflexivity|]. intros q [].
  - fold (click_dist_sq mx my p).
    assert (Hd : 0 <= click_dist_sq mx my p).
    { unfold click_dist_sq.
      pose proof (Rle_0_sqr (Particle.x p - mx)) as Hx.
      pose proof (Rle_0_sqr (Particle.y p - my)) as Hy.
      unfold Rsqr in Hx, Hy. lra. }
    destruct (Rltb (click_dist_sq mx my p) (best * best)
              && Rltb (click_dist_sq mx my p)
                      ((Particle.size p + 10) * (Particle.size p + 10))) eqn:Hc.
    + apply andb_prop in Hc. destruct Hc as [H1 H2].
      apply Rltb_true in H1. apply Rltb_true in H2.
      assert (Hsq : sqrt (click_dist_sq mx my p) * sqrt (click_dist_sq mx my p)
                    = click_dist_sq mx my p) by (apply sqrt_sqrt; exact Hd).
      specialize (IH (S i) (Some (i, p)) (sqrt (click_dist_sq mx my p))
                     (sqrt_pos _)).
      rewrite Hsq in IH.
      destruct (find_closest_from rest mx my (S i) (Some (i, p))
                  (sqrt (click_dist_sq mx my p))) as [[j c]|].
      * right. destruct IH as [[E Hall] | (Hij & Hnth & Hcl & Hlt & Hall)].
        -- injection E as <- <-.
           split; [lia|]. split; [now rewrite Nat.sub_diag|].
           split; [exact H2|]. split; [exact H1|].
           intros q [<-|Hq] Hcq; [lra | now apply Hall].
        -- split; [lia|]. split.
           { replace (j - i)%nat with (S (j - S i)) by lia. exact Hnth. }
           split; [exact Hcl|]. split; [lra|].
           intros q [<-|Hq] Hcq; [lra | now apply Hall].
      * destruct IH as [E _]. discriminate.
    + assert (Hp : clickable mx my p -> best * best <= click_dist_sq mx my p).
      { intros Hcp. apply andb_false_iff in Hc. destruct Hc as [Hc|Hc].
        - apply Rltb_false in Hc. exact Hc.
        - apply Rltb_false in Hc. unfold clickable in Hcp. lra. }
      specialize (IH (S i) closest best Hb).
      destruct (find_closest_from rest mx my (S i) closest best) as [[j c]|].
      * destruct IH as [[E Hall] | (Hij & Hnth & Hcl & Hlt & Hall)].
        -- left. split; [exact E|].
           intros q [<-|Hq] Hcq; [now apply Hp | now apply Hall].
        -- right. split; [lia|]. split.
           { replace (j - i)%nat with (S (j - S i)) by lia. exact Hnth. }
           split; [exact Hcl|]. split; [exact Hlt|].
           intros q [<-|Hq] Hcq; [specialize (Hp Hcq); lra | now apply Hall].
      * destruct IH as [E Hall]. split; [exact E|].
        intros q [<-|Hq] Hcq; [now apply Hp | now apply Hall].
Qed.

(** In exact arithmetic the search of lines 436-442 finds, among the
    particles whose squared distance from the click is below 60 * 60 and
    below the square of their size plus 10, one nearest to the click, and
    reports it by its place in the list; it finds nothing exactly when no
    particle qualifies. *)
Lemma find_closest_nearest_exact :
  forall (ps : list Particle.t) (mx my : R),
    match find_closest ps mx my with
    | Some (i, c) =>
        nth_error ps i = Some c /\
        clickable mx my c /\
        click_dist_sq mx my c < 60 * 60 /\
        forall q, In q ps -> clickable mx my q ->
                  click_dist_sq mx my c <= click_dist_sq mx my q
    | None =>
        forall q, In q ps -> clickable mx my q ->
                  60 * 60 <= click_dist_sq mx my q
    end.
Proof.
  intros ps mx my. unfold find_closest.
  pose proof (find_closest_from_spec mx my ps 0 None 60 ltac:(lra)) as H.
  destruct (find_closest_from ps mx my 0 None 60) as [[j c]|].
  - destruct H as [[E _] | (_ & Hnth & Hcl & Hlt & Hall)]; [discriminate|].
    rewrite Nat.sub_0_r in Hnth. repeat split; assumption.
  - exact (proj2 H).
Qed.

(** ** What the loop keeps *)

Lemma keeps_gret {A : Type} (a : A) : keeps (gret a).
Proof. intros g Hg. exact Hg. Qed.

Lemma keeps_modify (f : Game -> Game) :
  (forall g, game_inv g -> game_inv (f g)) -> keeps (modify f).
Proof. intros H g Hg. apply H. exact Hg. Qed.

Lemma keeps_gbind {A B : Type} (c : G A) (k : A -> G B) :
  keeps c -> (forall a, keeps (k a)) -> keeps (gbind c k).
Proof.
  intros Hc Hk g Hg. unfold gbind.
  specialize (Hc g Hg). destruct (c g) as [[a|e] g']; cbn [snd] in *.
  - now apply Hk.
  - exact Hc.
Qed.

Lemma keeps_core {A : Type} (c : M Particle.t A) :
  only_draws c -> keeps (core c).
Proof.
  intros Hc g Hg. unfold core. destruct (Hc (world g)) as [n Hn].
  destruct (c (world g)) as [[a|e] w']; cbn [snd] in *; subst w'; exact Hg.
Qed.

Lemma only_draws_random_random : only_draws random_random.
Proof. intros w. exists 1%nat. reflexivity. Qed.

Lemma only_draws_random_randint (a b : Z) : only_draws (random_randint a b).
Proof. intros w. exists 1%nat. reflexivity. Qed.

Lemma only_draws_init (x y : R) (kind : string) :
  only_draws (Particle.init x y kind).
Proof.
  intros w. destruct (dict_get PARTICLE_TYPES kind) as [d|] eqn:Hd.
  - exists 6%nat. now rewrite (init_spec x y kind d w Hd).
  - exists 2%nat. now rewrite (init_unknown_kind x y kind w Hd).
Qed.

Lemma only_draws_geometry_init (mx my : R) :
  only_draws (SacredGeometry.init mx my).
Proof. intros w. exists 3%nat. reflexivity. Qed.

Lemma only_draws_explosion_15 (x y : R) (color : RGB) :
  only_draws (create_explosion_at x y color 15).
Proof.
  intros w. exists 13%nat. unfold create_explosion_at.
  change (Z.to_nat 15) with 15%nat.
  now rewrite explosion_stops_at_first_shard.
Qed.

Lemma keeps_add_field (x y s r : R) (ft : string) (d : Z) :
  keeps (add_field x y s r ft d).
Proof.
  apply keeps_modify. intros g Hg.
  destruct (List.length (force_fields g) <? MAX_FORCE_FIELDS)%nat eqn:E;
    [|exact Hg].
  apply Nat.ltb_lt in E. destruct Hg as (H1 & H2).
  split; [|exact H2].
  cbn [set_force_fields force_fields]. rewrite length_app. cbn [List.length]. lia.
Qed.

Lemma keeps_add_geometry (mx my : R) : keeps (add_geometry mx my).
Proof.
  intros g Hg. unfold add_geometry.
  destruct (List.length (sacred_geometry g) <? MAX_GEOMETRY)%nat eqn:E;
    [|exact Hg].
  apply Nat.ltb_lt in E.
  unfold gbind, core, modify.
  destruct (only_draws_geometry_init mx my (world g)) as [n Hn].
  destruct (SacredGeometry.init mx my (world g)) as [[sg|e] w'];
    cbn [snd] in *; subst w'.
  - destruct Hg as (H1 & H2 & H3 & H4).
    repeat split; try assumption; try apply H4.
    cbn [set_sacred_geometry set_world sacred_geometry].
    rewrite length_app. cbn [List.length]. lia.
  - exact Hg.
Qed.

Lemma keeps_explode_closest (mx my : R) : keeps (explode_closest mx my).
Proof.
  intros g Hg. unfold explode_closest.
  destruct (find_closest (particles (world g)) mx my) as [[i c]|]; [|exact Hg].
  unfold gbind, core.
  destruct (only_draws_explosion_15 (Particle.x c) (Particle.y c)
              (Particle.color c) (world g)) as [n Hn].
  assert (Hr : fst (create_explosion_at (Particle.x c) (Particle.y c)
                      (Particle.color c) 15 (world g))
               = Raise (AttributeError "drag")).
  { unfold create_explosion_at. change (Z.to_nat 15) with 15%nat.
    now rewrite explosion_stops_at_first_shard. }
  destruct (create_explosion_at (Particle.x c) (Particle.y c)
              (Particle.color c) 15 (world g)) as [o w'].
  cbn [fst snd] in *. subst o w'. exact Hg.
Qed.

Lemma keeps_handle_keydown (k : key) : keeps (handle_keydown k).
Proof.
  destruct k; cbn [handle_keydown];
    try (apply keeps_gret);
    try (apply keeps_modify; intros g (H1 & H2 & H3 & H4 & H5 & H6);
         repeat split; cbn; try assumption; try apply H4; try lia; try lra;
         auto 6; fail).
  - (* K_LEFTBRACKET *)
    apply keeps_modify. intros g (H1 & H2 & H3 & H4 & H5 & H6).
    repeat split; cbn -[Rmax]; try assumption.
    + apply Rmax_l.
    + apply Rmax_lub; lra.
  - (* K_RIGHTBRACKET *)
    apply keeps_modify. intros g (H1 & H2 & H3 & H4 & H5 & H6).
    repeat split; cbn -[Rmin]; try assumption.
    + apply Rmin_glb; lra.
    + apply Rmin_l.
Qed.

Lemma keeps_frame_only (f : Game -> Game) :
  (forall g, world (f g) = world g /\ force_fields (f g) = force_fields g /\
             sacred_geometry (f g) = sacred_geometry g /\
             current_particle_type (f g) = current_particle_type g) ->
  keeps (modify f).
Proof.
  intros H. apply keeps_modify. intros g Hg.
  destruct (H g) as (E1 & E2 & E3 & E4).
  unfold game_inv. rewrite E1, E2, E3, E4. exact Hg.
Qed.

Lemma keeps_handle_event (ctrl : bool) (e : event) : keeps (handle_event ctrl e).
Proof.
  destruct e as [|k|button mx my|button|mx my|]; cbn [handle_event].
  - apply keeps_frame_only. intros g. repeat split.
  - apply keeps_handle_keydown.
  - apply keeps_gbind; [apply keeps_frame_only; intros g; repeat split|].
    intros _.
    destruct ((button =? 1)%Z && ctrl); [apply keeps_explode_closest|].
    destruct (button =? 1)%Z.
    { apply keeps_gbind; [apply keeps_frame_only; intros g; repeat split|].
      intros _ g Hg. now apply keeps_add_field. }
    destruct (button =? 3)%Z.
    { apply keeps_gbind; [apply keeps_frame_only; intros g; repeat split|].
      intros _ g Hg. now apply keeps_add_field. }
    destruct (button =? 2)%Z; [|apply keeps_gret].
    apply keeps_gbind; [apply keeps_frame_only; intros g; repeat split|].
    intros _. apply keeps_gbind; [intros g Hg; now apply keeps_add_field|].
    intros _. apply keeps_add_geometry.
  - apply keeps_frame_only. intros g.
    destruct (button =? 1)%Z; [|destruct (button =? 3)%Z]; repeat split.
  - apply keeps_frame_only. intros g. repeat split.
  - apply keeps_gret.
Qed.

Lemma keeps_handle_events (ctrl : bool) (es : list event) :
  keeps (handle_events ctrl es).
Proof.
  induction es as [|e es IH]; cbn [handle_events].
  - apply keeps_gret.
  - apply keeps_gbind; [apply keeps_handle_event | intros _; exact IH].
Qed.

Lemma keeps_continuous_fields : keeps continuous_fields.
Proof.
  unfold continuous_fields.
  repeat (apply keeps_gbind; [|intros _]);
    intros g Hg;
    match goal with
    | |- context [if ?c then _ else _] => destruct c
    end; try exact Hg; now apply keeps_add_field.
Qed.

Lemma keeps_spawn : keeps spawn.
Proof.
  intros g Hg. unfold spawn.
  destruct (List.length (particles (world g)) <? MAX_PARTICLES)%nat eqn:E;
    [|exact Hg].
  apply Nat.ltb_lt in E.
  (* the state before the append has the same particles, so is still below the cap *)
  assert (Hstrong :
    forall (c : G unit),
      (forall g0, game_inv g0 ->
                  (List.length (particles (world g0)) < MAX_PARTICLES)%nat ->
                  game_inv (snd (c g0))) ->
      game_inv (snd (c g))) by (intros c Hc; now apply Hc).
  apply Hstrong. clear g Hg E Hstrong. intros g Hg E.
  unfold gbind at 1. unfold core at 1.
  destruct (only_draws_random_random (world g)) as [n1 Hn1].
  destruct (random_random (world g)) as [[r|e] w1]; cbn [snd] in Hn1; subst w1;
    [|exact Hg].
  destruct (Rltb r (2 / 10)); [|exact Hg].
  set (g1 := set_world g (after_draws n1 (world g))).
  assert (Hg1 : game_inv g1) by exact Hg.
  assert (E1 : (List.length (particles (world g1)) < MAX_PARTICLES)%nat) by exact E.
  clearbody g1. clear g Hg E.
  unfold gbind at 1. unfold core at 1.
  destruct (only_draws_random_randint 50 (1000 - 50) (world g1)) as [n2 Hn2].
  destruct (random_randint 50 (1000 - 50) (world g1)) as [[px|e] w2];
    cbn [snd] in Hn2; subst w2; [|exact Hg1].
  set (g2 := set_world g1 (after_draws n2 (world g1))).
  assert (Hg2 : game_inv g2) by exact Hg1.
  assert (E2 : (List.length (particles (world g2)) < MAX_PARTICLES)%nat) by exact E1.
  clearbody g2. clear g1 Hg1 E1.
  unfold gbind at 1. unfold core at 1.
  destruct (only_draws_random_randint 50 (700 - 50) (world g2)) as [n3 Hn3].
  destruct (random_randint 50 (700 - 50) (world g2)) as [[py|e] w3];
    cbn [snd] in Hn3; subst w3; [|exact Hg2].
  set (g3 := set_world g2 (after_draws n3 (world g2))).
  assert (Hg3 : game_inv g3) by exact Hg2.
  assert (E3 : (List.length (particles (world g3)) < MAX_PARTICLES)%nat) by exact E2.
  clearbody g3. clear g2 Hg2 E2.
  unfold gbind at 1. cbn [fst snd].
  unfold gbind, core, modify.
  destruct (dict_get PARTICLE_TYPES (current_particle_type g3)) as [d|] eqn:Hd.
  - rewrite (init_spec (IZR px) (IZR py) (current_particle_type g3) d (world g3) Hd).
    cbn [snd].
    destruct Hg3 as (H1 & H2 & H3 & H4 & H5 & H6).
    unfold game_inv.
    cbn [set_world set_particles world particles force_fields sacred_geometry
         current_particle_type particle_size_multiplier after_draws].
    repeat split; try assumption; try apply H4.
    + rewrite length_app. cbn [List.length]. lia.
    + apply Forall_app. split; [exact H6|].
      constructor; [|constructor]. cbn [Particle.max_energy]. lia.
  - rewrite (init_unknown_kind (IZR px) (IZR py) (current_particle_type g3)
               (world g3) Hd).
    cbn [snd]. exact Hg3.
Qed.

Lemma prune_geometry_length (gs : list SacredGeometry.t) :
  (List.length (prune_geometry gs) <= List.length gs)%nat.
Proof.
  induction gs as [|g gs IH]; cbn [prune_geometry]; [lia|].
  unfold SacredGeometry.draw.
  destruct (Rgtb _ _); cbn [List.length]; lia.
Qed.

Lemma prune_fields_length (fs : list ForceField.t) :
  (List.length (prune_fields fs) <= List.length fs)%nat.
Proof.
  induction fs as [|f fs IH]; cbn [prune_fields]; [lia|].
  destruct (ForceField.update f) as [f' alive].
  destruct alive; cbn [List.length]; lia.
Qed.

Lemma prune_particles_from_kept (turb : bool) (fs : list ForceField.t)
      (all : list Particle.t) (dt : R) (ps kept : list Particle.t) :
  prune_particles_from turb fs all dt ps = Ok kept ->
  (List.length kept <= List.length ps)%nat /\
  (Forall (fun p => Particle.max_energy p <> 0%Z) ps ->
   Forall (fun p => Particle.max_energy p <> 0%Z) kept).
Proof.
  revert kept. induction ps as [|p ps IH]; intros kept E;
    cbn [prune_particles_from] in E.
  - injection E as <-. split; [lia | intros; constructor].
  - destruct (update_frame turb p fs all dt) as (_ & Hme & _).
    destruct (Particle.update turb p fs all dt) as [p' [dead|e]]; [|discriminate].
    cbn [fst] in Hme.
    destruct (prune_particles_from turb fs all dt ps) as [kept'|e]; [|discriminate].
    destruct (IH kept' eq_refl) as [IHl IHf].
    injection E as <-.
    split.
    + destruct (negb dead); cbn [List.length]; lia.
    + intros Hall. inversion Hall as [|? ? Hp Hps]; subst.
      destruct (negb dead); [constructor; [rewrite Hme; exact Hp|]|]; now apply IHf.
Qed.

Lemma keeps_advance (dt : R) : keeps (advance dt).
Proof.
  unfold advance.
  apply keeps_gbind.
  { apply keeps_modify. intros g (H1 & H2 & H3 & H4).
    repeat split; try assumption; try apply H4.
    cbn [set_sacred_geometry sacred_geometry].
    pose proof (prune_geometry_length (sacred_geometry g)). lia. }
  intros _. apply keeps_gbind.
  { apply keeps_modify. intros g (H1 & H2 & H3 & H4).
    repeat split; try assumption; try apply H4.
    cbn [set_force_fields force_fields].
    pose proof (prune_fields_length (force_fields g)) as Hl. lia. }
  intros _ g Hg.
  destruct (prune_particles (turbulence_active g) (force_fields g) dt
              (particles (world g))) as [kept|e] eqn:E.
  2:{ destruct Hg as (_ & _ & _ & _ & _ & H6).
      destruct (prune_particles_returns (turbulence_active g) (force_fields g)
                  dt (particles (world g)) H6) as [kept Hk].
      rewrite Hk in E. discriminate. }
  unfold prune_particles in E.
  destruct (prune_particles_from_kept _ _ _ _ _ _ E) as [Hl Hf].
  destruct Hg as (H1 & H2 & H3 & H4 & H5 & H6). cbn [snd].
  unfold game_inv.
  cbn [set_world set_particles world particles force_fields sacred_geometry
       current_particle_type particle_size_multiplier].
  repeat split; try assumption; try apply H4; [lia | now apply Hf].
Qed.

Lemma keeps_handle_arrows (inp : Input) : keeps (handle_arrows inp).
Proof.
  intros g Hg. unfold handle_arrows.
  destruct (handle_arrow (up_held inp) (timer_up g) (current_time inp))
    as [[[]|e] up']; [|exact Hg].
  destruct (handle_arrow (down_held inp) (timer_down g) (current_time inp))
    as [[[]|e] down']; exact Hg.
Qed.

(** Every turn of the loop, however it ends, leaves at most 60 fields, at
    most 400 particles and at most 8 patterns, a size multiplier in
    [0.2, 3.0], a selected kind that is a key of [PARTICLE_TYPES] and no
    particle with a zero [max_energy], provided it started that way. *)
Theorem frame_keeps_caps :
  forall (inp : Input) (g : Game),
    game_inv g -> game_inv (snd (frame inp g)).
Proof.
  intros inp. change (keeps (frame inp)). unfold frame.
  apply keeps_gbind; [intros g Hg; exact Hg|]. intros dt.
  apply keeps_gbind; [apply keeps_handle_arrows|]. intros _.
  apply keeps_gbind; [apply keeps_handle_events|]. intros _.
  apply keeps_gbind; [apply keeps_continuous_fields|]. intros _.
  apply keeps_gbind; [apply keeps_spawn|]. intros _.
  apply keeps_advance.
Qed.

(** ** What ends the loop *)

(** The SPACE key always ends the loop with [NameError]: the handler calls
    [spawn_particle_burst], which the module never defines; so does holding
    the UP or the DOWN arrow in a turn whose [key_timers] has no entry for
    it, through [adjust_force_strength], before any event is handled. *)
Theorem undefined_names_end_the_loop :
  (forall (ctrl : bool) (g : Game),
      handle_event ctrl (KEYDOWN K_SPACE) g
      = (Crash (NameError "spawn_particle_burst"), g)) /\
  (forall (inp : Input) (g : Game),
      up_held inp = true -> timer_up g = None ->
      frame inp g =
      (Crash (NameError "adjust_force_strength"),
       set_timers (set_last_time g (current_time inp))
         (Some (current_time inp + 200)%Z) (timer_down g))) /\
  (forall (inp : Input) (g : Game),
      up_held inp = false -> down_held inp = true -> timer_down g = None ->
      frame inp g =
      (Crash (NameError "adjust_force_strength"),
       set_timers (set_last_time g (current_time inp))
         None (Some (current_time inp + 200)%Z))).
Proof.
  split; [|split].
  - intros ctrl g. reflexivity.
  - intros inp g Hup Ht. unfold frame, gbind at 1. cbn [fst snd].
    unfold gbind at 1, handle_arrows.
    cbn [set_last_time timer_up timer_down].
    rewrite Hup, Ht. reflexivity.
  - intros inp g Hup Hdown Ht. unfold frame, gbind at 1. cbn [fst snd].
    unfold gbind at 1, handle_arrows.
    cbn [set_last_time timer_up timer_down].
    rewrite Hup, Hdown, Ht. reflexivity.
Qed.

(** A click with the left button and Ctrl held on a particle the search
    finds ends the loop: the explosion raises [AttributeError] at its first
    shard, so the particle is not removed, no shard is added, and only the
    mouse position and thirteen draws have changed.  A click that finds no
    particle only records the mouse position. *)
Theorem ctrl_click_on_particle_ends_the_loop :
  forall (g : Game) (mx my : R),
    match find_closest (particles (world g)) mx my with
    | Some _ =>
        handle_event true (MOUSEBUTTONDOWN 1 mx my) g =
        (Crash (Core (AttributeError "drag")),
         set_world (set_mouse_pos g (mx, my)) (after_draws 13 (world g)))
    | None =>
        handle_event true (MOUSEBUTTONDOWN 1 mx my) g =
        (Done tt, set_mouse_pos g (mx, my))
    end.
Proof.
  intros g mx my.
  assert (Hw : particles (world (set_mouse_pos g (mx, my)))
               = particles (world g)) by reflexivity.
  destruct (find_closest (particles (world g)) mx my) as [[i c]|] eqn:E;
    cbn [handle_event Z.eqb Pos.eqb andb];
    unfold gbind at 1; unfold modify at 1; unfold explode_closest;
    rewrite Hw, E.
  - unfold gbind, core.
    unfold create_explosion_at. change (Z.to_nat 15) with 15%nat.
    rewrite explosion_stops_at_first_shard. reflexivity.
  - reflexivity.
Qed.

(** ** When a turn completes *)

Lemma handle_keydown_done (k : key) (g : Game) :
  k <> K_SPACE -> fst (handle_keydown k g) = Done tt.
Proof. destruct k; intros H; try reflexivity. contradiction. Qed.

Lemma add_geometry_done (mx my : R) (g : Game) :
  fst (add_geometry mx my g) = Done tt.
Proof.
  unfold add_geometry.
  destruct (List.length (sacred_geometry g) <? MAX_GEOMETRY)%nat; reflexivity.
Qed.

Lemma gbind_done {A B : Type} (c : G A) (k : A -> G B) (g : Game) (b : B) :
  (exists a, fst (c g) = Done a) ->
  (forall a g', fst (k a g') = Done b) ->
  fst (gbind c k g) = Done b.
Proof.
  intros [a Ha] Hk. unfold gbind.
  destruct (c g) as [[a'|e] g']; cbn [fst] in Ha; [apply Hk | discriminate].
Qed.

Lemma handle_event_done (e : event) (g : Game) :
  e <> KEYDOWN K_SPACE -> fst (handle_event false e g) = Done tt.
Proof.
  intros He.
  destruct e as [|k|button mx my|button|mx my|]; cbn [handle_event];
    try reflexivity.
  - apply handle_keydown_done. congruence.
  - rewrite andb_false_r.
    apply gbind_done; [eexists; reflexivity|]. intros _ g1.
    destruct (button =? 1)%Z; [reflexivity|].
    destruct (button =? 3)%Z; [reflexivity|].
    destruct (button =? 2)%Z; [|reflexivity].
    apply gbind_done; [eexists; reflexivity|]. intros _ g2.
    apply gbind_done; [eexists; reflexivity|]. intros _ g3.
    apply add_geometry_done.
Qed.

Lemma handle_events_done (es : list event) (g : Game) :
  Forall (fun e => e <> KEYDOWN K_SPACE) es ->
  fst (handle_events false es g) = Done tt.
Proof.
  intros H. revert g. induction H as [|e es He _ IH]; intros g;
    cbn [handle_events]; [reflexivity|].
  apply gbind_done; [exists tt; now apply handle_event_done|].
  intros _ g'. apply IH.
Qed.

Lemma continuous_fields_done (g : Game) : fst (continuous_fields g) = Done tt.
Proof.
  unfold continuous_fields.
  apply gbind_done.
  { exists tt. destruct (mouse_left g); reflexivity. }
  intros _ g1. apply gbind_done.
  { exists tt. destruct (mouse_right g1); reflexivity. }
  intros _ g2. destruct (mouse_middle g2); reflexivity.
Qed.

Lemma spawn_done (g : Game) :
  In (current_particle_type g) ["NORMAL"; "HEAVY"; "LIGHT"; "ENERGY"]%string ->
  fst (spawn g) = Done tt.
Proof.
  intros Hk. unfold spawn.
  destruct (List.length (particles (world g)) <? MAX_PARTICLES)%nat;
    [|reflexivity].
  unfold gbind at 1, core at 1, random_random. cbn [fst snd].
  destruct (Rltb _ (2 / 10)); [|reflexivity].
  unfold gbind at 1, core at 1, random_randint, random_below, bind, ret.
  cbn [fst snd set_world world].
  unfold gbind at 1, core at 1. cbn [fst snd set_world world].
  unfold gbind at 1. cbn [fst snd current_particle_type set_world].
  unfold gbind, core, modify.
  destruct (dict_get PARTICLE_TYPES (current_particle_type g)) as [d|] eqn:Hd.
  { match goal with
    | |- context [Particle.init ?a ?b ?k ?w] =>
        rewrite (init_spec a b k d w Hd)
    end. reflexivity. }
  exfalso.
  unfold PARTICLE_TYPES in Hd. cbn [dict_get] in Hd.
  cbn [In] in Hk.
  destruct Hk as [E|[E|[E|[E|[]]]]]; rewrite <- E in Hd; cbn in Hd;
    discriminate.
Qed.

Lemma gbind_done_keeps {A B : Type} (c : G A) (k : A -> G B) (g : Game) (b : B) :
  game_inv g -> keeps c ->
  (exists a, fst (c g) = Done a) ->
  (forall a g', game_inv g' -> fst (k a g') = Done b) ->
  fst (gbind c k g) = Done b.
Proof.
  intros Hg Hc [a Ha] Hk. unfold gbind.
  specialize (Hc g Hg).
  destruct (c g) as [[a'|e] g']; cbn [fst snd] in *; [now apply Hk | discriminate].
Qed.

Lemma handle_arrows_done (inp : Input) (g : Game) :
  up_held inp = false -> down_held inp = false ->
  fst (handle_arrows inp g) = Done tt.
Proof. intros Hu Hd. unfold handle_arrows. now rewrite Hu, Hd. Qed.

Lemma advance_done (dt : R) (g : Game) :
  game_inv g -> fst (advance dt g) = Done tt.
Proof.
  intros (_ & _ & _ & _ & _ & H6). unfold advance, gbind, modify.
  cbn [fst snd set_force_fields set_sacred_geometry world turbulence_active
       force_fields].
  destruct (prune_particles_returns (turbulence_active g)
              (prune_fields (force_fields g)) dt (particles (world g)) H6)
    as [kept Hk].
  now rewrite Hk.
Qed.

(** In the state transition of a turn (the drawing calls left out), a turn
    that starts within the caps, with neither arrow key held, Ctrl not held
    and no SPACE key among its events, runs to its end. *)
Theorem frame_completes :
  forall (inp : Input) (g : Game),
    game_inv g ->
    up_held inp = false -> down_held inp = false -> ctrl_held inp = false ->
    Forall (fun e => e <> KEYDOWN K_SPACE) (events inp) ->
    fst (frame inp g) = Done tt.
Proof.
  intros inp g Hg Hu Hd Hc He. unfold frame.
  apply gbind_done_keeps;
    [exact Hg | intros g0 H0; exact H0 | eexists; reflexivity |].
  intros dt g1 Hg1.
  apply gbind_done_keeps;
    [exact Hg1 | apply keeps_handle_arrows
     | exists tt; now apply handle_arrows_done |].
  intros _ g2 Hg2. rewrite Hc.
  apply gbind_done_keeps;
    [exact Hg2 | apply keeps_handle_events
     | exists tt; now apply handle_events_done |].
  intros _ g3 Hg3.
  apply gbind_done_keeps;
    [exact Hg3 | apply keeps_continuous_fields
     | exists tt; apply continuous_fields_done |].
  intros _ g4 Hg4.
  apply gbind_done_keeps;
    [exact Hg4 | apply keeps_spawn
     | exists tt; apply spawn_done; apply Hg4 |].
  intros _ g5 Hg5. now apply advance_done.
Qed.

(** *** A concrete state and turn *)

Lemma game0_inv : game_inv game0.
Proof.
  unfold game_inv, game0, MAX_FORCE_FIELDS, MAX_PARTICLES, MAX_GEOMETRY.
  cbn -[In]. repeat split; try lia; try lra.
  - left. reflexivity.
  - constructor; [cbn; lia | constructor].
Qed.

Lemma frame_keeps_caps_witness :
  game_inv game0 /\
  game_inv (snd (frame (mkInput 16 false false false
                          [MOUSEBUTTONDOWN 1 10 20; KEYDOWN K_RIGHTBRACKET])
                   game0)).
Proof.
  split; [exact game0_inv|].
  apply frame_keeps_caps. exact game0_inv.
Defined.

Lemma frame_completes_witness :
  fst (frame (mkInput 16 false false false
                [MOUSEBUTTONDOWN 1 10 20; KEYDOWN K_RIGHTBRACKET]) game0)
  = Done tt.
Proof.
  apply frame_completes; try reflexivity; [exact game0_inv|].
  repeat constructor; discriminate.
Defined.

Lemma undefined_names_end_the_loop_witness :
  frame (mkInput 16 true false false []) game0 =
  (Crash (NameError "adjust_force_strength"),
   set_timers (set_last_time game0 16) (Some 216%Z) None).
Proof.
  exact (proj1 (proj2 undefined_names_end_the_loop)
           (mkInput 16 true false false []) game0 eq_refl eq_refl).
Defined.

Lemma find_closest_particle0 :
  find_closest [particle0] 10 20 = Some (0%nat, particle0).
Proof.
  unfold find_closest. cbn [find_closest_from particle0 Particle.x Particle.y
                            Particle.size].
  replace (Rltb ((10 - 10) * (10 - 10) + (20 - 20) * (20 - 20)) (60 * 60))
    with true by (symmetry; apply Rltb_true; lra).
  replace (Rltb ((10 - 10) * (10 - 10) + (20 - 20) * (20 - 20))
             ((3 + 10) * (3 + 10)))
    with true by (symmetry; apply Rltb_true; lra).
  reflexivity.
Qed.

Lemma ctrl_click_on_particle_ends_the_loop_witness :
  handle_event true (MOUSEBUTTONDOWN 1 10 20) game0 =
  (Crash (Core (AttributeError "drag")),
   set_world (set_mouse_pos game0 (10, 20)) (after_draws 13 (world game0))).
Proof.
  pose proof (ctrl_click_on_particle_ends_the_loop game0 10 20) as H.
  change (particles (world game0)) with [particle0] in H.
  rewrite find_closest_particle0 in H. exact H.
Defined.



(** ** The particle prune *)

Lemma prune_particles_from_young (turb : bool) (fs : list ForceField.t)
      (all : list Particle.t) (dt : R) (ps : list Particle.t) :
  Forall (fun p => Particle.max_energy p <> 0%Z /\ (0 < Particle.energy p)%Z) ps ->
  prune_particles_from turb fs all dt ps =
  Ok (map (fun p => fst (Particle.update turb p fs all dt))
          (filter (fun p => (Particle.age p + 1 <=? Particle.max_age p)%Z) ps)).
Proof.
  induction 1 as [|p ps [Hm He] _ IH]; cbn [prune_particles_from filter map];
    [reflexivity|].
  pose proof (update_result turb p fs all dt) as Hr.
  replace (Particle.max_energy p =? 0)%Z with false in Hr
    by (symmetry; apply Z.eqb_neq; exact Hm).
  replace (Particle.energy p <=? 0)%Z with false in Hr
    by (symmetry; apply Z.leb_gt; exact He).
  rewrite orb_false_r in Hr.
  destruct (Particle.update turb p fs all dt) as [p' o] eqn:Eu.
  cbn [snd fst] in *. subst o. rewrite IH.
  rewrite Z.gtb_ltb, <- Z.leb_antisym.
  destruct (Particle.age p + 1 <=? Particle.max_age p)%Z;
    cbn [map negb]; rewrite ?Eu; reflexivity.
Qed.

(** For particles with a non-zero [max_energy] and positive energy (every
    particle the constructor builds), the particle prune returns, and what
    it returns is the old list, in its order, without the particles whose
    age would pass [max_age], each survivor as its own [update] left it. *)
Theorem prune_particles_keeps_the_young :
  forall (turb : bool) (fs : list ForceField.t) (dt : R) (ps : list Particle.t),
    Forall (fun p => Particle.max_energy p <> 0%Z /\ (0 < Particle.energy p)%Z) ps ->
    prune_particles turb fs dt ps =
    Ok (map (fun p => fst (Particle.update turb p fs ps dt))
            (filter (fun p => (Particle.age p + 1 <=? Particle.max_age p)%Z) ps)).
Proof.
  intros turb fs dt ps H. unfold prune_particles.
  now apply prune_particles_from_young.
Qed.

Lemma prune_particles_keeps_the_young_witness :
  prune_particles false [] 0 [particle0] =
  Ok [fst (Particle.update false particle0 [] [particle0] 0)].
Proof.
  assert (H : Forall (fun p => Particle.max_energy p <> 0%Z
                               /\ (0 < Particle.energy p)%Z) [particle0]).
  { constructor; [cbn; lia | constructor]. }
  rewrite (prune_particles_keeps_the_young false [] 0 [particle0] H).
  reflexivity.
Defined.

(** ** Seeding *)

Lemma rng_ok_after_draws {P : Type} (n : nat) (w : World P) :
  rng_ok w -> rng_ok (after_draws n w).
Proof. intros H. exact H. Qed.

Lemma seed_body_spec (w : World Particle.t) :
  rng_ok w -> 0 <= particle_size_multiplier w ->
  exists p,
    seed_body w = (Ok tt, set_particles (after_draws 8 w) (particles w ++ [p])) /\
    seeded p.
Proof.
  intros Hw Hm.
  unfold seed_body, bind at 1, random_randint, random_below, bind at 1, ret.
  cbn [fst snd]. unfold bind at 1. cbn [fst snd]. unfold bind.
  set (w2 := next_draw (next_draw w)).
  set (px := (0 + rnd_below w (draws w) (1000 - 0 + 1))%Z).
  set (py := (0 + rnd_below (next_draw w) (draws (next_draw w)) (700 - 0 + 1))%Z).
  assert (Hpx : (0 <= px <= 1000)%Z).
  { destruct Hw as [_ Hb]. specialize (Hb (draws w) (1000 - 0 + 1)%Z ltac:(lia)).
    unfold px. lia. }
  assert (Hpy : (0 <= py <= 700)%Z).
  { destruct Hw as [_ Hb].
    specialize (Hb (draws (next_draw w)) (700 - 0 + 1)%Z ltac:(lia)).
    unfold py. cbn [rnd_below next_draw] in *. lia. }
  assert (Hw2 : rng_ok w2) by exact Hw.
  assert (Hm2 : 0 <= particle_size_multiplier w2) by exact Hm.
  pose proof (init_spec (IZR px) (IZR py) "NORMAL"
                (mkTypeData 1 (100, 200, 255)%Z (98 / 100)) w2 eq_refl) as E.
  cbv zeta in E. rewrite E.
  eexists. split; [reflexivity|].
  pose proof (init_inv _ _ _ _ _ _ Hw2 Hm2 E) as Hinv.
  split; [exact Hinv|].
  cbn [Particle.x Particle.y Particle.type_data Particle.energy
       Particle.max_energy Particle.age].
  unfold WIDTH, HEIGHT.
  repeat split; try reflexivity.
  - apply IZR_le. lia.
  - apply IZR_le. lia.
  - apply IZR_le. lia.
  - apply IZR_le. lia.
Qed.

Lemma for_range_seed (n : nat) (w : World Particle.t) :
  rng_ok w -> 0 <= particle_size_multiplier w ->
  exists ps,
    for_range n seed_body w =
      (Ok tt, set_particles (after_draws (8 * n) w) (particles w ++ ps)) /\
    List.length ps = n /\ Forall seeded ps.
Proof.
  revert w. induction n as [|n IH]; intros w Hw Hm.
  - exists []. cbn [for_range Nat.mul]. rewrite app_nil_r.
    split; [destruct w; reflexivity|]. split; [reflexivity | constructor].
  - destruct (seed_body_spec w Hw Hm) as (p & Ep & Hp).
    cbn [for_range]. unfold bind. rewrite Ep.
    destruct (IH (set_particles (after_draws 8 w) (particles w ++ [p])) Hw Hm)
      as (ps & Eps & Hlen & Hall).
    rewrite Eps. exists (p :: ps).
    split.
    + unfold set_particles, after_draws.
      cbn [rnd_unit rnd_below draws particle_size_multiplier particles].
      rewrite <- app_assoc. cbn [app].
      replace (8 * n + (8 + draws w))%nat with (8 * S n + draws w)%nat by lia.
      reflexivity.
    + split; [cbn [List.length]; lia | constructor; assumption].
Qed.

(** Seeding returns with exactly 120 particles, after 960 draws; each is of
    kind NORMAL, lies inside the window, has energy 100 and age 0 and
    satisfies the size-and-trail invariant. *)
Theorem seed_particles_spec :
  forall w : World Particle.t,
    rng_ok w -> 0 <= particle_size_multiplier w -> particles w = [] ->
    exists ps,
      seed_particles w = (Ok tt, set_particles (after_draws 960 w) ps) /\
      List.length ps = 120%nat /\ Forall seeded ps.
Proof.
  intros w Hw Hm Hnil.
  destruct (for_range_seed 120 w Hw Hm) as (ps & E & Hlen & Hall).
  exists ps. unfold seed_particles. rewrite E, Hnil.
  split; [reflexivity|]. split; assumption.
Qed.

Lemma seed_particles_spec_witness :
  exists ps,
    seed_particles world0 = (Ok tt, set_particles (after_draws 960 world0) ps) /\
    List.length ps = 120%nat.
Proof.
  assert (Hw : rng_ok world0) by (split; intros; cbn; [lra | lia]).
  assert (Hm : 0 <= particle_size_multiplier world0) by (cbn; lra).
  destruct (seed_particles_spec world0 Hw Hm eq_refl) as (ps & E & Hlen & _).
  exists ps. split; assumption.
Defined.


(** * Rounding *)

(** ** The speed limit in rounded arithmetic *)

Lemma Rabs_sq (x : R) : Rabs x * Rabs x = x * x.
Proof. unfold Rabs. destruct (Rcase_abs x); ring. Qed.

Lemma sq_le_of_abs (x y : R) : Rabs x <= y -> x * x <= y * y.
Proof.
  intros H. rewrite <- Rabs_sq. pose proof (Rabs_pos x).
  apply Rmult_le_compat; lra.
Qed.

(** [(|X| + e)^2 <= X^2 (1 + e) + e (1 + e)]: an absolute error [e] on [X]
    costs a factor [1 + e] and a term [e (1 + e)] on the square. *)
Lemma square_with_slack (X e : R) :
  0 <= e -> (Rabs X + e) * (Rabs X + e) <= X * X * (1 + e) + e * (1 + e).
Proof.
  intros He.
  pose proof (Rabs_sq X) as H.
  assert (H2 : 2 * Rabs X <= X * X + 1).
  { rewrite <- H. pose proof (Rle_0_sqr (Rabs X - 1)) as H1.
    unfold Rsqr in H1. lra. }
  replace ((Rabs X + e) * (Rabs X + e))
    with (X * X + e * (2 * Rabs X) + e * e) by (rewrite <- H; ring).
  assert (H3 : e * (2 * Rabs X) <= e * (X * X + 1))
    by (apply Rmult_le_compat_l; assumption).
  lra.
Qed.

Lemma abs_le_slack (y X e : R) :
  0 <= e -> Rabs y <= Rabs X + e -> y * y <= X * X * (1 + e) + e * (1 + e).
Proof.
  intros He Hy.
  apply Rle_trans with ((Rabs X + e) * (Rabs X + e)).
  - now apply sq_le_of_abs.
  - now apply square_with_slack.
Qed.

Lemma shrink1 (x u e : R) :
  1 <= x -> 0 <= u -> 0 <= e <= u / 1000 ->
  x * (1 - 1001 / 1000 * u) <= x * (1 - u) - e.
Proof.
  intros. assert (0 <= u * (x - 1)) by (apply Rmult_le_pos; lra). lra.
Qed.

Lemma shrink2 (x u e : R) :
  2 <= x -> 0 <= u -> 0 <= e <= u / 1000 ->
  x * (1 - 1001 / 1000 * u) <= x * (1 - u) - 2 * e.
Proof.
  intros. assert (0 <= u * (x - 2)) by (apply Rmult_le_pos; lra). lra.
Qed.

Lemma factor_bound (u e : R) :
  0 <= u <= 1 / 1000 -> 0 <= e <= u / 1000 ->
  1 <= (1 + u) * (1 + u) * (1 + e) <= 1 + 201 / 100 * u.
Proof.
  intros Hu He.
  assert (H1 : 0 <= u * u <= u / 1000).
  { split; [apply Rmult_le_pos; lra|].
    assert (u * u <= u * (1 / 1000)) by (apply Rmult_le_compat_l; lra). lra. }
  assert (H2 : 0 <= (2 * u + u * u) * e <= u / 1000).
  { split; [apply Rmult_le_pos; lra|].
    assert ((2 * u + u * u) * e <= 1 * (u / 1000))
      by (apply Rmult_le_compat; lra). lra. }
  replace ((1 + u) * (1 + u) * (1 + e))
    with (1 + 2 * u + u * u + e + (2 * u + u * u) * e) by ring.
  lra.
Qed.

Lemma fourth_power (u : R) :
  0 <= u <= 1 / 1000 ->
  let d := 1 - 1001 / 1000 * u in
  1 - 4005 / 1000 * u <= d * d * d * d.
Proof.
  intros Hu d.
  assert (Hd2 : 1 - 2002 / 1000 * u <= d * d).
  { unfold d. pose proof (Rle_0_sqr (1001 / 1000 * u)) as H. unfold Rsqr in H. lra. }
  assert (Hd4 : (1 - 2002 / 1000 * u) * (1 - 2002 / 1000 * u) <= d * d * (d * d)).
  { apply Rmult_le_compat; lra. }
  pose proof (Rle_0_sqr (2002 / 1000 * u)) as H. unfold Rsqr in H. lra.
Qed.

(** From [s] down to [S = a^2 + b^2] and up to [r^2]. *)
Lemma chain_lower (S t s w r d : R) :
  0 <= S -> 0 <= t -> 0 <= w -> 0 <= d ->
  S * d <= t -> t * d <= s -> w * w = s -> w * d <= r ->
  S * d * d * d * d <= r * r.
Proof.
  intros HS Ht Hw Hd H1 H2 Hww H3.
  assert (Hwd : 0 <= w * d) by (apply Rmult_le_pos; assumption).
  assert (H4 : w * d * (w * d) <= r * r) by (apply Rmult_le_compat; lra).
  assert (Hdd : 0 <= d * d) by (apply Rmult_le_pos; assumption).
  assert (H5 : t * d * (d * d) <= s * (d * d))
    by (apply Rmult_le_compat_r; assumption).
  assert (Hddd : 0 <= d * d * d) by (apply Rmult_le_pos; assumption).
  assert (H6 : S * d * (d * d * d) <= t * (d * d * d))
    by (apply Rmult_le_compat_r; assumption).
  replace (w * d * (w * d)) with (w * w * (d * d)) in H4 by ring.
  rewrite Hww in H4. lra.
Qed.

Lemma quotient_square (S r u : R) :
  0 <= u <= 1 / 1000 -> 0 <= S -> 0 < r ->
  S * (1 - 4005 / 1000 * u) <= r * r ->
  S * (15 / r * (15 / r)) <= 225 * (1 + 41 / 10 * u).
Proof.
  intros Hu HS Hr H.
  set (g := 15 / r).
  assert (Hg : g * g * (r * r) = 225) by (unfold g; field; lra).
  assert (Hgg : 0 <= g * g) by (pose proof (Rle_0_sqr g) as H0; exact H0).
  assert (H1 : g * g * (S * (1 - 4005 / 1000 * u)) <= g * g * (r * r))
    by (apply Rmult_le_compat_l; assumption).
  assert (HSg : 0 <= S * (g * g)) by (apply Rmult_le_pos; assumption).
  assert (Huu : 0 <= u * u <= u / 1000).
  { split; [apply Rmult_le_pos; lra|].
    assert (u * u <= u * (1 / 1000)) by (apply Rmult_le_compat_l; lra). lra. }
  assert (H3 : 1 <= (1 + 41 / 10 * u) * (1 - 4005 / 1000 * u)).
  { replace ((1 + 41 / 10 * u) * (1 - 4005 / 1000 * u))
      with (1 + 95 / 1000 * u - 41 / 10 * (4005 / 1000) * (u * u)) by field.
    lra. }
  assert (H4 : S * (g * g) * 1
               <= S * (g * g) * ((1 + 41 / 10 * u) * (1 - 4005 / 1000 * u)))
    by (apply Rmult_le_compat_l; assumption).
  assert (H5 : (g * g * (S * (1 - 4005 / 1000 * u))) * (1 + 41 / 10 * u)
               <= 225 * (1 + 41 / 10 * u)).
  { apply Rmult_le_compat_r; lra. }
  lra.
Qed.

Section RoundingError.

Variables (rnd : R -> R) (u eta Omega : R).
Hypothesis Hu : 0 <= u <= 1 / 1000.
Hypothesis Heta : 0 <= eta <= u / 1000.
Hypothesis HOmega : eta * Omega <= 4 * u.
Hypothesis Hrnd : rounds_within rnd u eta Omega.

Lemma rnd_near (x : R) :
  Rabs x <= Omega ->
  x - (u * Rabs x + eta) <= rnd x <= x + (u * Rabs x + eta).
Proof.
  intros H. pose proof (Hrnd x H) as H1.
  revert H1. unfold Rabs at 1. destruct (Rcase_abs (rnd x - x)); lra.
Qed.

Lemma rnd_abs (x : R) :
  Rabs x <= Omega -> Rabs (rnd x) <= Rabs x * (1 + u) + eta.
Proof.
  intros H. destruct (rnd_near x H) as [Hlo Hhi].
  pose proof (Rabs_pos x) as Hp.
  assert (Hup : 0 <= u * Rabs x) by (apply Rmult_le_pos; lra).
  apply Rabs_le. revert Hlo Hhi Hp Hup. unfold Rabs.
  destruct (Rcase_abs x); intros; lra.
Qed.

Lemma rnd_pos (x : R) :
  0 <= x -> x <= Omega ->
  x * (1 - u) - eta <= rnd x <= x * (1 + u) + eta.
Proof.
  intros H0 H. assert (Ha : Rabs x = x) by (apply Rabs_right; lra).
  destruct (rnd_near x) as [Hlo Hhi]; [rewrite Ha; exact H|].
  rewrite Ha in Hlo, Hhi. lra.
Qed.


(** The velocity after the rescale of lines 168-170. *)
Lemma rescale_bound (a b : R) :
  4 * (a * a + b * b) + 1000 <= Omega ->
  let s := rnd (rnd (a * a) + rnd (b * b)) in
  225 < s ->
  let c := rnd (15 / rnd (sqrt s)) in
  rnd (a * c) * rnd (a * c) + rnd (b * c) * rnd (b * c) <= 225 + 1900 * u.
Proof.
  intros HS s Hs c.
  pose proof (Rle_0_sqr a) as Haa. pose proof (Rle_0_sqr b) as Hbb.
  unfold Rsqr in Haa, Hbb.
  set (S := a * a + b * b) in *.
  assert (HS0 : 0 <= S) by (unfold S; lra).
  assert (HeS : eta * S <= u).
  { assert (eta * (4 * S + 1000) <= eta * Omega)
      by (apply Rmult_le_compat_l; lra).
    assert (0 <= eta * 1000) by lra.
    lra. }
  (* the squares and their sum *)
  destruct (rnd_pos (a * a)) as [Hp1 Hp2]; [lra | unfold S in HS; lra |].
  destruct (rnd_pos (b * b)) as [Hq1 Hq2]; [lra | unfold S in HS; lra |].
  set (p := rnd (a * a)) in *. set (q := rnd (b * b)) in *.
  set (t := p + q) in *.
  assert (HSu : 0 <= S * u <= S / 1000).
  { split; [apply Rmult_le_pos; lra|].
    assert (S * u <= S * (1 / 1000)) by (apply Rmult_le_compat_l; lra). lra. }
  assert (Ht1 : S * (1 - u) - 2 * eta <= t) by (unfold t, S; lra).
  assert (Ht2 : t <= S * (1 + u) + 2 * eta) by (unfold t, S; lra).
  assert (HtO : Rabs t <= Omega) by (apply Rabs_le; lra).
  destruct (rnd_near t HtO) as [Hs1 Hs2]. fold s in Hs1, Hs2.
  assert (Htpos : 0 < t).
  { destruct (Rle_or_lt t 0) as [Hn|Hp]; [|exact Hp].
    rewrite Rabs_left1 in Hs2 by exact Hn.
    assert (u * - t <= 1 / 1000 * - t) by (apply Rmult_le_compat_r; lra).
    lra. }
  rewrite (Rabs_right t) in Hs1, Hs2 by lra.
  assert (Htu : 0 <= u * t <= t / 1000).
  { split; [apply Rmult_le_pos; lra|].
    assert (u * t <= 1 / 1000 * t) by (apply Rmult_le_compat_r; lra). lra. }
  assert (Ht224 : 224 <= t) by lra.
  assert (HS223 : 223 <= S) by lra.
  (* the square root *)
  assert (Hw : sqrt s * sqrt s = s) by (apply sqrt_sqrt; lra).
  assert (Hw15 : 15 < sqrt s).
  { replace 15 with (sqrt 225).
    - apply sqrt_lt_1; lra.
    - replace 225 with (15 * 15) by lra. apply sqrt_square. lra. }
  set (w := sqrt s) in *.
  assert (HwO : w <= Omega).
  { assert (w * 1 <= w * w) by (apply Rmult_le_compat_l; lra). lra. }
  destruct (rnd_pos w) as [Hr1 _]; [lra | exact HwO |].
  set (r := rnd w) in *.
  assert (Hwu : 0 <= w * u <= w / 1000).
  { split; [apply Rmult_le_pos; lra|].
    assert (w * u <= w * (1 / 1000)) by (apply Rmult_le_compat_l; lra). lra. }
  assert (Hr14 : 14 < r) by lra.
  (* the quotient *)
  set (g := 15 / r).
  assert (Hgr : g * r = 15) by (unfold g; field; lra).
  assert (Hg0 : 0 < g) by (unfold g; apply Rdiv_lt_0_compat; lra).
  assert (Hg1 : g <= 15 / 14).
  { assert (g * 14 <= g * r) by (apply Rmult_le_compat_l; lra). lra. }
  assert (Hgu : 0 <= g * u <= g / 1000).
  { split; [apply Rmult_le_pos; lra|].
    assert (g * u <= g * (1 / 1000)) by (apply Rmult_le_compat_l; lra). lra. }
  assert (Hc : Rabs c <= Rabs g * (1 + u) + eta).
  { apply rnd_abs. rewrite Rabs_right by lra. lra. }
  rewrite (Rabs_right g) in Hc by lra.
  assert (Hc2 : Rabs c <= 11 / 10) by lra.
  (* the two products *)
  assert (Hprod : forall z, z * z <= S ->
            rnd (z * c) * rnd (z * c)
            <= z * z * (c * c) * ((1 + u) * (1 + u)) * (1 + eta)
               + eta * (1 + eta)).
  { intros z Hz.
    assert (HzO : Rabs (z * c) <= Omega).
    { rewrite Rabs_mult.
      pose proof (Rabs_pos z) as Hz0. pose proof (Rabs_pos c) as Hc0.
      pose proof (Rabs_sq z) as Hzz.
      pose proof (Rle_0_sqr (Rabs z - 1)) as H1. unfold Rsqr in H1.
      assert (Rabs z * Rabs c <= Rabs z * (11 / 10))
        by (apply Rmult_le_compat_l; lra).
      lra. }
    pose proof (rnd_abs (z * c) HzO) as H.
    replace (Rabs (z * c) * (1 + u)) with (Rabs (z * c * (1 + u))) in H.
    - apply abs_le_slack in H; [|lra].
      replace (z * z * (c * c) * ((1 + u) * (1 + u)))
        with (z * c * (1 + u) * (z * c * (1 + u))) by ring.
      exact H.
    - rewrite (Rabs_mult (z * c)). f_equal. apply Rabs_right. lra. }
  pose proof (Hprod a ltac:(unfold S; lra)) as Ha.
  pose proof (Hprod b ltac:(unfold S; lra)) as Hb.
  clear Hprod.
  (* the square of the scale *)
  assert (Hcc : c * c <= g * g * ((1 + u) * (1 + u)) * (1 + eta)
                         + eta * (1 + eta)).
  { replace (g * g * ((1 + u) * (1 + u)))
      with (g * (1 + u) * (g * (1 + u))) by ring.
    apply abs_le_slack; [lra|].
    rewrite (Rabs_right (g * (1 + u))); [exact Hc|].
    apply Rle_ge. apply Rmult_le_pos; lra. }
  (* S against the square of r *)
  set (d := 1 - 1001 / 1000 * u).
  assert (Hd : 0 <= d) by (unfold d; lra).
  assert (Hrw : w * d <= r).
  { eapply Rle_trans; [apply (shrink1 w u eta); lra | exact Hr1]. }
  assert (Hst : t * d <= s).
  { eapply Rle_trans; [apply (shrink1 t u eta); lra | lra]. }
  assert (HtS : S * d <= t).
  { eapply Rle_trans; [apply (shrink2 S u eta); lra | exact Ht1]. }
  pose proof (chain_lower S t s w r d HS0 ltac:(lra) ltac:(lra) Hd HtS Hst Hw Hrw)
    as Hrr.
  pose proof (fourth_power u Hu) as Hd4. cbv zeta in Hd4. fold d in Hd4.
  assert (HSr : S * (1 - 4005 / 1000 * u) <= r * r).
  { assert (S * (1 - 4005 / 1000 * u) <= S * (d * d * d * d))
      by (apply Rmult_le_compat_l; assumption).
    lra. }
  pose proof (quotient_square S r u Hu HS0 ltac:(lra) HSr) as HSg.
  fold g in HSg.
  (* putting the factors together *)
  destruct (factor_bound u eta Hu Heta) as [HK1 HK2].
  set (K := (1 + u) * (1 + u) * (1 + eta)) in *.
  assert (HScc : S * (c * c) <= 225 + 1400 * u).
  { assert (H1 : S * (c * c) <= S * (g * g * ((1 + u) * (1 + u)) * (1 + eta)
                                      + eta * (1 + eta)))
      by (apply Rmult_le_compat_l; assumption).
    assert (H2 : S * (g * g) * K <= 225 * (1 + 41 / 10 * u) * K)
      by (apply Rmult_le_compat_r; lra).
    assert (H3 : 225 * (1 + 41 / 10 * u) * K
                 <= 225 * (1 + 41 / 10 * u) * (1 + 201 / 100 * u))
      by (apply Rmult_le_compat_l; lra).
    assert (Huu : 0 <= u * u <= u / 1000).
    { split; [apply Rmult_le_pos; lra|].
      assert (u * u <= u * (1 / 1000)) by (apply Rmult_le_compat_l; lra). lra. }
    assert (H4 : eta * S * (1 + eta) <= u * (1 + eta))
      by (apply Rmult_le_compat_r; lra).
    assert (H5 : 0 <= u * eta <= u / 1000).
    { split; [apply Rmult_le_pos; lra|].
      assert (u * eta <= u * (1 / 1000)) by (apply Rmult_le_compat_l; lra). lra. }
    unfold K in H2.
    replace (S * (g * g * ((1 + u) * (1 + u)) * (1 + eta) + eta * (1 + eta)))
      with (S * (g * g) * ((1 + u) * (1 + u) * (1 + eta)) + eta * S * (1 + eta))
      in H1 by ring.
    replace (225 * (1 + 41 / 10 * u) * (1 + 201 / 100 * u))
      with (225 + 225 * (611 / 100) * u + 225 * (41 / 10) * (201 / 100) * (u * u))
      in H3 by field.
    unfold K in H3. lra. }
  assert (HScc0 : 0 <= S * (c * c)).
  { apply Rmult_le_pos; [exact HS0|]. pose proof (Rle_0_sqr c) as H; exact H. }
  assert (Hfin : S * (c * c) * K <= (225 + 1400 * u) * (1 + 201 / 100 * u)).
  { apply Rmult_le_compat; lra. }
  assert (Huu : 0 <= u * u <= u / 1000).
  { split; [apply Rmult_le_pos; lra|].
    assert (u * u <= u * (1 / 1000)) by (apply Rmult_le_compat_l; lra). lra. }
  assert (Hee : 0 <= eta * eta <= eta).
  { split; [apply Rmult_le_pos; lra|].
    assert (eta * eta <= eta * 1) by (apply Rmult_le_compat_l; lra). lra. }
  replace ((225 + 1400 * u) * (1 + 201 / 100 * u))
    with (225 + (1400 + 225 * (201 / 100)) * u + 1400 * (201 / 100) * (u * u))
    in Hfin by field.
  unfold K in Hfin.
  replace (a * a * (c * c) * ((1 + u) * (1 + u)) * (1 + eta))
    with (a * a * (c * c) * ((1 + u) * (1 + u) * (1 + eta))) in Ha by ring.
  replace (b * b * (c * c) * ((1 + u) * (1 + u)) * (1 + eta))
    with (b * b * (c * c) * ((1 + u) * (1 + u) * (1 + eta))) in Hb by ring.
  replace (S * (c * c) * ((1 + u) * (1 + u) * (1 + eta)))
    with (a * a * (c * c) * ((1 + u) * (1 + u) * (1 + eta))
          + b * b * (c * c) * ((1 + u) * (1 + u) * (1 + eta))) in Hfin
    by (unfold S; ring).
  lra.
Qed.

(** The velocity that the test of line 167 leaves alone. *)
Lemma no_rescale_bound (a b : R) :
  4 * (a * a + b * b) + 1000 <= Omega ->
  ~ 225 < rnd (rnd (a * a) + rnd (b * b)) ->
  a * a + b * b <= 225 + 1900 * u.
Proof.
  intros HS Hs.
  pose proof (Rle_0_sqr a) as Haa. pose proof (Rle_0_sqr b) as Hbb.
  unfold Rsqr in Haa, Hbb.
  set (S := a * a + b * b) in *.
  assert (HS0 : 0 <= S) by (unfold S; lra).
  destruct (rnd_pos (a * a)) as [Hp1 Hp2]; [lra | unfold S in HS; lra |].
  destruct (rnd_pos (b * b)) as [Hq1 Hq2]; [lra | unfold S in HS; lra |].
  set (t := rnd (a * a) + rnd (b * b)) in *.
  assert (HSu : 0 <= S * u <= S / 1000).
  { split; [apply Rmult_le_pos; lra|].
    assert (S * u <= S * (1 / 1000)) by (apply Rmult_le_compat_l; lra). lra. }
  assert (Ht1 : S * (1 - u) - 2 * eta <= t) by (unfold t, S; lra).
  assert (Ht2 : t <= S * (1 + u) + 2 * eta) by (unfold t, S; lra).
  assert (HtO : Rabs t <= Omega) by (apply Rabs_le; lra).
  destruct (rnd_near t HtO) as [Hs1 _].
  destruct (Rle_or_lt t 0) as [Hn|Hp].
  - lra.
  - rewrite (Rabs_right t) in Hs1 by lra.
    assert (Htu : 0 <= u * t <= t / 1000).
    { split; [apply Rmult_le_pos; lra|].
      assert (u * t <= 1 / 1000 * t) by (apply Rmult_le_compat_r; lra). lra. }
    assert (Ht226 : t <= 226) by lra.
    assert (HS227 : S <= 227) by lra.
    assert (Htu2 : u * t <= 226 * u)
      by (rewrite (Rmult_comm 226); apply Rmult_le_compat_l; lra).
    assert (HSu2 : S * u <= 227 * u) by (apply Rmult_le_compat_r; lra).
    lra.
Qed.

(** A reflection at a wall (lines 178 and 181). *)
Lemma bounce_bound (v : R) :
  1000 <= Omega -> v * v <= 256 ->
  rnd (v * - rnd (6 / 10)) * rnd (v * - rnd (6 / 10)) <= v * v + 2 * eta.
Proof.
  intros HO Hv.
  pose proof (Rle_0_sqr v) as Hvv. unfold Rsqr in Hvv.
  set (k := - rnd (6 / 10)).
  assert (Hk : Rabs k <= 61 / 100).
  { unfold k. rewrite Rabs_Ropp.
    pose proof (rnd_abs (6 / 10)) as H.
    rewrite (Rabs_right (6 / 10)) in H by lra.
    specialize (H ltac:(lra)). lra. }
  assert (Hkk : k * k <= 61 / 100 * (61 / 100)) by (now apply sq_le_of_abs).
  assert (Hv16 : Rabs v <= 16).
  { apply Rabs_le. pose proof (Rle_0_sqr (v - 16)) as H1.
    pose proof (Rle_0_sqr (v + 16)) as H2. unfold Rsqr in H1, H2. lra. }
  assert (HvO : Rabs (v * k) <= Omega).
  { rewrite Rabs_mult. pose proof (Rabs_pos v). pose proof (Rabs_pos k).
    assert (Rabs v * Rabs k <= 16 * (61 / 100))
      by (apply Rmult_le_compat; lra).
    lra. }
  pose proof (rnd_abs (v * k) HvO) as H.
  replace (Rabs (v * k) * (1 + u)) with (Rabs (v * k * (1 + u))) in H.
  - apply abs_le_slack in H; [|lra].
    destruct (factor_bound u eta Hu Heta) as [HK1 HK2].
    replace (v * k * (1 + u) * (v * k * (1 + u)) * (1 + eta))
      with (v * v * (k * k * ((1 + u) * (1 + u) * (1 + eta)))) in H by ring.
    assert (H1 : k * k * ((1 + u) * (1 + u) * (1 + eta))
                 <= 61 / 100 * (61 / 100) * (1 + 201 / 100 * u)).
    { apply Rmult_le_compat; try lra.
      pose proof (Rle_0_sqr k) as H0; exact H0. }
    assert (H2 : v * v * (k * k * ((1 + u) * (1 + u) * (1 + eta)))
                 <= v * v * 1).
    { apply Rmult_le_compat_l; lra. }
    assert (Hee : 0 <= eta * eta <= eta).
    { split; [apply Rmult_le_pos; lra|].
      assert (eta * eta <= eta * 1) by (apply Rmult_le_compat_l; lra). lra. }
    lra.
  - rewrite (Rabs_mult (v * k)). f_equal. apply Rabs_right. lra.
Qed.

(** The drag of lines 161-163 on one component. *)
Lemma drag_bound (z drag : R) :
  Rabs drag <= 1 -> z * z + 1 <= Omega ->
  rnd (z * drag) * rnd (z * drag) <= 101 / 100 * (z * z) + 1 / 100.
Proof.
  intros Hd HO.
  pose proof (Rle_0_sqr z) as Hzz. unfold Rsqr in Hzz.
  assert (Hz1 : Rabs z <= z * z + 1).
  { pose proof (Rabs_sq z) as E. pose proof (Rabs_pos z).
    pose proof (Rle_0_sqr (Rabs z - 1)) as H1. unfold Rsqr in H1. lra. }
  assert (HzO : Rabs (z * drag) <= Omega).
  { rewrite Rabs_mult. pose proof (Rabs_pos z). pose proof (Rabs_pos drag).
    assert (Rabs z * Rabs drag <= Rabs z * 1)
      by (apply Rmult_le_compat_l; lra).
    lra. }
  pose proof (rnd_abs (z * drag) HzO) as H.
  replace (Rabs (z * drag) * (1 + u)) with (Rabs (z * drag * (1 + u))) in H.
  - apply abs_le_slack in H; [|lra].
    destruct (factor_bound u eta Hu Heta) as [HK1 HK2].
    replace (z * drag * (1 + u) * (z * drag * (1 + u)) * (1 + eta))
      with (z * z * (drag * drag * ((1 + u) * (1 + u) * (1 + eta)))) in H by ring.
    assert (Hdd : drag * drag <= 1 * 1) by (now apply sq_le_of_abs).
    assert (H1 : drag * drag * ((1 + u) * (1 + u) * (1 + eta))
                 <= 1 * (1 + 201 / 100 * u)).
    { apply Rmult_le_compat; try lra.
      pose proof (Rle_0_sqr drag) as H0; exact H0. }
    assert (H2 : z * z * (drag * drag * ((1 + u) * (1 + u) * (1 + eta)))
                 <= z * z * (101 / 100)).
    { apply Rmult_le_compat_l; lra. }
    assert (Hee : 0 <= eta * eta <= eta).
    { split; [apply Rmult_le_pos; lra|].
      assert (eta * eta <= eta * 1) by (apply Rmult_le_compat_l; lra). lra. }
    lra.
  - rewrite (Rabs_mult (z * drag)). f_equal. apply Rabs_right. lra.
Qed.

(** Lines 161-170 in rounded arithmetic. *)
Lemma drag_and_limit_rounded (drag vx vy : R) :
  Rabs drag <= 1 ->
  5 * (vx * vx + vy * vy) + 2000 <= Omega ->
  let '(vx', vy') := Generic.drag_and_limit (rounded rnd) drag vx vy in
  vx' * vx' + vy' * vy' <= 225 + 1900 * u.
Proof.
  intros Hd HO.
  pose proof (Rle_0_sqr vx) as Hxx. pose proof (Rle_0_sqr vy) as Hyy.
  unfold Rsqr in Hxx, Hyy.
  pose proof (drag_bound vx drag Hd ltac:(lra)) as Ha.
  pose proof (drag_bound vy drag Hd ltac:(lra)) as Hb.
  unfold Generic.drag_and_limit. cbn [rounded fmul fadd fdiv fsqrt flt of_int].
  set (a := rnd (vx * drag)) in *. set (b := rnd (vy * drag)) in *.
  assert (HS : 4 * (a * a + b * b) + 1000 <= Omega) by lra.
  destruct (Rltb 225 (rnd (rnd (a * a) + rnd (b * b)))) eqn:E.
  - apply Rltb_true in E. exact (rescale_bound a b HS E).
  - apply Rltb_false in E. apply no_rescale_bound; [exact HS | lra].
Qed.

(** Lines 161-182 in rounded arithmetic. *)
Lemma kinematics_tail_rounded (drag x y vx vy : R) :
  Rabs drag <= 1 ->
  5 * (vx * vx + vy * vy) + 2000 <= Omega ->
  let '(_, _, vx', vy') := Generic.kinematics_tail (rounded rnd) drag x y vx vy in
  vx' * vx' + vy' * vy' <= 225 + 2000 * u.
Proof.
  intros Hd HO.
  pose proof (Rle_0_sqr vx) as Hxx. pose proof (Rle_0_sqr vy) as Hyy.
  unfold Rsqr in Hxx, Hyy.
  pose proof (drag_and_limit_rounded drag vx vy Hd HO) as H.
  unfold Generic.kinematics_tail.
  destruct (Generic.drag_and_limit (rounded rnd) drag vx vy) as [a b].
  pose proof (Rle_0_sqr a) as Haa. pose proof (Rle_0_sqr b) as Hbb.
  unfold Rsqr in Haa, Hbb.
  pose proof (bounce_bound a ltac:(lra) ltac:(lra)) as Ba.
  pose proof (bounce_bound b ltac:(lra) ltac:(lra)) as Bb.
  unfold Generic.move_and_bounce.
  cbn [rounded fmul fadd fdiv fneg flt of_int].
  destruct (Rltb (rnd (x + rnd (a * 2))) 0 || Rltb 1000 (rnd (x + rnd (a * 2))));
    destruct (Rltb (rnd (y + rnd (b * 2))) 0 || Rltb 700 (rnd (y + rnd (b * 2))));
    cbv beta iota; lra.
Qed.

End RoundingError.

(** ** The speed limit of the embedding and of binary64 *)

Lemma py_clamp_exact (hi x : R) :
  0 <= hi ->
  Generic.py_max exact 0 (Generic.py_min exact hi x) = Rmax 0 (Rmin hi x).
Proof.
  intros Hhi. unfold Generic.py_max, Generic.py_min, Rmax, Rmin.
  cbn [exact flt].
  destruct (Rltb x hi) eqn:E1.
  - apply Rltb_true in E1.
    destruct (Rle_dec hi x) as [H|H]; [lra|].
    destruct (Rltb 0 x) eqn:E2.
    + apply Rltb_true in E2. destruct (Rle_dec 0 x); lra.
    + apply Rltb_false in E2. destruct (Rle_dec 0 x); lra.
  - apply Rltb_false in E1.
    destruct (Rle_dec hi x) as [H|H]; [|lra].
    destruct (Rltb 0 hi) eqn:E2.
    + apply Rltb_true in E2. destruct (Rle_dec 0 hi); lra.
    + apply Rltb_false in E2. destruct (Rle_dec 0 hi); lra.
Qed.

Lemma step_speed_limit_eq (q : Particle.t) :
  Particle.step_speed_limit q =
  let speed_sq := Particle.vx q * Particle.vx q + Particle.vy q * Particle.vy q in
  if Rltb 225 speed_sq
  then moved q (Particle.x q) (Particle.y q)
         (Particle.vx q * (15 / sqrt speed_sq))
         (Particle.vy q * (15 / sqrt speed_sq))
  else q.
Proof.
  unfold Particle.step_speed_limit, Rgtb. cbv zeta.
  destruct (Rltb 225 _); [destruct q|]; reflexivity.
Qed.

Lemma moved_moved (q : Particle.t) (x y vx vy x' y' vx' vy' : R) :
  moved (moved q x y vx vy) x' y' vx' vy' = moved q x' y' vx' vy'.
Proof. reflexivity. Qed.

(** The stages of lines 161-182 of the embedding are [kinematics_tail] in
    exact arithmetic. *)
Lemma kinematics_tail_exact (q : Particle.t) :
  Particle.step_bounds
    (Particle.step_move (Particle.step_speed_limit (Particle.step_drag q)))
  = let '(x', y', vx', vy') :=
      Generic.kinematics_tail exact (td_drag (Particle.type_data q))
        (Particle.x q) (Particle.y q) (Particle.vx q) (Particle.vy q) in
    moved q x' y' vx' vy'.
Proof.
  rewrite step_drag_eq, step_speed_limit_eq.
  unfold Generic.kinematics_tail, Generic.drag_and_limit.
  cbn [exact fmul fadd fdiv fneg fsqrt flt of_int moved
       Particle.vx Particle.vy Particle.x Particle.y].
  cbv zeta.
  set (ux := Particle.vx q * td_drag (Particle.type_data q)).
  set (uy := Particle.vy q * td_drag (Particle.type_data q)).
  assert (Htail : forall a b,
    Particle.step_bounds
      (Particle.step_move (moved q (Particle.x q) (Particle.y q) a b))
    = let '(x', y', vx', vy') :=
        Generic.move_and_bounce exact (Particle.x q) (Particle.y q) a b in
      moved q x' y' vx' vy').
  { intros a b. rewrite step_move_eq, step_bounds_eq.
    unfold Generic.move_and_bounce. cbv zeta.
    cbn [exact fmul fadd fdiv fneg fsqrt flt of_int moved
         Particle.vx Particle.vy Particle.x Particle.y].
    unfold Rgtb, WIDTH, HEIGHT.
    rewrite !py_clamp_exact by lra.
    set (x1 := Particle.x q + a * 2). set (y1 := Particle.y q + b * 2).
    assert (Hc : forall hi v, 0 <= hi -> Rltb v 0 || Rltb hi v = false ->
                              Rmax 0 (Rmin hi v) = v).
    { intros hi v Hhi H. apply orb_false_elim in H. destruct H as [H1 H2].
      apply Rltb_false in H1. apply Rltb_false in H2.
      rewrite Rmin_right by exact H2. apply Rmax_right. exact H1. }
    destruct (Rltb x1 0 || Rltb 1000 x1) eqn:Ex;
      destruct (Rltb y1 0 || Rltb 700 y1) eqn:Ey; cbv beta iota;
      rewrite ?(Hc 1000 x1 ltac:(lra) Ex), ?(Hc 700 y1 ltac:(lra) Ey);
      reflexivity. }
  destruct (Rltb 225 (ux * ux + uy * uy)).
  - rewrite moved_moved. apply Htail.
  - apply Htail.
Qed.

(** C6. The squared speed after a call of [Particle.update] is at most 225
    in exact arithmetic only.  There the velocity that [update] leaves is
    the one lines 161-182 ([Generic.kinematics_tail]) compute from the
    state after the field loop, and its squared length is at most 225.
    When every operation is followed by a rounding that meets the usual
    error model (relative error [u], absolute error [eta] on underflow, no
    overflow), the squared length of the velocity that lines 161-182 leave,
    from whatever velocity reaches them, is at most [225 + 2000 * u]; the
    constants of binary64 are within the conditions, which gives
    225 + 2000 * 2^-53, about 225 + 2.3e-13, and the velocity that binary64
    leaves for a NORMAL particle arriving with (-40, -40) is within it. *)
Theorem C6_speed_cap_up_to_rounding :
  (forall (turbulence_active : bool) (p : Particle.t)
          (force_fields : list ForceField.t) (particles : list Particle.t)
          (dt : R),
      let q := Particle.step_fields
                 (Particle.step_turbulence turbulence_active
                    (Particle.step_trail (Particle.step_age p)))
                 force_fields in
      let p' := fst (Particle.update turbulence_active p force_fields
                       particles dt) in
      let '(_, _, vx', vy') :=
        Generic.kinematics_tail exact (td_drag (Particle.type_data q))
          (Particle.x q) (Particle.y q) (Particle.vx q) (Particle.vy q) in
      Particle.vx p' = vx' /\ Particle.vy p' = vy' /\
      vx' * vx' + vy' * vy' <= 225) /\
  (forall (rnd : R -> R) (u eta Omega drag x y vx vy : R),
      0 <= u <= 1 / 1000 -> 0 <= eta <= u / 1000 -> eta * Omega <= 4 * u ->
      rounds_within rnd u eta Omega ->
      Rabs drag <= 1 ->
      5 * (vx * vx + vy * vy) + 2000 <= Omega ->
      let '(_, _, vx', vy') :=
        Generic.kinematics_tail (rounded rnd) drag x y vx vy in
      vx' * vx' + vy' * vy' <= 225 + 2000 * u) /\
  (0 <= u64 <= 1 / 1000 /\ 0 <= eta64 <= u64 / 1000 /\
   eta64 * Omega64 <= 4 * u64) /\
  (let '(_, _, vx, vy) :=
     Generic.kinematics_tail binary64
       (PrimFloat.div (float_of_int 98) (float_of_int 100))
       (float_of_int 500) (float_of_int 350)
       (float_of_int (-40)) (float_of_int (-40)) in
   float_value vx * float_value vx + float_value vy * float_value vy
   <= 225 + 2000 * u64).
Proof.
  split; [|split; [|split]].
  - intros turb p fs ps dt q p'.
    destruct (update_velocity turb p fs ps dt) as [Hx Hy].
    pose proof (update_speed_cap_exact turb p fs ps dt) as Hcap.
    unfold speed_sq in Hcap. fold p' in Hx, Hy, Hcap.
    unfold kinematics in Hx, Hy. fold q in Hx, Hy.
    rewrite kinematics_tail_exact in Hx, Hy.
    destruct (Generic.kinematics_tail exact (td_drag (Particle.type_data q))
                (Particle.x q) (Particle.y q) (Particle.vx q) (Particle.vy q))
      as [[[x' y'] vx'] vy'].
    cbn [moved Particle.vx Particle.vy] in Hx, Hy.
    rewrite Hx, Hy in Hcap. repeat split; assumption.
  - intros rnd u eta Omega drag x y vx vy Hu Heta HO Hrnd Hd Hv.
    exact (kinematics_tail_rounded rnd u eta Omega Hu Heta HO Hrnd
             drag x y vx vy Hd Hv).
  - unfold u64, eta64, Omega64. repeat split; lra.
  - set (r := Generic.kinematics_tail _ _ _ _ _ _).
    vm_compute in r. subst r. cbv beta iota.
    unfold float_value.
    set (sf := Prim2SF _). vm_compute in sf. subst sf. cbv beta iota.
    cbn [Z.leb Z.compare].
    set (z := Z.pow 2 _). vm_compute in z. subst z.
    unfold u64. lra.
Qed.

Lemma C6_speed_cap_up_to_rounding_witness :
  let '(_, _, vx', vy') :=
    Generic.kinematics_tail (rounded round_up64) (98 / 100) 500 350 (-40) (-40) in
  vx' * vx' + vy' * vy' <= 225 + 2000 * u64.
Proof.
  destruct C6_speed_cap_up_to_rounding as (_ & H & (Hu & He & HO) & _).
  apply (H round_up64 u64 eta64 Omega64); try assumption.
  - intros x _. unfold round_up64.
    replace (x + (u64 * Rabs x + eta64) - x) with (u64 * Rabs x + eta64) by ring.
    rewrite Rabs_right; [lra|].
    apply Rle_ge. pose proof (Rabs_pos x).
    assert (0 <= u64 * Rabs x) by (apply Rmult_le_pos; lra). lra.
  - apply Rabs_le. lra.
  - unfold Omega64. lra.
Defined.

(** C6, as stated, fails in binary64, the arithmetic the code runs in: a
    NORMAL particle (drag 0.98) at (500, 350) that reaches line 161 with
    velocity (-40, -40) leaves line 182 with velocity
    (-10.606601717798213, -10.606601717798213), whose squared length is
    above 225, whether it is computed in binary64 as the code would
    (225.00000000000003) or exactly. *)
Lemma C6_binary64_exceeds_cap :
  let '(_, _, vx, vy) :=
    Generic.kinematics_tail binary64
      (PrimFloat.div (float_of_int 98) (float_of_int 100))
      (float_of_int 500) (float_of_int 350)
      (float_of_int (-40)) (float_of_int (-40)) in
  PrimFloat.ltb (float_of_int 225)
    (PrimFloat.add (PrimFloat.mul vx vx) (PrimFloat.mul vy vy)) = true /\
  225 < float_value vx * float_value vx + float_value vy * float_value vy.
Proof.
  set (r := Generic.kinematics_tail _ _ _ _ _ _).
  vm_compute in r. subst r. cbv beta iota.
  split; [vm_compute; reflexivity|].
  unfold float_value.
  set (sf := Prim2SF _). vm_compute in sf. subst sf. cbv beta iota.
  cbn [Z.leb Z.compare].
  set (z := Z.pow 2 _). vm_compute in z. subst z.
  lra.
Qed.

(** ** The hue *)

Lemma hsv_to_rgb_exact (h s v : R) :
  Generic.hsv_to_rgb exact h s v = hsv_to_rgb h s v.
Proof. reflexivity. Qed.

(** The conversion has period 1 in the hue in exact arithmetic, where
    [Generic.hsv_to_rgb] is the [hsv_to_rgb] of the embedding: for a hue
    that is not negative, [hsv_to_rgb(h + 1, s, v) = hsv_to_rgb(h, s, v)].
    In binary64 the two calls need not agree: for h = 0.1, s = 0.8 and
    v = 1 they return the same first and third channel and second
    channels that differ, by less than 1e-15. *)
Theorem hsv_to_rgb_period :
  (forall h s v : R, Generic.hsv_to_rgb exact h s v = hsv_to_rgb h s v) /\
  (forall h s v : R, 0 <= h -> hsv_to_rgb (h + 1) s v = hsv_to_rgb h s v) /\
  (let h := PrimFloat.div (float_of_int 1) (float_of_int 10) in
   let s := PrimFloat.div (float_of_int 8) (float_of_int 10) in
   let v := float_of_int 1 in
   let '(r0, g0, b0) := Generic.hsv_to_rgb binary64 h s v in
   let '(r1, g1, b1) :=
     Generic.hsv_to_rgb binary64 (PrimFloat.add h (float_of_int 1)) s v in
   r1 = r0 /\ b1 = b0 /\ PrimFloat.ltb g0 g1 = true /\
   PrimFloat.ltb (PrimFloat.sub g1 g0)
     (PrimFloat.div (float_of_int 1) (float_of_int 1000000000000000)) = true).
Proof.
  split; [exact hsv_to_rgb_exact|].
  split; [exact hsv_to_rgb_periodic_exact|].
  vm_compute. repeat split; reflexivity.
Qed.

Lemma hsv_to_rgb_period_witness :
  hsv_to_rgb (1 / 2 + 1) (8 / 10) 1 = hsv_to_rgb (1 / 2) (8 / 10) 1.
Proof.
  apply (proj1 (proj2 hsv_to_rgb_period)). lra.
Defined.

(** ** The search under a click, in any arithmetic *)

Section AnyArithmetic.

Context {F : Type} (A : Arith F).

Lemma generic_find_closest_from (mx my : F) (ps : list (F * F * F)) :
  forall (i : nat) (closest : option nat) (best : F),
    match Generic.find_closest_from A ps mx my i closest best with
    | Some j =>
        closest = Some j \/
        ((i <= j)%nat /\
         exists p, nth_error ps (j - i) = Some p /\
                   Generic.clickable A mx my p = true)
    | None =>
        closest = None /\
        forall p, In p ps -> Generic.click_hit A mx my best p = false
    end.
Proof.
  induction ps as [|p rest IH]; intros i closest best;
    cbn [Generic.find_closest_from].
  - destruct closest as [j|]; [left; reflexivity|].
    split; [reflexivity | intros p []].
  - destruct (Generic.click_hit A mx my best p) eqn:Hc.
    + specialize (IH (S i) (Some i) (fsqrt A (Generic.click_d A mx my p))).
      destruct (Generic.find_closest_from A rest mx my (S i) (Some i)
                  (fsqrt A (Generic.click_d A mx my p))) as [j|].
      * right. destruct IH as [E | (Hij & q & Hq & Hcq)].
        -- injection E as <-. split; [lia|].
           exists p. rewrite Nat.sub_diag. split; [reflexivity|].
           unfold Generic.click_hit in Hc. apply andb_prop in Hc. apply Hc.
        -- split; [lia|]. exists q.
           replace (j - i)%nat with (S (j - S i)) by lia.
           split; assumption.
      * destruct IH as [E _]. discriminate.
    + specialize (IH (S i) closest best).
      destruct (Generic.find_closest_from A rest mx my (S i) closest best)
        as [j|].
      * destruct IH as [E | (Hij & q & Hq & Hcq)]; [left; exact E|].
        right. split; [lia|]. exists q.
        replace (j - i)%nat with (S (j - S i)) by lia.
        split; assumption.
      * destruct IH as [E Hall]. split; [exact E|].
        intros q [<-|Hq]; [exact Hc | now apply Hall].
Qed.

Lemma generic_find_closest_first_hit (mx my : F) (ps : list (F * F * F)) :
  forall (i j : nat) (best : F),
    Generic.find_closest_from A ps mx my i None best = Some j ->
    exists p, In p ps /\ Generic.click_hit A mx my best p = true.
Proof.
  induction ps as [|p rest IH]; intros i j best E;
    cbn [Generic.find_closest_from] in E; [discriminate|].
  destruct (Generic.click_hit A mx my best p) eqn:Hc.
  - exists p. split; [left; reflexivity | exact Hc].
  - destruct (IH _ _ _ E) as (q & Hq & Hcq).
    exists q. split; [right; exact Hq | exact Hcq].
Qed.

End AnyArithmetic.

Lemma find_closest_from_exact (mx my : R) (ps : list Particle.t) :
  forall (i : nat) (closest : option (nat * Particle.t)) (best : R),
    Generic.find_closest_from exact (map click_view ps) mx my i
      (option_map fst closest) best
    = option_map fst (find_closest_from ps mx my i closest best).
Proof.
  induction ps as [|p rest IH]; intros i closest best;
    cbn [map Generic.find_closest_from find_closest_from]; [reflexivity|].
  unfold Generic.click_hit, Generic.clickable, Generic.click_d, click_view.
  cbn [exact fmul fadd fsub fsqrt flt of_int].
  destruct (Rltb _ (best * best) && Rltb _ _).
  - exact (IH (S i) (Some (i, p)) _).
  - apply IH.
Qed.

(** The search of lines 436-442.  In any arithmetic, the particle it
    reports is at the reported place in the list and passed the test
    against its size plus 10, and nothing is reported exactly when no
    particle passes the two tests of line 440 against the distance 60.  In
    exact arithmetic, where [Generic.find_closest] is the [find_closest] of
    the embedding, the particle found is moreover a nearest one among those
    that pass the test against their size, and nearer than 60.  In binary64
    it need not be a nearest one: with the click at (0, 0), a particle at
    (2, 3) and, after it in the list, one at (3.6055512754639891, 0), both
    of size 3, the first is reported (squared distance 13) although the
    second is nearer (12.999999999999998), because the square of the
    rounded root of 13 is 12.999999999999998. *)
Theorem find_closest_found :
  (forall (F : Type) (A : Arith F) (ps : list (F * F * F)) (mx my : F),
      match Generic.find_closest A ps mx my with
      | Some i =>
          (exists p, nth_error ps i = Some p /\
                     Generic.clickable A mx my p = true) /\
          (exists p, In p ps /\
                     Generic.click_hit A mx my (of_int A 60) p = true)
      | None =>
          forall p, In p ps ->
                    Generic.click_hit A mx my (of_int A 60) p = false
      end) /\
  (forall (ps : list Particle.t) (mx my : R),
      Generic.find_closest exact (map click_view ps) mx my
      = option_map fst (find_closest ps mx my)) /\
  (forall (ps : list Particle.t) (mx my : R),
      match find_closest ps mx my with
      | Some (i, c) =>
          nth_error ps i = Some c /\
          clickable mx my c /\
          click_dist_sq mx my c < 60 * 60 /\
          forall q, In q ps -> clickable mx my q ->
                    click_dist_sq mx my c <= click_dist_sq mx my q
      | None =>
          forall q, In q ps -> clickable mx my q ->
                    60 * 60 <= click_dist_sq mx my q
      end) /\
  (let a := (float_of_int 2, float_of_int 3, float_of_int 3) in
   let b := (PrimFloat.div (float_of_int 8118979690322419)
                           (float_of_int 2251799813685248),
             float_of_int 0, float_of_int 3) in
   let mx := float_of_int 0 in
   let my := float_of_int 0 in
   Generic.find_closest binary64 [a; b] mx my = Some 0%nat /\
   PrimFloat.ltb (Generic.click_d binary64 mx my b)
                 (Generic.click_d binary64 mx my a) = true).
Proof.
  split; [|split; [|split]]; [| | |vm_compute; split; reflexivity].
  - intros F A ps mx my. unfold Generic.find_closest.
    pose proof (generic_find_closest_from A mx my ps 0 None (of_int A 60)) as H.
    destruct (Generic.find_closest_from A ps mx my 0 None (of_int A 60))
      as [j|] eqn:E.
    + destruct H as [H | (_ & p & Hp & Hc)]; [discriminate|].
      rewrite Nat.sub_0_r in Hp. split.
      * exists p. split; assumption.
      * exact (generic_find_closest_first_hit A mx my ps 0 j _ E).
    + exact (proj2 H).
  - intros ps mx my. unfold Generic.find_closest, find_closest.
    exact (find_closest_from_exact mx my ps 0 None 60).
  - exact find_closest_nearest_exact.
Qed.

Lemma find_closest_found_witness :
  nth_error [particle0] 0 = Some particle0 /\
  click_dist_sq 10 20 particle0 < 60 * 60.
Proof.
  pose proof (proj1 (proj2 (proj2 find_closest_found)) [particle0] 10 20) as H.
  rewrite find_closest_particle0 in H.
  destruct H as (H1 & _ & H3 & _). split; assumption.
Defined.
